(** * parseDataText: delimited text to a typed (x, y) sequence

    A shallow embedding of [src/utils/parseDataText.ts] and of the parts of
    the ECMAScript library it calls ([String.prototype.trim], [split],
    [Number] on decimal literals, [Date.UTC]), followed by the properties of
    the parser that the specification states. *)

From Stdlib Require Import ZArith NArith List Bool Lia String Ascii.
From Stdlib Require Import Floats.SpecFloat.
Import ListNotations.

Local Open Scope Z_scope.

(** ** Strings

    A JavaScript string is a sequence of UTF-16 code units. *)

Module JsString.

Definition char16 := N.
Definition jsstring := list char16.

(** Code units of an ASCII literal. *)
Definition js (s : string) : jsstring :=
  map N_of_ascii (list_ascii_of_string s).

Definition LF : char16 := 10%N.
Definition CR : char16 := 13%N.
Definition TAB : char16 := 9%N.
Definition COMMA : char16 := 44%N.

Definition eqb (a b : jsstring) : bool :=
  if list_eq_dec N.eq_dec a b then true else false.

(** WhiteSpace and LineTerminator of ECMA-262: what [trim] strips and what
    the class [\s] matches. *)
Definition isWhiteSpace (c : char16) : bool :=
  ((9 <=? c) && (c <=? 13) || (c =? 32) || (c =? 160) || (c =? 5760)
   || (8192 <=? c) && (c <=? 8202) || (c =? 8232) || (c =? 8233)
   || (c =? 8239) || (c =? 8287) || (c =? 12288) || (c =? 65279))%N.

Definition isDigit (c : char16) : bool := ((48 <=? c) && (c <=? 57))%N.

Fixpoint trimStart (s : jsstring) : jsstring :=
  match s with
  | c :: s' => if isWhiteSpace c then trimStart s' else s
  | [] => []
  end.

Definition trimEnd (s : jsstring) : jsstring := rev (trimStart (rev s)).

Definition trim (s : jsstring) : jsstring := trimEnd (trimStart s).

(** [s.includes(c)] for a one-unit needle. *)
Definition includes (s : jsstring) (c : char16) : bool :=
  existsb (N.eqb c) s.

(** [s.split(c)] for a one-unit separator: never the empty array. *)
Fixpoint split (sep : char16) (s : jsstring) : list jsstring :=
  match s with
  | [] => [[]]
  | c :: s' =>
      if N.eqb c sep then [] :: split sep s'
      else match split sep s' with
           | t :: ts => (c :: t) :: ts
           | [] => [[c]]
           end
  end.

(** [s.replace(/\r\n/g, "\n")]. *)
Fixpoint replaceCRLF (s : jsstring) : jsstring :=
  match s with
  | c :: s' =>
      match s' with
      | d :: s'' =>
          if N.eqb c CR && N.eqb d LF then LF :: replaceCRLF s''
          else c :: replaceCRLF s'
      | [] => [c]
      end
  | [] => []
  end.

(** [s.replace(/\r/g, "\n")]. *)
Definition replaceCR (s : jsstring) : jsstring :=
  map (fun c => if N.eqb c CR then LF else c) s.

(** [s.padEnd(n, "0")]. *)
Definition padEnd0 (n : nat) (s : jsstring) : jsstring :=
  s ++ repeat 48%N (n - List.length s).

(** The longest prefix of decimal digits, and what follows it. *)
Fixpoint spanDigits (s : jsstring) : jsstring * jsstring :=
  match s with
  | c :: s' =>
      if isDigit c then let '(ds, r) := spanDigits s' in (c :: ds, r)
      else ([], s)
  | [] => ([], [])
  end.

(** Exactly [n] decimal digits ([\d{n}]). *)
Fixpoint digitsN (n : nat) (s : jsstring) : option (jsstring * jsstring) :=
  match n with
  | O => Some ([], s)
  | S n' =>
      match s with
      | c :: s' =>
          if isDigit c then
            match digitsN n' s' with
            | Some (ds, r) => Some (c :: ds, r)
            | None => None
            end
          else None
      | [] => None
      end
  end.

(** Between one and [n] decimal digits, as many as there are ([\d{1,n}]). *)
Fixpoint digitsUpTo (n : nat) (s : jsstring) : jsstring * jsstring :=
  match n with
  | O => ([], s)
  | S n' =>
      match s with
      | c :: s' =>
          if isDigit c then let '(ds, r) := digitsUpTo n' s' in (c :: ds, r)
          else ([], s)
      | [] => ([], [])
      end
  end.

(** The integer a string of decimal digits denotes. *)
Definition digitsValue (ds : jsstring) : Z :=
  fold_left (fun acc c => 10 * acc + (Z.of_N c - 48)) ds 0.

End JsString.

Import JsString.

(** ** Numbers

    [Number(s)] on the decimal literals the parser passes to it, rounded to
    binary64 (round to nearest, ties to even). *)

Module JsNumber.

Definition number := spec_float.

Definition prec : Z := 53.
Definition emax : Z := 1024.

(** [Number.isFinite]. *)
Definition isFinite (x : number) : bool :=
  match x with
  | S754_zero _ | S754_finite _ _ _ => true
  | S754_infinity _ | S754_nan => false
  end.

(** The binary64 nearest to the non-negative rational [m * 10 ^ e].  For a
    negative [e] the quotient is taken with at least 56 significant bits and
    a sticky last bit, so the final rounding sees the exact position of the
    value between two neighbours. *)
Definition roundDecimal (m e : Z) : number :=
  if m =? 0 then S754_zero false
  else if 0 <=? e then binary_normalize prec emax (m * 10 ^ e) 0 false
  else
    let d := 10 ^ (- e) in
    let k := Z.max 0 (Z.log2 d + 56 - Z.log2 m) in
    let q := (m * 2 ^ k) / d in
    let r := (m * 2 ^ k) mod d in
    binary_normalize prec emax (2 * q + (if r =? 0 then 0 else 1)) (- k - 1) false.

(** The number an integer denotes (exact below 2^53). *)
Definition ofZ (z : Z) : number := binary_normalize prec emax z 0 false.

(** What [NUM_RE] captures of a literal: sign, integer digits, fraction
    digits, exponent. *)
Record decimal := {
  d_neg : bool;
  d_int : jsstring;
  d_frac : jsstring;
  d_exp : Z
}.

(** The mathematical value of the literal, rounded. *)
Definition decimalValue (d : decimal) : number :=
  let m := digitsValue (d_int d ++ d_frac d) in
  let e := d_exp d - Z.of_nat (List.length (d_frac d)) in
  let v := roundDecimal m e in
  if d_neg d then SFopp v else v.

End JsNumber.

Import JsNumber.

(** ** Dates

    [Date.UTC] of ECMA-262 on integer arguments; a time value is a number of
    milliseconds since 1970-01-01T00:00:00Z, and [None] stands for NaN. *)

Module JsDate.

Definition msPerDay : Z := 86400000.

Definition DayFromYear (y : Z) : Z :=
  365 * (y - 1970) + (y - 1969) / 4 - (y - 1901) / 100 + (y - 1601) / 400.

Definition DaysInYear (y : Z) : Z :=
  if negb (y mod 4 =? 0) then 365
  else if negb (y mod 100 =? 0) then 366
  else if negb (y mod 400 =? 0) then 365
  else 366.

Definition InLeapYear (y : Z) : Z := if DaysInYear y =? 366 then 1 else 0.

(** Day number, within its year, of the first day of month [mn] (0-11). *)
Definition monthStart (y mn : Z) : Z :=
  let l := InLeapYear y in
  match mn with
  | 0 => 0
  | 1 => 31
  | 2 => 59 + l
  | 3 => 90 + l
  | 4 => 120 + l
  | 5 => 151 + l
  | 6 => 181 + l
  | 7 => 212 + l
  | 8 => 243 + l
  | 9 => 273 + l
  | 10 => 304 + l
  | _ => 334 + l
  end.

Definition MakeDay (year month date : Z) : Z :=
  let ym := year + month / 12 in
  let mn := month mod 12 in
  DayFromYear ym + monthStart ym mn + date - 1.

Definition MakeTime (hour min sec ms : Z) : Z :=
  hour * 3600000 + min * 60000 + sec * 1000 + ms.

Definition MakeDate (day time : Z) : Z := day * msPerDay + time.

Definition TimeClip (t : Z) : option Z :=
  if Z.abs t <=? 8640000000000000 then Some t else None.

(** [Date.UTC(year, month, day, hours, minutes, seconds, ms)]: a year from 0
    to 99 stands for 1900 + year. *)
Definition DateUTC (year month day hours minutes seconds ms : Z) : option Z :=
  let yr := if (0 <=? year) && (year <=? 99) then 1900 + year else year in
  TimeClip (MakeDate (MakeDay yr month day) (MakeTime hours minutes seconds ms)).

End JsDate.

Import JsDate.

(** ** The parser *)

(** The result type of the source, [SequenceData<number | Date>].  An x is
    a number or a [Date]; a [Date] is held as its time value, and the number
    that the one-column loop stores, its own counter [i], is kept as the
    natural number it counts (a non-negative integer below the array-length
    limit, exact as a binary64). *)
Inductive xvalue :=
| XIndex (i : nat)
| XNum (n : number)
| XDate (t : Z).

(** The number an [XIndex] or [XNum] is at run time. *)
Definition xNumber (x : xvalue) : option number :=
  match x with
  | XIndex i => Some (ofZ (Z.of_nat i))
  | XNum n => Some n
  | XDate _ => None
  end.

Record SequenceData := {
  timeAxisName : jsstring;
  valueAxisName : jsstring;
  dataPoints : list (xvalue * number)
}.

(** One constructor per [throw] of the source, in source order, with the
    values its message interpolates. *)
Inductive parseError :=
| NoDataLines
| MixedDelimitersInLine
| MixedDelimitersAcrossLines
| InconsistentColumnCounts
| UnsupportedColumnCount
| DelimiterColumnMismatch
| NoDataRows
| InconsistentDataRowWidth
| InvalidIsoDate (row : nat)
| InvalidX (row : nat) (raw : jsstring)
| InvalidY (row : nat) (raw : jsstring)
| NonFiniteY (row : nat)
| NonFiniteNumber (row : nat).

Inductive result (A : Type) :=
| Ok (a : A)
| Err (e : parseError).

Arguments Ok {A} a.
Arguments Err {A} e.

Definition bind {A B} (r : result A) (k : A -> result B) : result B :=
  match r with
  | Ok a => k a
  | Err e => Err e
  end.

Notation "x <- r ;; k" := (bind r (fun x => k))
  (at level 61, r at next level, right associativity).
Notation "' p <- r ;; k" := (bind r (fun x => let 'p := x in k))
  (at level 61, p pattern, r at next level, right associativity).

Definition guard (b : bool) (e : parseError) : result unit :=
  if b then Err e else Ok tt.

(** *** Step 1: lines *)

Definition normalize (text : jsstring) : list jsstring :=
  filter (fun l => negb (Nat.eqb (List.length l) 0))
    (map trim (split LF (replaceCR (replaceCRLF text)))).

(** *** Step 2: the delimiter *)

Inductive delimiter := Comma | Tab.

Definition delimiterChar (d : delimiter) : char16 :=
  match d with Comma => COMMA | Tab => TAB end.

(** The counting loop; it throws at the first line holding both. *)
Fixpoint countDelimiters (lines : list jsstring) (commaLines tabLines : nat)
  : result (nat * nat) :=
  match lines with
  | [] => Ok (commaLines, tabLines)
  | l :: ls =>
      let hasComma := includes l COMMA in
      let hasTab := includes l TAB in
      let commaLines := if hasComma then S commaLines else commaLines in
      let tabLines := if hasTab then S tabLines else tabLines in
      if hasComma && hasTab then Err MixedDelimitersInLine
      else countDelimiters ls commaLines tabLines
  end.

Definition detectDelimiter (lines : list jsstring) : result (option delimiter) :=
  '(commaLines, tabLines) <- countDelimiters lines 0%nat 0%nat ;;
  if (0 <? commaLines)%nat && (0 <? tabLines)%nat
  then Err MixedDelimitersAcrossLines
  else Ok (if (0 <? commaLines)%nat then Some Comma
           else if (0 <? tabLines)%nat then Some Tab
           else None).

(** *** Step 3: rows and their shape *)

Definition tokenize (d : option delimiter) (lines : list jsstring)
  : list (list jsstring) :=
  map (fun l => match d with
                | Some c => split (delimiterChar c) l
                | None => [l]
                end) lines.

(** [new Set(rows.map(r => r.length)).size]. *)
Definition colCountsSize (rows : list (list jsstring)) : nat :=
  List.length (nodup Nat.eq_dec (map (@List.length jsstring) rows)).

Definition checkColumns (d : option delimiter) (rows : list (list jsstring))
  : result nat :=
  _ <- guard (1 <? colCountsSize rows)%nat InconsistentColumnCounts ;;
  let columns := List.length (hd [] rows) in
  _ <- guard (negb (Nat.eqb columns 1) && negb (Nat.eqb columns 2))
         UnsupportedColumnCount ;;
  _ <- guard (match d with Some _ => negb (Nat.eqb columns 2) | None => false end)
         DelimiterColumnMismatch ;;
  Ok columns.

(** *** Step 4: the classifiers *)

Definition PLUS : char16 := 43%N.
Definition MINUS : char16 := 45%N.
Definition DOT : char16 := 46%N.
Definition COLON : char16 := 58%N.

Definition isSign (c : char16) : bool := N.eqb c PLUS || N.eqb c MINUS.
Definition isExpMark (c : char16) : bool := (N.eqb c 101 || N.eqb c 69)%N.

(** The part [(?:[eE][+-]?\d+)?$] of [NUM_RE]. *)
Definition matchExponent (s : jsstring) : option Z :=
  match s with
  | [] => Some 0
  | c :: s1 =>
      if isExpMark c then
        let '(neg, s2) := match s1 with
                          | c' :: s' => if isSign c' then (N.eqb c' MINUS, s') else (false, s1)
                          | [] => (false, s1)
                          end in
        match spanDigits s2 with
        | ((_ :: _) as ds, []) =>
            Some (if neg then - digitsValue ds else digitsValue ds)
        | _ => None
        end
      else None
  end.

(** [NUM_RE = /^[+-]?(?:\d+\.?\d*|\.\d+)(?:[eE][+-]?\d+)?$/], with what it
    reads. *)
Definition NUM_RE_exec (s : jsstring) : option decimal :=
  let '(neg, s1) := match s with
                    | c :: s' => if isSign c then (N.eqb c MINUS, s') else (false, s)
                    | [] => (false, s)
                    end in
  match spanDigits s1 with
  | ((_ :: _) as ip, s2) =>
      let '(fp, s3) := match s2 with
                       | c :: s' => if N.eqb c DOT then spanDigits s' else ([], s2)
                       | [] => ([], s2)
                       end in
      match matchExponent s3 with
      | Some e => Some {| d_neg := neg; d_int := ip; d_frac := fp; d_exp := e |}
      | None => None
      end
  | ([], s2) =>
      match s2 with
      | c :: s' =>
          if N.eqb c DOT then
            match spanDigits s' with
            | ((_ :: _) as fp, s3) =>
                match matchExponent s3 with
                | Some e => Some {| d_neg := neg; d_int := []; d_frac := fp; d_exp := e |}
                | None => None
                end
            | _ => None
            end
          else None
      | [] => None
      end
  end.

(** [Number(s)] for the strings the parser converts: those [NUM_RE] accepts.
    (Every call of [Number] on a field sits behind a successful [NUM_RE]
    test; on other strings this model answers NaN.) *)
Definition Number (s : jsstring) : number :=
  match NUM_RE_exec s with
  | Some d => decimalValue d
  | None => S754_nan
  end.

Definition isFiniteNumberString (s : jsstring) : bool :=
  match NUM_RE_exec s with
  | None => false
  | Some _ => isFinite (Number s)
  end.

(** The capture groups of [ISO_RE]; an absent optional group is [None]
    ([undefined] in the source). *)
Record isoGroups := {
  g_Y : jsstring;
  g_Mo : jsstring;
  g_D : jsstring;
  g_h : option jsstring;
  g_mi : option jsstring;
  g_se : option jsstring;
  g_ms : option jsstring;
  g_tz : option jsstring
}.

Definition expect (c : char16) (s : jsstring) : option jsstring :=
  match s with
  | c' :: s' => if N.eqb c' c then Some s' else None
  | [] => None
  end.

(** [(?::(\d{2})(?:\.(\d{1,3}))?)?]: seconds, then milliseconds. *)
Definition matchSeconds (s : jsstring)
  : option jsstring * option jsstring * jsstring :=
  match expect COLON s with
  | Some s1 =>
      match digitsN 2 s1 with
      | Some (se, s2) =>
          match expect DOT s2 with
          | Some s3 =>
              match digitsUpTo 3 s3 with
              | ((_ :: _) as ms, s4) => (Some se, Some ms, s4)
              | _ => (Some se, None, s2)
              end
          | None => (Some se, None, s2)
          end
      | None => (None, None, s)
      end
  | None => (None, None, s)
  end.

(** [(Z|[+-]\d{2}:\d{2})?$]. *)
Definition matchZone (s : jsstring) : option (option jsstring) :=
  match s with
  | [] => Some None
  | c :: s1 =>
      if N.eqb c 90 then
        match s1 with [] => Some (Some [c]) | _ => None end
      else if isSign c then
        match digitsN 2 s1 with
        | Some (zh, s2) =>
            match expect COLON s2 with
            | Some s3 =>
                match digitsN 2 s3 with
                | Some (zm, []) => Some (Some (c :: zh ++ COLON :: zm))
                | _ => None
                end
            | None => None
            end
        | None => None
        end
      else None
  end.

(** [ISO_RE =
    /^(\d{4})-(\d{2})-(\d{2})(?:[T\s](\d{2}):(\d{2})(?::(\d{2})(?:\.(\d{1,3}))?)?(Z|[+-]\d{2}:\d{2})?)?$/]. *)
Definition ISO_RE_exec (s : jsstring) : option isoGroups :=
  match digitsN 4 s with
  | Some (Y, s1) =>
  match expect MINUS s1 with
  | Some s2 =>
  match digitsN 2 s2 with
  | Some (Mo, s3) =>
  match expect MINUS s3 with
  | Some s4 =>
  match digitsN 2 s4 with
  | Some (D, s5) =>
      match s5 with
      | [] => Some {| g_Y := Y; g_Mo := Mo; g_D := D; g_h := None; g_mi := None;
                      g_se := None; g_ms := None; g_tz := None |}
      | c :: s6 =>
          if N.eqb c 84 || isWhiteSpace c then
            match digitsN 2 s6 with
            | Some (h, s7) =>
            match expect COLON s7 with
            | Some s8 =>
            match digitsN 2 s8 with
            | Some (mi, s9) =>
                let '(se, ms, s10) := matchSeconds s9 in
                match matchZone s10 with
                | Some tz => Some {| g_Y := Y; g_Mo := Mo; g_D := D;
                                     g_h := Some h; g_mi := Some mi;
                                     g_se := se; g_ms := ms; g_tz := tz |}
                | None => None
                end
            | None => None end
            | None => None end
            | None => None end
          else None
      end
  | None => None end
  | None => None end
  | None => None end
  | None => None end
  | None => None end.

(** [x ? Number(x) : 0] for an optional group of digits. *)
Definition groupValue (g : option jsstring) : Z :=
  match g with
  | Some ds => digitsValue ds
  | None => 0
  end.

(** The signed offset, in minutes, of a designator [+HH:MM] or [-HH:MM]. *)
Definition offsetMin (tz : jsstring) : Z :=
  let sign := match tz with
              | c :: _ => if N.eqb c MINUS then -1 else 1
              | [] => 1
              end in
  match split COLON (tl tz) with
  | toH :: toM :: _ => sign * (digitsValue toH * 60 + digitsValue toM)
  | _ => 0
  end.

(** [parseIsoToDate]: the [Date] of an ISO string, as its time value, or
    [None] for [null]. *)
Definition parseIsoToDate (s : jsstring) : option Z :=
  match ISO_RE_exec s with
  | None => None
  | Some m =>
      let year := digitsValue (g_Y m) in
      let month := digitsValue (g_Mo m) - 1 in
      let day := digitsValue (g_D m) in
      let hh := groupValue (g_h m) in
      let mm := groupValue (g_mi m) in
      let ss := groupValue (g_se m) in
      let mss := match g_ms m with
                 | Some ms => digitsValue (padEnd0 3 ms)
                 | None => 0
                 end in
      let ts :=
        match g_h m, g_tz m with
        | None, None => DateUTC year month day 0 0 0 0
        | _, None => DateUTC year month day hh mm ss mss
        | _, Some tz =>
            if eqb tz [90%N] then DateUTC year month day hh mm ss mss
            else
              match DateUTC year month day hh mm ss mss with
              | Some t => Some (t - offsetMin tz * 60000)
              | None => None
              end
        end in
      match ts with
      | Some t => TimeClip t
      | None => None
      end
  end.

(** *** Step 5: the header *)

Definition isHeaderRow (columns : nat) (rows : list (list jsstring)) : bool :=
  let first := hd [] rows in
  if Nat.eqb columns 1 then negb (isFiniteNumberString (nth 0 first []))
  else
    let xLooksData :=
      isFiniteNumberString (nth 0 first [])
      || (match parseIsoToDate (nth 0 first []) with Some _ => true | None => false end) in
    let yLooksData := isFiniteNumberString (nth 1 first []) in
    negb (xLooksData && yLooksData).

(** [s || dflt]: the empty string is falsy. *)
Definition orDefault (s dflt : jsstring) : jsstring :=
  match s with
  | [] => dflt
  | _ => s
  end.

Definition defaultTimeAxisName (columns : nat) : jsstring :=
  if Nat.eqb columns 2 then js "X" else js "Index".

(** [timeAxisName], [valueAxisName] and [startIdx] after header detection. *)
Definition axisNames (columns : nat) (rows : list (list jsstring))
  : jsstring * jsstring * nat :=
  if isHeaderRow columns rows then
    let first := hd [] rows in
    if Nat.eqb columns 1
    then (js "Index", orDefault (nth 0 first []) (js "Value"), 1%nat)
    else (orDefault (nth 0 first []) (js "X"),
          orDefault (nth 1 first []) (js "Value"), 1%nat)
  else (defaultTimeAxisName columns, js "Value", 0%nat).

(** *** Step 6: the data region *)

Fixpoint checkWidths (columns : nat) (dataRows : list (list jsstring))
  : result unit :=
  match dataRows with
  | [] => Ok tt
  | r :: rs =>
      if negb (Nat.eqb (List.length r) columns) then Err InconsistentDataRowWidth
      else checkWidths columns rs
  end.

(** *** Step 7: the kind of the first column *)

Definition xAreDates (columns : nat) (dataRows : list (list jsstring)) : bool :=
  if Nat.eqb columns 2
  then forallb (fun r => match parseIsoToDate (nth 0 r []) with Some _ => true | None => false end)
         dataRows
  else false.

(** *** Step 8: the three coercion loops, [i] being the loop counter *)

Fixpoint coerceSingle (startIdx i : nat) (dataRows : list (list jsstring))
  : result (list (xvalue * number)) :=
  match dataRows with
  | [] => Ok []
  | r :: rs =>
      let yRaw := trim (nth 0 r []) in
      _ <- guard (negb (isFiniteNumberString yRaw))
             (InvalidY (startIdx + i + 1) yRaw) ;;
      let y := Number yRaw in
      _ <- guard (negb (isFinite y)) (NonFiniteY (startIdx + i + 1)) ;;
      pts <- coerceSingle startIdx (S i) rs ;;
      Ok ((XIndex i, y) :: pts)
  end.

Fixpoint coerceDated (startIdx i : nat) (dataRows : list (list jsstring))
  : result (list (xvalue * number)) :=
  match dataRows with
  | [] => Ok []
  | r :: rs =>
      let xRaw := trim (nth 0 r []) in
      let yRaw := trim (nth 1 r []) in
      match parseIsoToDate xRaw with
      | None => Err (InvalidIsoDate (startIdx + i + 1))
      | Some d =>
          _ <- guard (negb (isFiniteNumberString yRaw))
                 (InvalidY (startIdx + i + 1) yRaw) ;;
          let y := Number yRaw in
          _ <- guard (negb (isFinite y)) (NonFiniteY (startIdx + i + 1)) ;;
          pts <- coerceDated startIdx (S i) rs ;;
          Ok ((XDate d, y) :: pts)
      end
  end.

Fixpoint coerceNumeric (startIdx i : nat) (dataRows : list (list jsstring))
  : result (list (xvalue * number)) :=
  match dataRows with
  | [] => Ok []
  | r :: rs =>
      let xRaw := trim (nth 0 r []) in
      let yRaw := trim (nth 1 r []) in
      _ <- guard (negb (isFiniteNumberString xRaw))
             (InvalidX (startIdx + i + 1) xRaw) ;;
      _ <- guard (negb (isFiniteNumberString yRaw))
             (InvalidY (startIdx + i + 1) yRaw) ;;
      let x := Number xRaw in
      let y := Number yRaw in
      _ <- guard (negb (isFinite x) || negb (isFinite y))
             (NonFiniteNumber (startIdx + i + 1)) ;;
      pts <- coerceNumeric startIdx (S i) rs ;;
      Ok ((XNum x, y) :: pts)
  end.

Definition coerce (columns startIdx : nat) (dataRows : list (list jsstring))
  : result (list (xvalue * number)) :=
  if Nat.eqb columns 1 then coerceSingle startIdx 0 dataRows
  else if xAreDates columns dataRows then coerceDated startIdx 0 dataRows
  else coerceNumeric startIdx 0 dataRows.

(** *** The pipeline *)

(** Everything up to the data region: the column count, the two axis
    names, [startIdx] and [dataRows]. *)
Record region := {
  columns : nat;
  timeName : jsstring;
  valueName : jsstring;
  startIdx : nat;
  allRows : list (list jsstring);
  dataRows : list (list jsstring)
}.

Definition dataRegion (text : jsstring) : result region :=
  let lines := normalize text in
  _ <- guard (Nat.eqb (List.length lines) 0) NoDataLines ;;
  d <- detectDelimiter lines ;;
  let rows := tokenize d lines in
  cols <- checkColumns d rows ;;
  let '(tname, vname, start) := axisNames cols rows in
  let data := skipn start rows in
  _ <- guard (Nat.eqb (List.length data) 0) NoDataRows ;;
  _ <- checkWidths cols data ;;
  Ok {| columns := cols; timeName := tname; valueName := vname;
        startIdx := start; allRows := rows; dataRows := data |}.

(** [parseDataText].  Its first statement, the [typeof text !== "string"]
    test, is void here: [text] is a string by its type. *)
Definition parseDataText (text : jsstring) : result SequenceData :=
  g <- dataRegion text ;;
  pts <- coerce (columns g) (startIdx g) (dataRows g) ;;
  Ok {| timeAxisName := timeName g; valueAxisName := valueName g;
        dataPoints := pts |}.

(** ** The vocabulary of the statements *)

Definition plainChar (c : char16) : Prop := isWhiteSpace c = false.

Definition numChar (c : char16) : Prop :=
  isDigit c = true \/ isSign c = true \/ c = DOT \/ isExpMark c = true.

Definition hasComma (l : jsstring) : bool := includes l COMMA.
Definition hasTab (l : jsstring) : bool := includes l TAB.
Definition hasBoth (l : jsstring) : bool := hasComma l && hasTab l.

(** The errors of the coercion loops. *)
Definition rowError (e : parseError) : Prop :=
  match e with
  | InvalidIsoDate _ | InvalidX _ _ | InvalidY _ _ | NonFiniteY _
  | NonFiniteNumber _ => True
  | _ => False
  end.

Definition allDigits (ds : jsstring) : Prop := Forall (fun c => isDigit c = true) ds.

Definition digitGroup (n : nat) (ds : jsstring) : Prop :=
  allDigits ds /\ List.length ds = n.

Definition optionalGroup (n : nat) (g : option jsstring) : Prop :=
  forall ds, g = Some ds -> digitGroup n ds.

Definition millisGroup (g : option jsstring) : Prop :=
  forall ds, g = Some ds -> allDigits ds /\ (1 <= List.length ds <= 3)%nat.

Definition zoneGroup (g : option jsstring) : Prop :=
  forall tz, g = Some tz ->
    tz = [90%N]
    \/ exists c zh zm, tz = c :: zh ++ COLON :: zm /\ isSign c = true
                       /\ digitGroup 2 zh /\ digitGroup 2 zm.

Definition wellFormedGroups (m : isoGroups) : Prop :=
  digitGroup 4 (g_Y m) /\ digitGroup 2 (g_Mo m) /\ digitGroup 2 (g_D m)
  /\ optionalGroup 2 (g_h m) /\ optionalGroup 2 (g_mi m)
  /\ optionalGroup 2 (g_se m) /\ millisGroup (g_ms m) /\ zoneGroup (g_tz m).

(** ** The calendar, said plainly

    The instant a civil date and time of day names in the proleptic
    Gregorian calendar at UTC, by counting days: what the specification
    means by "midnight UTC of that date".  It is the yardstick for
    [parseIsoToDate], and is written without reference to [Date.UTC]. *)

Definition isLeapYear (y : Z) : bool :=
  (y mod 4 =? 0) && negb (y mod 100 =? 0) || (y mod 400 =? 0).

Definition yearLength (y : Z) : Z := if isLeapYear y then 366 else 365.

Definition monthLength (y : Z) (m : nat) : Z :=
  match m with
  | 2%nat => if isLeapYear y then 29 else 28
  | 4%nat | 6%nat | 9%nat | 11%nat => 30
  | _ => 31
  end.

(** Days in the years [0 .. y-1]. *)
Fixpoint daysBeforeYear (y : nat) : Z :=
  match y with
  | O => 0
  | S k => daysBeforeYear k + yearLength (Z.of_nat k)
  end.

(** Days in the months [1 .. m-1] of year [y]. *)
Fixpoint daysBeforeMonth (y : Z) (m : nat) : Z :=
  match m with
  | O => 0
  | S O => 0
  | S k => daysBeforeMonth y k + monthLength y k
  end.

(** Is day [d] of month [m] of year [y] a date of the calendar? *)
Definition validDate (y m d : nat) : bool :=
  (1 <=? m)%nat && (m <=? 12)%nat
  && (1 <=? Z.of_nat d) && (Z.of_nat d <=? monthLength (Z.of_nat y) m).

(** Milliseconds from 1970-01-01T00:00:00Z to the given civil time. *)
Definition utcInstant (y m d h mi s ms : nat) : Z :=
  (daysBeforeYear y - daysBeforeYear 1970
   + daysBeforeMonth (Z.of_nat y) m + (Z.of_nat d - 1)) * 86400000
  + Z.of_nat h * 3600000 + Z.of_nat mi * 60000 + Z.of_nat s * 1000
  + Z.of_nat ms.

(** The minutes to subtract for the zone group: none without a designator
    or with [Z]. *)
Definition zoneMinutes (m : isoGroups) : Z :=
  match g_tz m with
  | Some tz => if eqb tz [90%N] then 0 else offsetMin tz
  | None => 0
  end.

Definition millisValue (m : isoGroups) : Z :=
  match g_ms m with
  | Some ms => digitsValue (padEnd0 3 ms)
  | None => 0
  end.

(** Field [k] of a row as the loops read it: trimmed. *)
Definition field (k : nat) (r : list jsstring) : jsstring := trim (nth k r []).

Definition singlePoints (i : nat) (rows : list (list jsstring))
  : list (xvalue * number) :=
  combine (map XIndex (seq i (List.length rows)))
          (map (fun r => Number (field 0 r)) rows).

Definition numericPoints (rows : list (list jsstring)) : list (xvalue * number) :=
  map (fun r => (XNum (Number (field 0 r)), Number (field 1 r))) rows.

Definition datedPoint (r : list jsstring) (p : xvalue * number) : Prop :=
  exists d, parseIsoToDate (field 0 r) = Some d
            /\ p = (XDate d, Number (field 1 r)).

Definition allIndices (pts : list (xvalue * number)) : Prop :=
  map fst pts = map XIndex (seq 0 (List.length pts)).

Definition allNumbers (pts : list (xvalue * number)) : Prop :=
  Forall (fun p => exists n, fst p = XNum n /\ isFinite n = true) pts.

Definition allInstants (pts : list (xvalue * number)) : Prop :=
  Forall (fun p => exists t, fst p = XDate t) pts.

(** A point without NaN and without infinity.  An index is a natural
    number and a date holds a time value: both are finite as they stand. *)
Definition finitePoint (p : xvalue * number) : Prop :=
  match fst p with
  | XNum n => isFinite n = true
  | XIndex _ | XDate _ => True
  end /\ isFinite (snd p) = true.

Definition ISO_RE_test (s : jsstring) : bool :=
  match ISO_RE_exec s with Some _ => true | None => false end.

(** A field of the data region that the loops read as a number: the only
    column, the second of two, and the first of two when it is not dated. *)
Definition numericField (g : region) (k : nat) : Prop :=
  (columns g = 1%nat /\ k = 0%nat)
  \/ (columns g = 2%nat /\ k = 1%nat)
  \/ (columns g = 2%nat /\ xAreDates 2 (dataRows g) = false /\ k = 0%nat).

Definition uniformKind (pts : list (xvalue * number)) : Prop :=
  allIndices pts \/ allNumbers pts \/ allInstants pts.

(** ** Further vocabulary: lines, delimiters and rows *)

(** How many times [c] occurs in [s]. *)
Definition countChar (c : char16) (s : jsstring) : nat :=
  List.length (filter (N.eqb c) s).

(** The number of delimiters in a line: one less than its token count. *)
Definition delimiterCount (d : option delimiter) (l : jsstring) : nat :=
  match d with
  | Some c => countChar (delimiterChar c) l
  | None => 0
  end.

(** The errors of the column-shape step. *)
Definition columnError (e : parseError) : Prop :=
  e = InconsistentColumnCounts \/ e = UnsupportedColumnCount
  \/ e = DelimiterColumnMismatch.

(** What is left of [parseDataText] once the lines, the delimiter and the
    column count are known. *)
Definition parseRows (cols : nat) (rows : list (list jsstring))
  : result SequenceData :=
  let '(tname, vname, start) := axisNames cols rows in
  if Nat.eqb (List.length (skipn start rows)) 0 then Err NoDataRows
  else
    pts <- coerce cols start (skipn start rows) ;;
    Ok {| timeAxisName := tname; valueAxisName := vname; dataPoints := pts |}.

(** Does a row pass the test of its loop?  [dated] is the decision of
    [xAreDates]. *)
Definition rowOk (cols : nat) (dated : bool) (r : list jsstring) : bool :=
  if Nat.eqb cols 1 then isFiniteNumberString (field 0 r)
  else if dated
       then match parseIsoToDate (field 0 r) with Some _ => true | None => false end
            && isFiniteNumberString (field 1 r)
       else isFiniteNumberString (field 0 r) && isFiniteNumberString (field 1 r).

(** The error a failing row raises when it is row number [n]. *)
Definition rowFault (cols : nat) (dated : bool) (n : nat) (r : list jsstring)
  : parseError :=
  if Nat.eqb cols 1 then InvalidY n (field 0 r)
  else if dated
       then match parseIsoToDate (field 0 r) with
            | Some _ => InvalidY n (field 1 r)
            | None => InvalidIsoDate n
            end
       else if isFiniteNumberString (field 0 r) then InvalidY n (field 1 r)
            else InvalidX n (field 0 r).

(** A string whose last code unit is not white space. *)
Definition lastPlain (s : jsstring) : Prop :=
  exists s' c, s = s' ++ [c] /\ plainChar c.

(** The errors a parse can end in: every [throw] of the source but the
    four defensive ones. *)
Definition raisable (e : parseError) : bool :=
  match e with
  | NoDataLines | MixedDelimitersInLine | MixedDelimitersAcrossLines
  | InconsistentColumnCounts | UnsupportedColumnCount | NoDataRows
  | InvalidX _ _ | InvalidY _ _ => true
  | DelimiterColumnMismatch | InconsistentDataRowWidth | InvalidIsoDate _
  | NonFiniteY _ | NonFiniteNumber _ => false
  end.

(** What a data row becomes: its last field is the y, and with two columns
    its first field is the x, as a number or as a date. *)
Definition pointOfRow (cols : nat) (row : list jsstring) (p : xvalue * number)
  : Prop :=
  snd p = Number (field (cols - 1) row)
  /\ isFiniteNumberString (field (cols - 1) row) = true
  /\ (cols = 2%nat ->
      (fst p = XNum (Number (field 0 row))
       /\ isFiniteNumberString (field 0 row) = true)
      \/ exists t, parseIsoToDate (field 0 row) = Some t /\ fst p = XDate t).

(** ** Further vocabulary: texts *)

Definition whiteSpaceOnly (s : jsstring) : Prop :=
  Forall (fun c => isWhiteSpace c = true) s.

Definition noCR (s : jsstring) : Prop := Forall (fun c => c <> CR) s.

(** A text with Unix line ends, rewritten with Windows line ends. *)
Fixpoint lfToCrlf (s : jsstring) : jsstring :=
  match s with
  | [] => []
  | c :: s' => if N.eqb c LF then CR :: LF :: lfToCrlf s' else c :: lfToCrlf s'
  end.

(** The same with the line ends of the classic Mac OS. *)
Definition lfToCr (s : jsstring) : jsstring :=
  map (fun c => if N.eqb c LF then CR else c) s.

(** ** Further vocabulary: rows written out *)

(** The line of a two-column row: first field, delimiter, second field. *)
Definition joinRow (d : delimiter) (ab : jsstring * jsstring) : jsstring :=
  fst ab ++ delimiterChar d :: snd ab.

(** The time value of the date an ISO string gives (0 if it gives none). *)
Definition instantOf (s : jsstring) : Z :=
  match parseIsoToDate s with
  | Some t => t
  | None => 0
  end.

(** The code units [ISO_RE] lets through. *)
Definition isoChar (c : char16) : Prop :=
  isDigit c = true \/ isWhiteSpace c = true
  \/ c = MINUS \/ c = COLON \/ c = DOT \/ c = PLUS \/ c = 84%N \/ c = 90%N.

(** Two fields that hold neither a comma nor a tab. *)
Definition cleanFields (ab : jsstring * jsstring) : Prop :=
  (includes (fst ab) COMMA = false /\ includes (fst ab) TAB = false)
  /\ (includes (snd ab) COMMA = false /\ includes (snd ab) TAB = false).

(** ** The chart ([components/YourChart.tsx])

    The type of the x axis, which the component reads off the first point:
    [data.dataPoints[0]?.[0] instanceof Date ? 'date' : 'linear']. *)

Inductive axisType := DateAxis | LinearAxis.

Definition xaxisType (data : SequenceData) : axisType :=
  match dataPoints data with
  | (XDate _, _) :: _ => DateAxis
  | _ => LinearAxis
  end.

(** The two arrays of the trace. *)
Definition traceX (data : SequenceData) : list xvalue := map fst (dataPoints data).
Definition traceY (data : SequenceData) : list number := map snd (dataPoints data).

(** ** The list view ([App.tsx])

    The arithmetic that picks the rows to render, on JavaScript numbers.
    The scroll offset is [Element.scrollTop], a double that need not be
    whole (it is fractional on scaled displays), so the quotients by
    [rowHeight] are binary64 divisions, rounded, and [Math.floor],
    [Math.ceil], [Math.max], [Math.min] and [slice] work on doubles. *)

(** *** Numbers against integers *)

(** The floor and the ceiling of [m * 2 ^ e]. *)
Definition floorPow (m e : Z) : Z := if 0 <=? e then m * 2 ^ e else m / 2 ^ (- e).
Definition ceilPow (m e : Z) : Z := - floorPow (- m) e.

(** The signed significand and the exponent of a finite number: its value
    is [mantissa x * 2 ^ exponent x]; both are 0 for a zero. *)
Definition mantissa (x : number) : Z :=
  match x with
  | S754_finite s m _ => cond_Zopp s (Zpos m)
  | _ => 0
  end.

Definition exponent (x : number) : Z :=
  match x with
  | S754_finite _ _ e => e
  | _ => 0
  end.

(** The floor and the ceiling of a finite number.  For an integer [N],
    [x < N] is [numFloor x < N], and [N < x] is [N < numCeil x]. *)
Definition numFloor (x : number) : Z := floorPow (mantissa x) (exponent x).
Definition numCeil (x : number) : Z := ceilPow (mantissa x) (exponent x).

(** A number against an integer: [geN N x] says [N <= x] and [leN x N]
    says [x <= N]; a NaN is on no side of anything. *)
Definition geN (N : Z) (x : number) : Prop :=
  match x with
  | S754_zero _ => N <= 0
  | S754_finite s m e => N <= floorPow (cond_Zopp s (Zpos m)) e
  | S754_infinity s => s = false
  | S754_nan => False
  end.

Definition leN (x : number) (N : Z) : Prop :=
  match x with
  | S754_zero _ => 0 <= N
  | S754_finite s m e => ceilPow (cond_Zopp s (Zpos m)) e <= N
  | S754_infinity s => s = true
  | S754_nan => False
  end.

(** The integer a number is, when it is one. *)
Definition toZ (x : number) : option Z :=
  match x with
  | S754_zero _ => Some 0
  | S754_finite s m e =>
      let sm := cond_Zopp s (Zpos m) in
      if floorPow sm e =? ceilPow sm e then Some (floorPow sm e) else None
  | _ => None
  end.

(** *** [Math.floor], [Math.ceil], [Math.max], [Math.min] *)

(** [Math.floor(x)]: a number that has no fraction bits is its own floor;
    the floor of [-0.5] is [-1] and that of [0.5] is [+0]. *)
Definition MathFloor (x : number) : number :=
  match x with
  | S754_finite s m e =>
      if 0 <=? e then x
      else binary_normalize prec emax (floorPow (cond_Zopp s (Zpos m)) e) 0 s
  | _ => x
  end.

(** [Math.ceil(x)]: the ceiling of [-0.5] is [-0]. *)
Definition MathCeil (x : number) : number :=
  match x with
  | S754_finite s m e =>
      if 0 <=? e then x
      else binary_normalize prec emax (ceilPow (cond_Zopp s (Zpos m)) e) 0 s
  | _ => x
  end.

(** [a < b] on numbers, by their values: false when either is NaN, and
    the two zeros are equal. *)
Definition numLtb (a b : number) : bool :=
  match a, b with
  | S754_nan, _ | _, S754_nan => false
  | S754_infinity sa, S754_infinity sb => sa && negb sb
  | S754_infinity sa, _ => sa
  | _, S754_infinity sb => negb sb
  | _, _ =>
      let k := Z.min (exponent a) (exponent b) in
      mantissa a * 2 ^ (exponent a - k) <? mantissa b * 2 ^ (exponent b - k)
  end.

Definition isNaN (x : number) : bool :=
  match x with S754_nan => true | _ => false end.

(** [Math.max(a, b)]: NaN if either is; [+0] counts as larger than [-0]. *)
Definition MathMax (a b : number) : number :=
  if isNaN a || isNaN b then S754_nan
  else match a, b with
       | S754_zero true, S754_zero false => b
       | _, _ => if numLtb a b then b else a
       end.

(** [Math.min(a, b)]: NaN if either is; [-0] counts as smaller than [+0]. *)
Definition MathMin (a b : number) : number :=
  if isNaN a || isNaN b then S754_nan
  else match a, b with
       | S754_zero false, S754_zero true => b
       | _, _ => if numLtb b a then b else a
       end.

(** *** [Array.prototype.slice] *)

Inductive integerOrInfinity := NegInfinity | Integer (z : Z) | PosInfinity.

(** [ToIntegerOrInfinity] of ECMA-262: NaN and the zeros give 0, a finite
    number is truncated towards zero. *)
Definition ToIntegerOrInfinity (x : number) : integerOrInfinity :=
  match x with
  | S754_nan | S754_zero _ => Integer 0
  | S754_infinity false => PosInfinity
  | S754_infinity true => NegInfinity
  | S754_finite s m e => Integer (cond_Zopp s (floorPow (Zpos m) e))
  end.

(** A bound of [slice] as a position: a negative bound counts from the
    end of the array, a bound past the end is the end. *)
Definition relativeIndex (r : integerOrInfinity) (len : Z) : Z :=
  match r with
  | NegInfinity => 0
  | Integer z => if z <? 0 then Z.max (len + z) 0 else Z.min z len
  | PosInfinity => len
  end.

(** [l.slice(start, end)]. *)
Definition slice {A} (l : list A) (start end_ : number) : list A :=
  let len := Z.of_nat (List.length l) in
  let k := relativeIndex (ToIntegerOrInfinity start) len in
  let final := relativeIndex (ToIntegerOrInfinity end_) len in
  firstn (Z.to_nat (final - k)) (skipn (Z.to_nat k) l).

(** [l.map((a, idx) => f(a, idx))], [idx] counted from [i]. *)
Fixpoint mapWithIndex {A B} (f : A -> Z -> B) (l : list A) (i : Z) : list B :=
  match l with
  | [] => []
  | a :: l' => f a i :: mapWithIndex f l' (i + 1)
  end.

(** *** The component *)

Definition rowHeight : number := ofZ 30.

(** [totalRows * rowHeight]. *)
Definition totalHeight (totalRows : number) : number :=
  SFmul prec emax totalRows rowHeight.

(** [Math.max(0, Math.floor(scrollTop / rowHeight) - 5)]. *)
Definition startIndex (scrollTop : number) : number :=
  MathMax (ofZ 0)
    (SFsub prec emax (MathFloor (SFdiv prec emax scrollTop rowHeight)) (ofZ 5)).

(** [Math.min(totalRows,
              Math.ceil((scrollTop + viewportHeight) / rowHeight) + 5)]. *)
Definition endIndex (totalRows scrollTop viewportHeight : number) : number :=
  MathMin totalRows
    (SFadd prec emax
       (MathCeil (SFdiv prec emax (SFadd prec emax scrollTop viewportHeight) rowHeight))
       (ofZ 5)).

(** A rendered row: its React key, its offset from the top of the list,
    its height, and the point it shows. *)
Record renderedRow := {
  key : number;
  top : number;
  height : number;
  cell : xvalue * number
}.

(** [data.dataPoints.slice(startIndex, endIndex).map(([x, y], idx) => ...)],
    with [rowIndex = startIndex + idx] and [top: rowIndex * rowHeight]. *)
Definition visibleRows (data : SequenceData) (scrollTop viewportHeight : number)
  : list renderedRow :=
  let totalRows := ofZ (Z.of_nat (List.length (dataPoints data))) in
  let startIndex := startIndex scrollTop in
  let endIndex := endIndex totalRows scrollTop viewportHeight in
  mapWithIndex
    (fun p idx =>
       let rowIndex := SFadd prec emax startIndex (ofZ idx) in
       {| key := rowIndex; top := SFmul prec emax rowIndex rowHeight;
          height := rowHeight; cell := p |})
    (slice (dataPoints data) startIndex endIndex) 0.

(** *** Vocabulary of the rounding proofs *)

(** The locations at which round-to-nearest-even may add one unit in the
    last place. *)
Definition roundsUp (l : location) : bool :=
  match l with
  | loc_Inexact Eq | loc_Inexact Gt => true
  | _ => false
  end.

(** [y] is [x] shifted right by [k] bits: the significand is the quotient,
    and the round bit is set only if something was dropped. *)
Definition shifted (k : Z) (x y : shr_record) : Prop :=
  0 <= shr_m y /\ shr_m y = shr_m x / 2 ^ k
  /\ (shr_r y = true -> shr_m y * 2 ^ k < shr_m x).

(** Two offsets between two pixels, 40.5 and 299.5. *)
Definition scrollTop_40_5 : number := S754_finite false 5699868278390784 (-47).
Definition scrollTop_299_5 : number := S754_finite false 5268859720302592 (-44).

(** ** [Date.prototype.toISOString]

    What the list view shows for a date ([x.toISOString()]), after
    ECMA-262: the fields of a time value and their print as
    [YYYY-MM-DDTHH:mm:ss.sssZ], with a sign and six digits for a year
    outside 0 to 9999. *)

Definition Day (t : Z) : Z := t / msPerDay.

Definition TimeWithinDay (t : Z) : Z := t mod msPerDay.

(** The first year from [y] on whose successor starts after [day]. *)
Fixpoint yearSearch (fuel : nat) (y day : Z) : Z :=
  match fuel with
  | O => y
  | S fuel' =>
      if day <? DayFromYear (y + 1) then y else yearSearch fuel' (y + 1) day
  end.

(** The largest [y] with [DayFromYear y <= Day t], found by counting up
    from a year that cannot be after it, a year having 365 or 366 days; a
    thousand steps are enough over the whole range of time values. *)
Definition YearFromTime (t : Z) : Z :=
  yearSearch 1000 (1970 + Z.min (Day t / 365) (Day t / 366)) (Day t).

Definition DayWithinYear (t : Z) : Z := Day t - DayFromYear (YearFromTime t).

Definition MonthFromTime (t : Z) : Z :=
  let d := DayWithinYear t in
  let l := InLeapYear (YearFromTime t) in
  if d <? 31 then 0
  else if d <? 59 + l then 1
  else if d <? 90 + l then 2
  else if d <? 120 + l then 3
  else if d <? 151 + l then 4
  else if d <? 181 + l then 5
  else if d <? 212 + l then 6
  else if d <? 243 + l then 7
  else if d <? 273 + l then 8
  else if d <? 304 + l then 9
  else if d <? 334 + l then 10
  else 11.

Definition DateFromTime (t : Z) : Z :=
  DayWithinYear t - monthStart (YearFromTime t) (MonthFromTime t) + 1.

Definition HourFromTime (t : Z) : Z := (t / 3600000) mod 24.
Definition MinFromTime (t : Z) : Z := (t / 60000) mod 60.
Definition SecFromTime (t : Z) : Z := (t / 1000) mod 60.
Definition msFromTime (t : Z) : Z := t mod 1000.

(** The last [w] decimal digits of [n], the most significant first. *)
Fixpoint digitsOf (w : nat) (n : Z) : jsstring :=
  match w with
  | O => []
  | S w' => digitsOf w' (n / 10) ++ [Z.to_N (48 + n mod 10)]
  end.

Definition toISOString (t : Z) : jsstring :=
  let y := YearFromTime t in
  let year :=
    if (0 <=? y) && (y <=? 9999) then digitsOf 4 y
    else (if y <? 0 then MINUS else PLUS) :: digitsOf 6 (Z.abs y) in
  year ++ MINUS :: digitsOf 2 (MonthFromTime t + 1)
       ++ MINUS :: digitsOf 2 (DateFromTime t)
       ++ 84%N :: digitsOf 2 (HourFromTime t)
       ++ COLON :: digitsOf 2 (MinFromTime t)
       ++ COLON :: digitsOf 2 (SecFromTime t)
       ++ DOT :: digitsOf 3 (msFromTime t) ++ [90%N].

(** * Properties *)

(** ** The model on known values

    The conversions and the parser evaluated on inputs whose results are
    known: values of [Number] at the edges of binary64, dates, and the
    examples of the specification. *)

Example Number_tenth :
  Number (js "0.1") = S754_finite false 7205759403792794 (-56).
Proof. vm_compute; reflexivity. Qed.

Example Number_largest :
  Number (js "1.7976931348623157e308") = S754_finite false 9007199254740991 971
  /\ Number (js "1.7976931348623158e308") = S754_finite false 9007199254740991 971
  /\ Number (js "1.7976931348623159e308") = S754_infinity false.
Proof. split; [|split]; vm_compute; reflexivity. Qed.

Example Number_smallest :
  Number (js "5e-324") = S754_finite false 1 (-1074)
  /\ Number (js "2e-324") = S754_zero false
  /\ Number (js "-0") = S754_zero true.
Proof. split; [|split]; vm_compute; reflexivity. Qed.

Example Number_ties_to_even :
  Number (js "9007199254740993") = ofZ 9007199254740992
  /\ Number (js "9007199254740995") = ofZ 9007199254740996.
Proof. split; vm_compute; reflexivity. Qed.

Example Number_forms :
  map isFiniteNumberString
    [js "1."; js ".5"; js "+1e3"; js "-2.5E-3"; js "."; js "1e"; js "+";
     js " 1"; js "1 "; js "0x10"; js "1,5"; []]
  = [true; true; true; true; false; false; false; false; false; false; false;
     false].
Proof. vm_compute; reflexivity. Qed.

Example DateUTC_epoch :
  DateUTC 1970 0 1 0 0 0 0 = Some 0
  /\ DateUTC 2000 1 29 12 0 0 0 = Some 951825600000
  /\ DateUTC 1969 11 31 23 59 59 999 = Some (-1).
Proof. split; [|split]; vm_compute; reflexivity. Qed.

Example ISO_forms :
  map ISO_RE_test
    [js "2024-01-01"; js "2024-01-01T10:00"; js "2024-01-01 10:00:00";
     js "2024-01-01T10:00:00.5Z"; js "2024-01-01T10:00:00.123-05:30";
     js "2024-1-01"; js "2024-01-01T"; js "2024-01-01T10:00:00.1234";
     js "2024-01-01Z"; js "2024-01-01T10:00+0200"; js "2024-01-01 "]
  = [true; true; true; true; true; false; false; false; false; false; false].
Proof. vm_compute; reflexivity. Qed.

Example two_numeric_columns :
  parseDataText (js "1,2" ++ [LF] ++ js "3,4" ++ [LF] ++ js "5,6")
  = Ok {| timeAxisName := js "X"; valueAxisName := js "Value";
          dataPoints := [(XNum (ofZ 1), ofZ 2); (XNum (ofZ 3), ofZ 4);
                         (XNum (ofZ 5), ofZ 6)] |}.
Proof. vm_compute; reflexivity. Qed.

Example three_columns :
  parseDataText (js "1,2,3") = Err UnsupportedColumnCount.
Proof. vm_compute; reflexivity. Qed.

Example comma_line_and_tab_line :
  parseDataText (js "1,2" ++ [LF] ++ js "3" ++ [TAB] ++ js "4")
  = Err MixedDelimitersAcrossLines.
Proof. vm_compute; reflexivity. Qed.

Example line_endings_and_blank_lines :
  normalize (js "a" ++ [CR; LF; CR] ++ js " b " ++ [LF; LF; TAB; LF] ++ js "c" ++ [CR])
  = [js "a"; js "b"; js "c"].
Proof. vm_compute; reflexivity. Qed.

Example header_only : parseDataText (js "Temp") = Err NoDataRows.
Proof. vm_compute; reflexivity. Qed.

Example bad_value_row_number :
  parseDataText (js "t,v" ++ [LF] ++ js "1,2" ++ [LF] ++ js "3, x ")
  = Err (InvalidY 3 (js "x")).
Proof. vm_compute; reflexivity. Qed.

(** ** The error monad *)

Lemma bind_Ok {A B} (r : result A) (k : A -> result B) (b : B) :
  bind r k = Ok b -> exists a, r = Ok a /\ k a = Ok b.
Proof.
  destruct r as [a|e]; simpl; intro H; [exists a; auto | discriminate].
Qed.

Lemma bind_Err {A B} (r : result A) (k : A -> result B) (e : parseError) :
  bind r k = Err e -> r = Err e \/ exists a, r = Ok a /\ k a = Err e.
Proof.
  destruct r as [a|e']; simpl; intro H; [right; exists a; split; [reflexivity | exact H] | left; inversion H; reflexivity].
Qed.

Lemma guard_Ok (b : bool) (e : parseError) (u : unit) :
  guard b e = Ok u -> b = false.
Proof. destruct b; simpl; [discriminate | reflexivity]. Qed.

Lemma guard_Err (b : bool) (e e' : parseError) :
  guard b e = Err e' -> b = true /\ e' = e.
Proof. destruct b; simpl; intro H; [inversion H; auto | discriminate]. Qed.

(** Peels the binds and guards of a hypothesis [H : _ = Ok _]. *)
Ltac ok_inv H :=
  repeat match type of H with
    | bind _ _ = Ok _ =>
        let a := fresh "a" in
        let Ha := fresh "Ha" in
        apply bind_Ok in H; destruct H as (a & Ha & H);
        try (apply guard_Ok in Ha)
    end.

(** ** Strings *)

Lemma trimStart_plain (s : jsstring) :
  match s with c :: _ => plainChar c | [] => True end -> trimStart s = s.
Proof.
  destruct s as [|c s]; simpl; [reflexivity|].
  unfold plainChar; intros ->; reflexivity.
Qed.

Lemma trim_plain (s : jsstring) : Forall plainChar s -> trim s = s.
Proof.
  intro H. unfold trim, trimEnd.
  rewrite (trimStart_plain s) by (destruct H; auto).
  rewrite (trimStart_plain (rev s)).
  - apply rev_involutive.
  - destruct (rev s) as [|c r] eqn:E; [exact I|].
    rewrite Forall_forall in H. apply H. apply in_rev. rewrite E. left; reflexivity.
Qed.

Lemma spanDigits_spec (s ds r : jsstring) :
  spanDigits s = (ds, r) ->
  s = ds ++ r /\ Forall (fun c => isDigit c = true) ds.
Proof.
  revert ds r; induction s as [|c s IH]; simpl; intros ds r H.
  - inversion H; subst; auto.
  - destruct (isDigit c) eqn:Ec.
    + destruct (spanDigits s) as [ds' r'] eqn:E. inversion H; subst.
      destruct (IH _ _ eq_refl) as [-> HF]. split; [reflexivity | constructor; auto].
    + inversion H; subst; auto.
Qed.

Lemma includes_false (s : jsstring) (c : char16) :
  Forall (fun x => x <> c) s -> includes s c = false.
Proof.
  unfold includes. induction 1 as [|x s Hx _ IH]; simpl; [reflexivity|].
  rewrite IH, orb_false_r. apply N.eqb_neq. congruence.
Qed.

(** ** The alphabet of [NUM_RE] *)

Ltac char_facts :=
  unfold numChar, plainChar, isWhiteSpace, isDigit, isSign, isExpMark,
    PLUS, MINUS, DOT, COMMA, TAB in *;
  repeat match goal with
    | H : _ \/ _ |- _ => destruct H
    | H : _ /\ _ |- _ => destruct H
    | H : (_ || _)%bool = true |- _ => apply orb_true_iff in H
    | H : (_ && _)%bool = true |- _ => apply andb_true_iff in H
    | H : N.eqb _ _ = true |- _ => apply N.eqb_eq in H
    | H : N.leb _ _ = true |- _ => apply N.leb_le in H
    end.

Lemma numChar_plain (c : char16) : numChar c -> plainChar c.
Proof.
  intro H. char_facts; subst;
    repeat (apply orb_false_iff; split);
    try (apply N.eqb_neq; lia);
    try reflexivity;
    apply andb_false_iff;
    solve [ left; apply N.leb_gt; lia | right; apply N.leb_gt; lia ].
Qed.

Lemma numChar_not_delimiter (c : char16) : numChar c -> c <> COMMA /\ c <> TAB.
Proof. intro H. char_facts; subst; split; unfold COMMA, TAB; lia. Qed.

Lemma digits_numChar (ds : jsstring) :
  Forall (fun c => isDigit c = true) ds -> Forall numChar ds.
Proof. apply Forall_impl. intros c H; left; exact H. Qed.

Lemma matchExponent_chars (s : jsstring) (e : Z) :
  matchExponent s = Some e -> Forall numChar s.
Proof.
  unfold matchExponent. destruct s as [|c s1]; [constructor|].
  destruct (isExpMark c) eqn:Ec; [|discriminate].
  intro H. constructor; [right; right; right; exact Ec|].
  destruct s1 as [|c' s'].
  - simpl in H. discriminate.
  - destruct (isSign c') eqn:Es.
    + destruct (spanDigits s') as [ds r] eqn:E.
      destruct ds; [discriminate|]. destruct r; [|discriminate].
      apply spanDigits_spec in E. destruct E as [-> HF].
      constructor; [right; left; exact Es|].
      rewrite app_nil_r. apply digits_numChar, HF.
    + destruct (spanDigits (c' :: s')) as [ds r] eqn:E.
      destruct ds; [discriminate|]. destruct r; [|discriminate].
      apply spanDigits_spec in E. destruct E as [E HF].
      rewrite E, app_nil_r. apply digits_numChar, HF.
Qed.

Lemma NUM_RE_chars (s : jsstring) (d : decimal) :
  NUM_RE_exec s = Some d -> Forall numChar s.
Proof.
  unfold NUM_RE_exec.
  assert (body : forall s1,
    match spanDigits s1 with
    | ((_ :: _) as ip, s2) =>
        let '(fp, s3) := match s2 with
                         | c :: s' => if N.eqb c DOT then spanDigits s' else ([], s2)
                         | [] => ([], s2)
                         end in
        match matchExponent s3 with
        | Some e => Some e
        | None => None
        end
    | ([], s2) =>
        match s2 with
        | c :: s' =>
            if N.eqb c DOT then
              match spanDigits s' with
              | ((_ :: _) as fp, s3) =>
                  match matchExponent s3 with
                  | Some e => Some e
                  | None => None
                  end
              | _ => None
              end
            else None
        | [] => None
        end
    end <> None -> Forall numChar s1).
  { intros s1. destruct (spanDigits s1) as [ip s2] eqn:E1.
    apply spanDigits_spec in E1. destruct E1 as [-> H1].
    destruct ip as [|i ip].
    - simpl. destruct s2 as [|c s']; [congruence|].
      destruct (N.eqb c DOT) eqn:Ec; [|congruence].
      apply N.eqb_eq in Ec. subst c.
      destruct (spanDigits s') as [fp s3] eqn:E2.
      apply spanDigits_spec in E2. destruct E2 as [-> H2].
      destruct fp; [congruence|].
      destruct (matchExponent s3) eqn:E3; [|congruence]. intros _.
      constructor; [right; right; left; reflexivity|].
      apply Forall_app; split; [apply digits_numChar, H2 | eapply matchExponent_chars; eauto].
    - destruct s2 as [|c s'].
      + intros _. rewrite app_nil_r. apply digits_numChar, H1.
      + destruct (N.eqb c DOT) eqn:Ec.
        * apply N.eqb_eq in Ec. subst c.
          destruct (spanDigits s') as [fp s3] eqn:E2.
          apply spanDigits_spec in E2. destruct E2 as [-> H2].
          destruct (matchExponent s3) eqn:E3; [|congruence]. intros _.
          apply Forall_app; split; [apply digits_numChar, H1|].
          constructor; [right; right; left; reflexivity|].
          apply Forall_app; split; [apply digits_numChar, H2 | eapply matchExponent_chars; eauto].
        * destruct (matchExponent (c :: s')) eqn:E3; [|congruence]. intros _.
          apply Forall_app; split; [apply digits_numChar, H1 | eapply matchExponent_chars; eauto]. }
  destruct s as [|c s'].
  - intro H. constructor.
  - destruct (isSign c) eqn:Es.
    + intro H. constructor; [right; left; exact Es|].
      apply body. revert H. destruct (spanDigits s') as [[|i ip] s2].
      * destruct s2 as [|c2 s2]; [congruence|]. destruct (N.eqb c2 DOT); [|congruence].
        destruct (spanDigits s2) as [[|f fp] s3]; [congruence|].
        destruct (matchExponent s3); congruence.
      * destruct (match s2 with
                  | [] => ([], s2)
                  | c0 :: s'0 => if N.eqb c0 DOT then spanDigits s'0 else ([], s2)
                  end) as [fp s3].
        destruct (matchExponent s3); congruence.
    + intro H. apply body. revert H. destruct (spanDigits (c :: s')) as [[|i ip] s2].
      * destruct s2 as [|c2 s2]; [congruence|]. destruct (N.eqb c2 DOT); [|congruence].
        destruct (spanDigits s2) as [[|f fp] s3]; [congruence|].
        destruct (matchExponent s3); congruence.
      * destruct (match s2 with
                  | [] => ([], s2)
                  | c0 :: s'0 => if N.eqb c0 DOT then spanDigits s'0 else ([], s2)
                  end) as [fp s3].
        destruct (matchExponent s3); congruence.
Qed.

Lemma isFiniteNumberString_chars (s : jsstring) :
  isFiniteNumberString s = true -> Forall numChar s.
Proof.
  unfold isFiniteNumberString. destruct (NUM_RE_exec s) eqn:E; [|discriminate].
  intros _. eapply NUM_RE_chars; eauto.
Qed.

(** A finite-number string has nothing for [trim] to strip. *)
Lemma isFiniteNumberString_trim (s : jsstring) :
  isFiniteNumberString s = true -> trim s = s.
Proof.
  intro H. apply trim_plain.
  eapply Forall_impl; [apply numChar_plain | apply isFiniteNumberString_chars, H].
Qed.

Lemma isFiniteNumberString_isFinite (s : jsstring) :
  isFiniteNumberString s = true -> isFinite (Number s) = true.
Proof.
  unfold isFiniteNumberString. destruct (NUM_RE_exec s); [auto | discriminate].
Qed.

(** ** Delimiter detection *)

Lemma countDelimiters_spec (lines : list jsstring) (c t : nat) :
  countDelimiters lines c t =
  if existsb hasBoth lines then Err MixedDelimitersInLine
  else Ok ((c + List.length (filter hasComma lines))%nat,
           (t + List.length (filter hasTab lines))%nat).
Proof.
  revert c t; induction lines as [|l ls IH]; intros c t; simpl.
  - rewrite !Nat.add_0_r; reflexivity.
  - change (includes l COMMA) with (hasComma l).
    change (includes l TAB) with (hasTab l).
    unfold hasBoth at 1.
    destruct (hasComma l), (hasTab l); simpl; try reflexivity;
      rewrite IH; destruct (existsb hasBoth ls); try reflexivity;
      f_equal; f_equal; lia.
Qed.

Lemma filter_nonempty {A} (p : A -> bool) (l : list A) :
  (0 <? List.length (filter p l))%nat = existsb p l.
Proof.
  induction l as [|a l IH]; simpl; [reflexivity|].
  destruct (p a); simpl; [reflexivity | exact IH].
Qed.

(** The delimiter step, as one decision on three facts about the lines. *)
Lemma detectDelimiter_spec (lines : list jsstring) :
  detectDelimiter lines =
  if existsb hasBoth lines then Err MixedDelimitersInLine
  else if existsb hasComma lines && existsb hasTab lines
       then Err MixedDelimitersAcrossLines
       else Ok (if existsb hasComma lines then Some Comma
                else if existsb hasTab lines then Some Tab
                else None).
Proof.
  unfold detectDelimiter. rewrite countDelimiters_spec.
  destruct (existsb hasBoth lines); simpl; [reflexivity|].
  rewrite !filter_nonempty. reflexivity.
Qed.

(** ** Column counts *)

Lemma nodup_short (l : list nat) :
  (List.length (nodup Nat.eq_dec l) <= 1)%nat ->
  forall x y, In x l -> In y l -> x = y.
Proof.
  induction l as [|a l IH]; simpl; [intros _ x y []|].
  destruct (in_dec Nat.eq_dec a l) as [Hin|Hout]; intros Hlen x y Hx Hy.
  - assert (Ha : forall z, a = z \/ In z l -> In z l) by (intros z [<-|Hz]; auto).
    apply IH; auto.
  - simpl in Hlen.
    assert (E : nodup Nat.eq_dec l = []) by (destruct (nodup Nat.eq_dec l); [reflexivity | simpl in Hlen; lia]).
    assert (El : l = []).
    { destruct l as [|b l']; [reflexivity|].
      assert (Hb : In b (nodup Nat.eq_dec (b :: l'))) by (apply nodup_In; left; reflexivity).
      rewrite E in Hb. destruct Hb. }
    subst l. destruct Hx as [<-|[]], Hy as [<-|[]]. reflexivity.
Qed.

Lemma checkColumns_Ok (d : option delimiter) (rows : list (list jsstring)) (cols : nat) :
  checkColumns d rows = Ok cols ->
  rows <> [] ->
  Forall (fun r => List.length r = cols) rows
  /\ (cols = 1%nat \/ cols = 2%nat)
  /\ (d <> None -> cols = 2%nat).
Proof.
  unfold checkColumns. intros H Hne. ok_inv H. inversion H; subst cols; clear H.
  apply Nat.ltb_ge in Ha.
  split; [|split].
  - apply Forall_forall. intros r Hr.
    apply (nodup_short _ Ha); apply in_map; [exact Hr|].
    destruct rows; [congruence | left; reflexivity].
  - destruct (Nat.eqb_spec (List.length (hd [] rows)) 1); [left; auto|].
    destruct (Nat.eqb_spec (List.length (hd [] rows)) 2); [right; auto|].
    discriminate.
  - destruct d as [c|].
    + apply negb_false_iff, Nat.eqb_eq in Ha1. auto.
    + congruence.
Qed.

Lemma checkColumns_Err (d : option delimiter) (rows : list (list jsstring)) (e : parseError) :
  checkColumns d rows = Err e ->
  e = InconsistentColumnCounts \/ e = UnsupportedColumnCount
  \/ e = DelimiterColumnMismatch.
Proof.
  unfold checkColumns. intro H.
  repeat match type of H with
    | bind _ _ = Err _ =>
        apply bind_Err in H; destruct H as [H|(? & _ & H)];
        [apply guard_Err in H; destruct H as [_ ->]; auto|]
    end.
  discriminate.
Qed.

Lemma checkWidths_Forall (cols : nat) (rows : list (list jsstring)) :
  Forall (fun r => List.length r = cols) rows -> checkWidths cols rows = Ok tt.
Proof.
  induction 1 as [|r rs Hr _ IH]; simpl; [reflexivity|].
  rewrite Hr, Nat.eqb_refl. exact IH.
Qed.

Lemma Forall_skipn {A} (P : A -> Prop) (n : nat) (l : list A) :
  Forall P l -> Forall P (skipn n l).
Proof.
  intro H. apply Forall_forall. intros x Hx.
  rewrite Forall_forall in H. apply H.
  rewrite <- (firstn_skipn n l). apply in_or_app; right; exact Hx.
Qed.

Lemma length_zero_nil {A} (l : list A) : Nat.eqb (List.length l) 0 = false <-> l <> [].
Proof. destruct l; simpl; split; congruence. Qed.

(** ** The stages of [dataRegion] *)

Lemma dataRegion_Ok (text : jsstring) (g : region) :
  dataRegion text = Ok g ->
  exists d,
    normalize text <> []
    /\ detectDelimiter (normalize text) = Ok d
    /\ allRows g = tokenize d (normalize text)
    /\ checkColumns d (allRows g) = Ok (columns g)
    /\ axisNames (columns g) (allRows g) = (timeName g, valueName g, startIdx g)
    /\ dataRows g = skipn (startIdx g) (allRows g)
    /\ dataRows g <> [].
Proof.
  unfold dataRegion. intro H. ok_inv H.
  destruct (axisNames a1 (tokenize a0 (normalize text))) as [[tn vn] st] eqn:Eax.
  ok_inv H. inversion H; subst g; simpl. exists a0.
  repeat split; auto; apply length_zero_nil; assumption.
Qed.

Lemma tokenize_nil (d : option delimiter) (lines : list jsstring) :
  lines <> [] -> tokenize d lines <> [].
Proof. destruct lines; simpl; congruence. Qed.

Lemma dataRegion_widths (text : jsstring) (g : region) :
  dataRegion text = Ok g ->
  Forall (fun r => List.length r = columns g) (allRows g)
  /\ Forall (fun r => List.length r = columns g) (dataRows g)
  /\ (columns g = 1%nat \/ columns g = 2%nat).
Proof.
  intro H. apply dataRegion_Ok in H.
  destruct H as (d & Hne & Hd & Hrows & Hc & Hax & Hdata & Hdne).
  apply checkColumns_Ok in Hc; [|rewrite Hrows; apply tokenize_nil, Hne].
  destruct Hc as (HF & Hcols & _). repeat split; auto.
  rewrite Hdata. apply Forall_skipn, HF.
Qed.

Ltac err_step H :=
  match type of H with
  | bind (guard _ _) _ = Err _ =>
      apply bind_Err in H; destruct H as [H|(? & _ & H)];
      [apply guard_Err in H; destruct H as [_ ->]; exact I|]
  | bind _ _ = Err _ =>
      apply bind_Err in H; destruct H as [H|(? & _ & H)]
  end.

Lemma coerceSingle_Err (s i : nat) (rows : list (list jsstring)) (e : parseError) :
  coerceSingle s i rows = Err e -> rowError e.
Proof.
  revert i; induction rows as [|r rs IH]; simpl; intros i H; [discriminate|].
  do 2 err_step H. err_step H; [eapply IH; eauto | discriminate].
Qed.

Lemma coerceDated_Err (s i : nat) (rows : list (list jsstring)) (e : parseError) :
  coerceDated s i rows = Err e -> rowError e.
Proof.
  revert i; induction rows as [|r rs IH]; simpl; intros i H; [discriminate|].
  destruct (parseIsoToDate (trim (nth 0 r []))); [|inversion H; exact I].
  do 2 err_step H. err_step H; [eapply IH; eauto | discriminate].
Qed.

Lemma coerceNumeric_Err (s i : nat) (rows : list (list jsstring)) (e : parseError) :
  coerceNumeric s i rows = Err e -> rowError e.
Proof.
  revert i; induction rows as [|r rs IH]; simpl; intros i H; [discriminate|].
  do 3 err_step H. err_step H; [eapply IH; eauto | discriminate].
Qed.

Lemma coerce_Err (cols s : nat) (rows : list (list jsstring)) (e : parseError) :
  coerce cols s rows = Err e -> rowError e.
Proof.
  unfold coerce. destruct (Nat.eqb cols 1); [apply coerceSingle_Err|].
  destruct (xAreDates cols rows); [apply coerceDated_Err | apply coerceNumeric_Err].
Qed.

(** Where an error of [dataRegion] comes from.  The width check inside the
    data region is absent from the list: it cannot fail. *)
Lemma dataRegion_Err (text : jsstring) (e : parseError) :
  dataRegion text = Err e ->
  (normalize text = [] /\ e = NoDataLines)
  \/ (normalize text <> [] /\ detectDelimiter (normalize text) = Err e)
  \/ (normalize text <> []
      /\ (e = InconsistentColumnCounts \/ e = UnsupportedColumnCount
          \/ e = DelimiterColumnMismatch \/ e = NoDataRows)).
Proof.
  unfold dataRegion. intro H.
  apply bind_Err in H. destruct H as [H|(u & Hu & H)].
  { apply guard_Err in H. destruct H as [H ->]. left.
    destruct (normalize text); [auto | discriminate]. }
  apply guard_Ok in Hu. apply length_zero_nil in Hu. right.
  apply bind_Err in H. destruct H as [H|(d & Hd & H)]; [left; auto|]. right.
  split; [exact Hu|].
  apply bind_Err in H. destruct H as [H|(cols & Hc & H)].
  { apply checkColumns_Err in H. tauto. }
  destruct (axisNames cols (tokenize d (normalize text))) as [[tn vn] st].
  apply bind_Err in H. destruct H as [H|(u1 & _ & H)].
  { apply guard_Err in H. destruct H as [_ ->]. tauto. }
  apply bind_Err in H. destruct H as [H|(u2 & _ & H)]; [|discriminate].
  apply checkColumns_Ok in Hc; [|apply tokenize_nil, Hu].
  destruct Hc as (HF & _).
  rewrite (checkWidths_Forall cols (skipn st _) (Forall_skipn _ st _ HF)) in H.
  discriminate.
Qed.

Lemma parseDataText_Err (text : jsstring) (e : parseError) :
  parseDataText text = Err e ->
  dataRegion text = Err e
  \/ exists g, dataRegion text = Ok g
               /\ coerce (columns g) (startIdx g) (dataRows g) = Err e.
Proof.
  unfold parseDataText. intro H.
  apply bind_Err in H. destruct H as [H|(g & Hg & H)]; [left; exact H|].
  right. exists g. split; [exact Hg|].
  apply bind_Err in H. destruct H as [H|(p & _ & H)]; [exact H | discriminate].
Qed.

Lemma parseDataText_Ok (text : jsstring) (r : SequenceData) :
  parseDataText text = Ok r ->
  exists g, dataRegion text = Ok g
            /\ coerce (columns g) (startIdx g) (dataRows g) = Ok (dataPoints r)
            /\ timeAxisName r = timeName g
            /\ valueAxisName r = valueName g.
Proof.
  unfold parseDataText. intro H. ok_inv H. inversion H; subst r; simpl.
  exists a. auto.
Qed.

Lemma detect_Err_parse (text : jsstring) (e : parseError) :
  normalize text <> [] ->
  detectDelimiter (normalize text) = Err e ->
  parseDataText text = Err e.
Proof.
  intros Hne H. unfold parseDataText, dataRegion.
  destruct (normalize text) as [|l ls]; [congruence|].
  simpl. rewrite H. reflexivity.
Qed.

Lemma parse_delimiter_error (text : jsstring) (e : parseError) :
  e = MixedDelimitersInLine \/ e = MixedDelimitersAcrossLines ->
  parseDataText text = Err e ->
  detectDelimiter (normalize text) = Err e.
Proof.
  intros He H. apply parseDataText_Err in H. destruct H as [H|(g & _ & H)].
  - apply dataRegion_Err in H.
    destruct H as [[_ ->]|[[_ H]|[_ H]]]; [destruct He; discriminate | exact H |].
    destruct He as [-> | ->]; destruct H as [H|[H|[H|H]]]; discriminate.
  - apply coerce_Err in H. destruct He as [-> | ->]; destruct H.
Qed.

(** C4: over the non-blank lines, the parse fails with the
    mixed-in-one-line error exactly when some line holds both a comma and a
    tab; it fails with the mixed-across-lines error exactly when no line
    holds both but some line holds a comma and some line holds a tab;
    in every other case the delimiter is the comma if a line has one, the
    tab if a line has one, and none if neither occurs. *)
Theorem delimiter_detection (text : jsstring) :
  let lines := normalize text in
  (parseDataText text = Err MixedDelimitersInLine
   <-> existsb hasBoth lines = true)
  /\ (parseDataText text = Err MixedDelimitersAcrossLines
      <-> existsb hasBoth lines = false
          /\ existsb hasComma lines = true /\ existsb hasTab lines = true)
  /\ (existsb hasBoth lines = false ->
      existsb hasComma lines && existsb hasTab lines = false ->
      detectDelimiter lines =
      Ok (if existsb hasComma lines then Some Comma
          else if existsb hasTab lines then Some Tab
          else None)).
Proof.
  intro lines. subst lines.
  pose proof (detectDelimiter_spec (normalize text)) as S.
  assert (Hne : existsb hasComma (normalize text) = true
                \/ existsb hasBoth (normalize text) = true ->
                normalize text <> []).
  { intros [H|H] E; rewrite E in H; discriminate. }
  split; [|split].
  - split; intro H.
    + apply parse_delimiter_error in H; [|auto]. rewrite S in H.
      destruct (existsb hasBoth (normalize text)); [reflexivity|].
      destruct (existsb hasComma (normalize text) && existsb hasTab (normalize text));
        discriminate.
    + apply detect_Err_parse; [auto|]. rewrite S, H. reflexivity.
  - split; intro H.
    + apply parse_delimiter_error in H; [|auto]. rewrite S in H.
      destruct (existsb hasBoth (normalize text)); [discriminate|].
      destruct (existsb hasComma (normalize text)), (existsb hasTab (normalize text));
        simpl in H; try discriminate; auto.
    + destruct H as (Hb & Hc & Ht).
      apply detect_Err_parse; [auto|]. rewrite S, Hb, Hc, Ht. reflexivity.
  - intros Hb Hct. rewrite S, Hb, Hct. reflexivity.
Qed.

Lemma delimiter_detection_witness :
  detectDelimiter (normalize (js "1,2" ++ [LF] ++ js "3,4")) = Ok (Some Comma).
Proof.
  apply (proj2 (proj2 (delimiter_detection (js "1,2" ++ [LF] ++ js "3,4"))));
    vm_compute; reflexivity.
Defined.

(** C9: the width check inside the data region cannot fail.  Rows that
    passed the column-count validation all have the detected count, so do
    those left after dropping leading rows, and no parse ends in the
    data-row width error. *)
Theorem data_row_width_check_unreachable (text : jsstring) :
  parseDataText text <> Err InconsistentDataRowWidth
  /\ forall d rows cols start,
       rows <> [] ->
       checkColumns d rows = Ok cols ->
       Forall (fun r => List.length r = cols) (skipn start rows)
       /\ checkWidths cols (skipn start rows) = Ok tt.
Proof.
  split.
  - intro H. apply parseDataText_Err in H. destruct H as [H|(g & _ & H)].
    + apply dataRegion_Err in H.
      destruct H as [[_ H]|[[_ H]|[_ H]]]; [discriminate | |].
      * rewrite detectDelimiter_spec in H.
        destruct (existsb hasBoth (normalize text)); [discriminate|].
        destruct (existsb hasComma (normalize text) && existsb hasTab (normalize text));
          discriminate.
      * destruct H as [H|[H|[H|H]]]; discriminate.
    + apply coerce_Err in H. destruct H.
  - intros d rows cols start Hne Hc.
    apply checkColumns_Ok in Hc; [|exact Hne]. destruct Hc as (HF & _).
    split; [apply Forall_skipn, HF | apply checkWidths_Forall, Forall_skipn, HF].
Qed.

Lemma data_row_width_check_unreachable_witness :
  Forall (fun r => List.length r = 2%nat)
    (skipn 1 [[js "Time"; js "Temp"]; [js "1"; js "2"]])
  /\ checkWidths 2 (skipn 1 [[js "Time"; js "Temp"]; [js "1"; js "2"]]) = Ok tt.
Proof.
  apply (proj2 (data_row_width_check_unreachable [])
           (Some Comma) [[js "Time"; js "Temp"]; [js "1"; js "2"]] 2%nat 1%nat).
  - discriminate.
  - reflexivity.
Defined.

(** ** Digit groups and their values *)

Lemma digitsN_spec (n : nat) (s ds r : jsstring) :
  digitsN n s = Some (ds, r) ->
  s = ds ++ r /\ List.length ds = n /\ allDigits ds.
Proof.
  revert s ds r; induction n as [|n IH]; simpl; intros s ds r H.
  - inversion H; subst. repeat split; constructor.
  - destruct s as [|c s]; [discriminate|].
    destruct (isDigit c) eqn:Ec; [|discriminate].
    destruct (digitsN n s) as [[ds' r']|] eqn:E; [|discriminate].
    inversion H; subst. destruct (IH _ _ _ E) as (-> & Hl & HF).
    repeat split; simpl; [congruence | constructor; auto].
Qed.

Lemma digitsUpTo_spec (n : nat) (s ds r : jsstring) :
  digitsUpTo n s = (ds, r) ->
  s = ds ++ r /\ (List.length ds <= n)%nat /\ allDigits ds.
Proof.
  revert s ds r; induction n as [|n IH]; simpl; intros s ds r H.
  - inversion H; subst. repeat split; [simpl; lia | constructor].
  - destruct s as [|c s]; [inversion H; subst; repeat split; [simpl; lia | constructor]|].
    destruct (isDigit c) eqn:Ec.
    + destruct (digitsUpTo n s) as [ds' r'] eqn:E. inversion H; subst.
      destruct (IH _ _ _ E) as (-> & Hl & HF).
      repeat split; simpl; [lia | constructor; auto].
    + inversion H; subst. repeat split; [simpl; lia | constructor].
Qed.

Lemma digit_range (c : char16) : isDigit c = true -> 0 <= Z.of_N c - 48 <= 9.
Proof.
  unfold isDigit. intro H. apply andb_true_iff in H. destruct H as [H1 H2].
  apply N.leb_le in H1, H2. lia.
Qed.

Lemma digits_fold_bound (ds : jsstring) (acc : Z) :
  allDigits ds -> 0 <= acc ->
  0 <= fold_left (fun a c => 10 * a + (Z.of_N c - 48)) ds acc
    < (acc + 1) * 10 ^ Z.of_nat (List.length ds).
Proof.
  intro H; revert acc; induction H as [|c ds Hc _ IH]; intros acc Hacc.
  - simpl. lia.
  - cbn [fold_left List.length]. apply digit_range in Hc.
    specialize (IH (10 * acc + (Z.of_N c - 48)) ltac:(lia)).
    rewrite Nat2Z.inj_succ, Z.pow_succ_r by lia.
    assert (0 < 10 ^ Z.of_nat (List.length ds)) by (apply Z.pow_pos_nonneg; lia).
    nia.
Qed.

Lemma digitsValue_bound (ds : jsstring) :
  allDigits ds -> 0 <= digitsValue ds < 10 ^ Z.of_nat (List.length ds).
Proof.
  intro H. pose proof (digits_fold_bound ds 0 H ltac:(lia)) as B.
  unfold digitsValue. lia.
Qed.

Lemma split_no_sep (sep : char16) (s : jsstring) :
  Forall (fun c => c <> sep) s -> split sep s = [s].
Proof.
  induction 1 as [|c s Hc _ IH]; simpl; [reflexivity|].
  apply N.eqb_neq in Hc. rewrite Hc, IH. reflexivity.
Qed.

Lemma split_app_sep (sep : char16) (a b : jsstring) :
  Forall (fun c => c <> sep) a -> split sep (a ++ sep :: b) = a :: split sep b.
Proof.
  induction 1 as [|c a Hc _ IH]; simpl.
  - rewrite N.eqb_refl. reflexivity.
  - apply N.eqb_neq in Hc. rewrite Hc, IH. reflexivity.
Qed.

Lemma digits_no_colon (ds : jsstring) :
  allDigits ds -> Forall (fun c => c <> COLON) ds.
Proof.
  apply Forall_impl. intros c H E. subst c. discriminate.
Qed.

(** ** The calendar arithmetic of [Date.UTC] *)

Lemma monthStart_bound (y mn : Z) : 0 <= monthStart y mn <= 335.
Proof.
  unfold monthStart, InLeapYear. destruct (DaysInYear y =? 366);
    destruct mn as [|p|p]; try lia;
    do 4 (try destruct p as [p|p|]); lia.
Qed.

Lemma DayFromYear_bound (y : Z) :
  0 <= y <= 10100 -> -720000 <= DayFromYear y <= 2970000.
Proof.
  unfold DayFromYear. intro H.
  pose proof (Z.div_mod (y - 1969) 4 ltac:(lia)).
  pose proof (Z.mod_pos_bound (y - 1969) 4 ltac:(lia)).
  pose proof (Z.div_mod (y - 1901) 100 ltac:(lia)).
  pose proof (Z.mod_pos_bound (y - 1901) 100 ltac:(lia)).
  pose proof (Z.div_mod (y - 1601) 400 ltac:(lia)).
  pose proof (Z.mod_pos_bound (y - 1601) 400 ltac:(lia)).
  lia.
Qed.

(** On the fields [ISO_RE] can capture, [Date.UTC] is far inside the range
    of time values. *)
Lemma DateUTC_in_range (year month day h mi s ms : Z) :
  0 <= year <= 9999 -> -1 <= month <= 98 -> 0 <= day <= 99 ->
  0 <= h <= 99 -> 0 <= mi <= 99 -> 0 <= s <= 99 -> 0 <= ms <= 999 ->
  exists t, DateUTC year month day h mi s ms = Some t
            /\ Z.abs t <= 300000000000000.
Proof.
  intros Hy Hm Hd Hh Hmi Hs Hms. unfold DateUTC.
  set (yr := if (0 <=? year) && (year <=? 99) then 1900 + year else year).
  assert (Hyr : 0 <= yr <= 9999).
  { subst yr. destruct ((0 <=? year) && (year <=? 99)) eqn:E; [|lia].
    apply andb_true_iff in E. destruct E as [E1 E2]. apply Z.leb_le in E2. lia. }
  assert (Hq : -1 <= month / 12 <= 8).
  { pose proof (Z.div_mod month 12 ltac:(lia)).
    pose proof (Z.mod_pos_bound month 12 ltac:(lia)). lia. }
  assert (B : Z.abs (MakeDate (MakeDay yr month day) (MakeTime h mi s ms))
              <= 300000000000000).
  { unfold MakeDate, MakeDay, MakeTime, msPerDay.
    pose proof (monthStart_bound (yr + month / 12) (month mod 12)).
    destruct (Z.eq_dec yr 0) as [E0|N0].
    - pose proof (DayFromYear_bound (yr + month / 12 + 1) ltac:(lia)) as B1.
      assert (DayFromYear (yr + month / 12) >= -730000).
      { destruct (Z.eq_dec (month / 12) (-1)) as [E|E].
        - rewrite E0, E. vm_compute. discriminate.
        - pose proof (DayFromYear_bound (yr + month / 12) ltac:(lia)). lia. }
      assert (DayFromYear (yr + month / 12) <= 2970000).
      { destruct (Z.eq_dec (month / 12) (-1)) as [E|E].
        - rewrite E0, E. vm_compute. discriminate.
        - pose proof (DayFromYear_bound (yr + month / 12) ltac:(lia)). lia. }
      lia.
    - pose proof (DayFromYear_bound (yr + month / 12) ltac:(lia)). lia. }
  unfold TimeClip.
  destruct (Z.leb_spec (Z.abs (MakeDate (MakeDay yr month day) (MakeTime h mi s ms)))
              8640000000000000) as [L|L]; [|lia].
  eexists; split; [reflexivity | exact B].
Qed.

(** ** What [ISO_RE] captures *)

Lemma digitsN_group (n : nat) (s ds r : jsstring) :
  digitsN n s = Some (ds, r) -> digitGroup n ds.
Proof. intro H. apply digitsN_spec in H. unfold digitGroup. tauto. Qed.

Lemma optionalGroup_None (n : nat) : optionalGroup n None.
Proof. intros ds H. discriminate. Qed.

Lemma optionalGroup_Some (n : nat) (ds : jsstring) :
  digitGroup n ds -> optionalGroup n (Some ds).
Proof. intros H ds' E. inversion E; subst; exact H. Qed.

Lemma matchSeconds_spec (s r : jsstring) (se ms : option jsstring) :
  matchSeconds s = (se, ms, r) -> optionalGroup 2 se /\ millisGroup ms.
Proof.
  unfold matchSeconds.
  assert (N : millisGroup None) by (intros ds H; discriminate).
  destruct (expect COLON s) as [s1|];
    [|intro H; inversion H; subst; split; [apply optionalGroup_None | exact N]].
  destruct (digitsN 2 s1) as [[se' s2]|] eqn:E1;
    [|intro H; inversion H; subst; split; [apply optionalGroup_None | exact N]].
  apply digitsN_group in E1.
  destruct (expect DOT s2) as [s3|];
    [|intro H; inversion H; subst; split; [apply optionalGroup_Some, E1 | exact N]].
  destruct (digitsUpTo 3 s3) as [[|c ms'] s4] eqn:E2;
    intro H; inversion H; subst;
    (split; [apply optionalGroup_Some, E1|]); [exact N|].
  apply digitsUpTo_spec in E2. destruct E2 as (_ & Hl & HF).
  intros ds E. inversion E; subst. split; [exact HF | simpl in *; lia].
Qed.

Lemma matchZone_spec (s : jsstring) (tz : option jsstring) :
  matchZone s = Some tz -> zoneGroup tz.
Proof.
  unfold matchZone. destruct s as [|c s1].
  { intro H; inversion H; subst. intros tz' E; discriminate. }
  destruct (N.eqb c 90) eqn:Ec.
  { apply N.eqb_eq in Ec. subst c. destruct s1; [|discriminate].
    intro H; inversion H; subst. intros tz' E; inversion E; subst. left; reflexivity. }
  destruct (isSign c) eqn:Es; [|discriminate].
  destruct (digitsN 2 s1) as [[zh s2]|] eqn:E1; [|discriminate].
  destruct (expect COLON s2) as [s3|]; [|discriminate].
  destruct (digitsN 2 s3) as [[zm [|? ?]]|] eqn:E2; try discriminate.
  intro H; inversion H; subst. intros tz' E; inversion E; subst.
  right. exists c, zh, zm. apply digitsN_group in E1, E2. auto.
Qed.

Lemma ISO_RE_groups (s : jsstring) (m : isoGroups) :
  ISO_RE_exec s = Some m -> wellFormedGroups m.
Proof.
  unfold ISO_RE_exec.
  destruct (digitsN 4 s) as [[Y s1]|] eqn:EY; [|discriminate].
  destruct (expect MINUS s1) as [s2|]; [|discriminate].
  destruct (digitsN 2 s2) as [[Mo s3]|] eqn:EMo; [|discriminate].
  destruct (expect MINUS s3) as [s4|]; [|discriminate].
  destruct (digitsN 2 s4) as [[D s5]|] eqn:ED; [|discriminate].
  apply digitsN_group in EY, EMo, ED.
  destruct s5 as [|c s6].
  { intro H; inversion H; subst; unfold wellFormedGroups; simpl.
    repeat (split; [assumption|]).
    repeat split; discriminate. }
  destruct (N.eqb c 84 || isWhiteSpace c); [|discriminate].
  destruct (digitsN 2 s6) as [[h s7]|] eqn:Eh; [|discriminate].
  destruct (expect COLON s7) as [s8|]; [|discriminate].
  destruct (digitsN 2 s8) as [[mi s9]|] eqn:Emi; [|discriminate].
  destruct (matchSeconds s9) as [[se ms] s10] eqn:Ese.
  destruct (matchZone s10) as [tz|] eqn:Etz; [|discriminate].
  apply digitsN_group in Eh, Emi.
  apply matchSeconds_spec in Ese. apply matchZone_spec in Etz.
  intro H; inversion H; subst; unfold wellFormedGroups; simpl.
  repeat (split; [assumption|]).
  repeat (split; [apply optionalGroup_Some; assumption|]).
  tauto.
Qed.

Lemma digitGroup_value (n : nat) (ds : jsstring) :
  digitGroup n ds -> 0 <= digitsValue ds < 10 ^ Z.of_nat n.
Proof. intros [H <-]. apply digitsValue_bound, H. Qed.

Lemma groupValue_bound (g : option jsstring) :
  optionalGroup 2 g -> 0 <= groupValue g <= 99.
Proof.
  destruct g as [ds|]; simpl; [|lia].
  intro H. pose proof (digitGroup_value 2 ds (H ds eq_refl)) as B.
  change (10 ^ Z.of_nat 2) with 100 in B. lia.
Qed.

Lemma padEnd0_group (ds : jsstring) :
  allDigits ds -> (List.length ds <= 3)%nat -> digitGroup 3 (padEnd0 3 ds).
Proof.
  intros H L. unfold padEnd0, digitGroup. split.
  - apply Forall_app; split; [exact H|].
    apply Forall_forall. intros c Hc. apply repeat_spec in Hc. subst c. reflexivity.
  - rewrite length_app, repeat_length. lia.
Qed.

Lemma offsetMin_bound (c : char16) (zh zm : jsstring) :
  digitGroup 2 zh -> digitGroup 2 zm ->
  Z.abs (offsetMin (c :: zh ++ COLON :: zm)) <= 6039.
Proof.
  intros Hh Hm. unfold offsetMin. cbn [tl].
  rewrite split_app_sep by (apply digits_no_colon, Hh).
  rewrite split_no_sep by (apply digits_no_colon, Hm).
  apply digitGroup_value in Hh, Hm.
  change (10 ^ Z.of_nat 2) with 100 in Hh, Hm.
  destruct (N.eqb c MINUS); lia.
Qed.

(** Whatever [ISO_RE] accepts, [parseIsoToDate] turns into a date: the
    [isNaN] test at its end never fires. *)
Lemma parseIsoToDate_total (s : jsstring) (m : isoGroups) :
  ISO_RE_exec s = Some m -> exists t, parseIsoToDate s = Some t.
Proof.
  intro E. unfold parseIsoToDate. rewrite E.
  apply ISO_RE_groups in E.
  destruct E as (HY & HMo & HD & Hh & Hmi & Hse & Hms & Htz).
  apply digitGroup_value in HY, HMo, HD.
  change (10 ^ Z.of_nat 4) with 10000 in HY.
  change (10 ^ Z.of_nat 2) with 100 in HMo, HD.
  apply groupValue_bound in Hh, Hmi, Hse.
  assert (Bms : 0 <= match g_ms m with
                     | Some ms => digitsValue (padEnd0 3 ms)
                     | None => 0
                     end <= 999).
  { destruct (g_ms m) as [ms|] eqn:Ems; [|lia].
    destruct (Hms ms eq_refl) as [Hd Hl].
    pose proof (digitGroup_value 3 _ (padEnd0_group ms Hd ltac:(lia))) as B.
    change (10 ^ Z.of_nat 3) with 1000 in B. lia. }
  assert (clip : forall t, Z.abs t <= 400000000000000 -> exists t', TimeClip t = Some t').
  { intros t B. unfold TimeClip.
    destruct (Z.leb_spec (Z.abs t) 8640000000000000); [eauto | lia]. }
  destruct (DateUTC_in_range (digitsValue (g_Y m)) (digitsValue (g_Mo m) - 1)
              (digitsValue (g_D m)) 0 0 0 0) as (t0 & E0 & B0); try lia.
  destruct (DateUTC_in_range (digitsValue (g_Y m)) (digitsValue (g_Mo m) - 1)
              (digitsValue (g_D m)) (groupValue (g_h m)) (groupValue (g_mi m))
              (groupValue (g_se m))
              (match g_ms m with
               | Some ms => digitsValue (padEnd0 3 ms)
               | None => 0
               end)) as (t1 & E1 & B1); try lia.
  rewrite E0, E1.
  destruct (g_tz m) as [tz|] eqn:Ez.
  - assert (Z.abs (offsetMin tz) <= 6039 \/ eqb tz [90%N] = true) as [Bo|Ze].
    { destruct (Htz tz eq_refl) as [->|(c & zh & zm & -> & _ & Hzh & Hzm)].
      - right; reflexivity.
      - left. apply offsetMin_bound; assumption. }
    + destruct (g_h m); destruct (eqb tz [90%N]); apply clip; lia.
    + rewrite Ze. destruct (g_h m); apply clip; lia.
  - destruct (g_h m); apply clip; lia.
Qed.

Lemma parseIsoToDate_matches (s : jsstring) :
  (exists t, parseIsoToDate s = Some t) <-> (exists m, ISO_RE_exec s = Some m).
Proof.
  split.
  - intros [t H]. unfold parseIsoToDate in H.
    destruct (ISO_RE_exec s) as [m|]; [eauto | discriminate].
  - intros [m H]. eapply parseIsoToDate_total; eauto.
Qed.

(** ** The calendar arithmetic against the plain count *)

Lemma centuries_are_multiples_of_4 (y : Z) : y mod 100 = 0 -> y mod 4 = 0.
Proof. Z.div_mod_to_equations; lia. Qed.

Lemma quadricentennials_are_centuries (y : Z) : y mod 400 = 0 -> y mod 100 = 0.
Proof. Z.div_mod_to_equations; lia. Qed.

Lemma DaysInYear_yearLength (y : Z) : DaysInYear y = yearLength y.
Proof.
  unfold DaysInYear, yearLength, isLeapYear.
  pose proof (centuries_are_multiples_of_4 y) as C4.
  pose proof (quadricentennials_are_centuries y) as C100.
  destruct (Z.eqb_spec (y mod 4) 0) as [E4|E4],
           (Z.eqb_spec (y mod 100) 0) as [E100|E100],
           (Z.eqb_spec (y mod 400) 0) as [E400|E400]; cbn [andb orb negb];
    try reflexivity; tauto.
Qed.

Lemma quotient_step_4 (y : Z) :
  (y + 1 - 1969) / 4 = (y - 1969) / 4 + (if y mod 4 =? 0 then 1 else 0).
Proof. destruct (Z.eqb_spec (y mod 4) 0) as [E|E]; revert E; Z.div_mod_to_equations; lia. Qed.

Lemma quotient_step_100 (y : Z) :
  (y + 1 - 1901) / 100 = (y - 1901) / 100 + (if y mod 100 =? 0 then 1 else 0).
Proof. destruct (Z.eqb_spec (y mod 100) 0) as [E|E]; revert E; Z.div_mod_to_equations; lia. Qed.

Lemma quotient_step_400 (y : Z) :
  (y + 1 - 1601) / 400 = (y - 1601) / 400 + (if y mod 400 =? 0 then 1 else 0).
Proof. destruct (Z.eqb_spec (y mod 400) 0) as [E|E]; revert E; Z.div_mod_to_equations; lia. Qed.

Lemma DayFromYear_succ (y : Z) :
  DayFromYear (y + 1) = DayFromYear y + DaysInYear y.
Proof.
  unfold DayFromYear, DaysInYear.
  rewrite quotient_step_4, quotient_step_100, quotient_step_400.
  pose proof (centuries_are_multiples_of_4 y) as C4.
  pose proof (quadricentennials_are_centuries y) as C100.
  destruct (Z.eqb_spec (y mod 4) 0), (Z.eqb_spec (y mod 100) 0),
    (Z.eqb_spec (y mod 400) 0); cbn [negb]; try lia; tauto.
Qed.

Lemma DayFromYear_count (y : nat) :
  DayFromYear (Z.of_nat y) = daysBeforeYear y - daysBeforeYear 1970.
Proof.
  assert (H : DayFromYear (Z.of_nat y) = DayFromYear 0 + daysBeforeYear y).
  { induction y as [|k IH]; [cbn [daysBeforeYear Z.of_nat]; lia|].
    rewrite Nat2Z.inj_succ. unfold Z.succ.
    rewrite DayFromYear_succ, IH, DaysInYear_yearLength.
    cbn [daysBeforeYear]. lia. }
  rewrite H.
  assert (E : DayFromYear 0 = - daysBeforeYear 1970) by (vm_compute; reflexivity).
  lia.
Qed.

Lemma monthStart_count (y : Z) (m : nat) :
  (1 <= m <= 12)%nat ->
  monthStart y (Z.of_nat m - 1) = daysBeforeMonth y m.
Proof.
  intro H. unfold monthStart, InLeapYear. rewrite DaysInYear_yearLength.
  unfold yearLength.
  do 13 (destruct m as [|m]; [try lia; cbn; destruct (isLeapYear y); reflexivity|]).
  lia.
Qed.

(** On a year from 100 on and a month from 1 to 12, [Date.UTC] is the
    plain count. *)
Lemma DateUTC_civil (y m d h mi s ms : nat) :
  (100 <= y)%nat -> (1 <= m <= 12)%nat ->
  DateUTC (Z.of_nat y) (Z.of_nat m - 1) (Z.of_nat d)
          (Z.of_nat h) (Z.of_nat mi) (Z.of_nat s) (Z.of_nat ms)
  = TimeClip (utcInstant y m d h mi s ms).
Proof.
  intros Hy Hm. unfold DateUTC, MakeDate, MakeDay, MakeTime, utcInstant, msPerDay.
  assert (E : (0 <=? Z.of_nat y) && (Z.of_nat y <=? 99) = false).
  { apply andb_false_iff. right. apply Z.leb_gt. lia. }
  rewrite E.
  assert (Eq : (Z.of_nat m - 1) / 12 = 0) by (apply Z.div_small; lia).
  assert (Er : (Z.of_nat m - 1) mod 12 = Z.of_nat m - 1) by (apply Z.mod_small; lia).
  rewrite Eq, Er, Z.add_0_r, DayFromYear_count, monthStart_count by exact Hm.
  f_equal. lia.
Qed.

(** ** [parseIsoToDate] against the calendar *)

Lemma TimeClip_Some (t t' : Z) : TimeClip t = Some t' -> t' = t.
Proof.
  unfold TimeClip. destruct (Z.abs t <=? 8640000000000000); intro H;
    [inversion H; reflexivity | discriminate].
Qed.

(** A date-only match has no other group. *)
Lemma ISO_RE_date_only (s : jsstring) (m : isoGroups) :
  ISO_RE_exec s = Some m -> g_h m = None ->
  g_mi m = None /\ g_se m = None /\ g_ms m = None /\ g_tz m = None.
Proof.
  unfold ISO_RE_exec.
  destruct (digitsN 4 s) as [[Y s1]|]; [|discriminate].
  destruct (expect MINUS s1) as [s2|]; [|discriminate].
  destruct (digitsN 2 s2) as [[Mo s3]|]; [|discriminate].
  destruct (expect MINUS s3) as [s4|]; [|discriminate].
  destruct (digitsN 2 s4) as [[D s5]|]; [|discriminate].
  destruct s5 as [|c s6]; [intro H; inversion H; subst; simpl; auto|].
  destruct (N.eqb c 84 || isWhiteSpace c); [|discriminate].
  destruct (digitsN 2 s6) as [[h s7]|]; [|discriminate].
  destruct (expect COLON s7) as [s8|]; [|discriminate].
  destruct (digitsN 2 s8) as [[mi s9]|]; [|discriminate].
  destruct (matchSeconds s9) as [[se ms] s10].
  destruct (matchZone s10) as [tz|]; [|discriminate].
  intro H; inversion H; subst; simpl. discriminate.
Qed.

(** For a year from 0100 on and a month from 01 to 12, the date that
    [parseIsoToDate] builds is the instant its fields name, read as UTC,
    less the zone offset. *)
Lemma parseIsoToDate_instant (s : jsstring) (m : isoGroups) :
  ISO_RE_exec s = Some m ->
  100 <= digitsValue (g_Y m) ->
  1 <= digitsValue (g_Mo m) <= 12 ->
  parseIsoToDate s =
  Some (utcInstant (Z.to_nat (digitsValue (g_Y m)))
          (Z.to_nat (digitsValue (g_Mo m))) (Z.to_nat (digitsValue (g_D m)))
          (Z.to_nat (groupValue (g_h m))) (Z.to_nat (groupValue (g_mi m)))
          (Z.to_nat (groupValue (g_se m))) (Z.to_nat (millisValue m))
        - zoneMinutes m * 60000).
Proof.
  intros E Hy Hmo.
  destruct (parseIsoToDate_total s m E) as [t Ht]. rewrite Ht. f_equal.
  pose proof (ISO_RE_date_only s m E) as Donly.
  pose proof (ISO_RE_groups s m E) as G.
  destruct G as (HY & HMo & HD & Hh & Hmi & Hse & Hms & Htz).
  apply digitGroup_value in HD. apply groupValue_bound in Hh, Hmi, Hse.
  assert (Bms : 0 <= millisValue m).
  { unfold millisValue. destruct (g_ms m) as [ms|]; [|lia].
    destruct (Hms ms eq_refl) as [Hd Hl].
    pose proof (digitGroup_value 3 _ (padEnd0_group ms Hd ltac:(lia))). lia. }
  assert (U : DateUTC (digitsValue (g_Y m)) (digitsValue (g_Mo m) - 1)
                (digitsValue (g_D m)) (groupValue (g_h m)) (groupValue (g_mi m))
                (groupValue (g_se m)) (millisValue m)
              = TimeClip (utcInstant (Z.to_nat (digitsValue (g_Y m)))
                  (Z.to_nat (digitsValue (g_Mo m))) (Z.to_nat (digitsValue (g_D m)))
                  (Z.to_nat (groupValue (g_h m))) (Z.to_nat (groupValue (g_mi m)))
                  (Z.to_nat (groupValue (g_se m))) (Z.to_nat (millisValue m)))).
  { rewrite <- DateUTC_civil by lia. rewrite !Z2Nat.id by lia. reflexivity. }
  unfold parseIsoToDate in Ht. rewrite E in Ht.
  fold (millisValue m) in Ht. unfold zoneMinutes.
  destruct (g_h m) as [h|] eqn:Eh.
  - rewrite U in Ht.
    destruct (g_tz m) as [tz|]; [destruct (eqb tz [90%N])|];
      destruct (TimeClip (utcInstant _ _ _ _ _ _ _)) as [u|] eqn:Eu;
      try discriminate;
      apply TimeClip_Some in Eu; apply TimeClip_Some in Ht; lia.
  - destruct (Donly eq_refl) as (Emi & Ese & Ems & Etz).
    unfold millisValue in *. rewrite Emi, Ese, Ems in *. rewrite Etz in *.
    cbn [groupValue] in *. rewrite U in Ht.
    destruct (TimeClip (utcInstant _ _ _ _ _ _ _)) as [u|] eqn:Eu;
      try discriminate;
      apply TimeClip_Some in Eu; apply TimeClip_Some in Ht; lia.
Qed.

(** The offset example of the specification:
    2024-01-01T10:00:00+02:00 is 2024-01-01T08:00:00Z. *)
Lemma offset_example :
  parseIsoToDate (js "2024-01-01T10:00:00+02:00")
  = Some (utcInstant 2024 1 1 8 0 0 0)
  /\ parseIsoToDate (js "2024-01-01T10:00:00+02:00")
     = parseIsoToDate (js "2024-01-01T08:00:00Z")
  /\ parseIsoToDate (js "2024-01-01") = Some (utcInstant 2024 1 1 0 0 0 0)
  /\ parseIsoToDate (js "2024-01-01 10:00") = Some (utcInstant 2024 1 1 10 0 0 0).
Proof. split; [|split; [|split]]; vm_compute; reflexivity. Qed.

(** C1, at an input on which the code departs from it: the day 31 of
    February and the month 13 match the pattern and are not rejected;
    [Date.UTC] carries the excess over, so 2024-02-31 becomes the date of
    2024-03-02 and 2024-13-01 that of 2025-01-01, and a row holding such a
    string is parsed as a dated row. *)
Theorem out_of_range_calendar_fields_accepted :
  validDate 2024 2 31 = false
  /\ parseIsoToDate (js "2024-02-31") = Some (utcInstant 2024 3 2 0 0 0 0)
  /\ parseIsoToDate (js "2024-13-01") = Some (utcInstant 2025 1 1 0 0 0 0)
  /\ parseDataText (js "2024-02-31,1")
     = Ok {| timeAxisName := js "X"; valueAxisName := js "Value";
             dataPoints := [(XDate (utcInstant 2024 3 2 0 0 0 0), ofZ 1)] |}.
Proof.
  split; [|split; [|split]]; vm_compute; reflexivity.
Qed.

(** C6, at an input on which the code departs from it: [Date.UTC] reads a
    year from 0 to 99 as 1900 + year, so the date-only string 0050-01-01, a
    valid date, does not become midnight UTC of that date but of
    1950-01-01. *)
Theorem two_digit_year_shifted :
  validDate 50 1 1 = true
  /\ parseIsoToDate (js "0050-01-01") = Some (utcInstant 1950 1 1 0 0 0 0)
  /\ utcInstant 50 1 1 0 0 0 0 < utcInstant 1950 1 1 0 0 0 0
  /\ parseDataText (js "0050-01-01,1")
     = Ok {| timeAxisName := js "X"; valueAxisName := js "Value";
             dataPoints := [(XDate (utcInstant 1950 1 1 0 0 0 0), ofZ 1)] |}.
Proof.
  split; [|split; [|split]]; vm_compute; reflexivity.
Qed.

(** ** The coercion loops *)

Lemma coerceSingle_inv (s i : nat) (rows : list (list jsstring)) pts :
  coerceSingle s i rows = Ok pts ->
  pts = singlePoints i rows
  /\ Forall (fun r => isFiniteNumberString (field 0 r) = true) rows.
Proof.
  revert i pts; induction rows as [|r rs IH]; simpl; intros i pts H.
  - inversion H; subst. split; [reflexivity | constructor].
  - destruct (isFiniteNumberString (trim (nth 0 r []))) eqn:Ey; [|discriminate].
    rewrite (isFiniteNumberString_isFinite _ Ey) in H. simpl in H.
    destruct (coerceSingle s (S i) rs) as [ps|] eqn:Er; [|discriminate].
    inversion H; subst pts; clear H. destruct (IH _ _ Er) as [-> HF].
    split; [reflexivity | constructor; assumption].
Qed.

Lemma coerceSingle_ok (s i : nat) (rows : list (list jsstring)) :
  Forall (fun r => isFiniteNumberString (field 0 r) = true) rows ->
  coerceSingle s i rows = Ok (singlePoints i rows).
Proof.
  intro H; revert i; induction H as [|r rs Hr _ IH]; intro i; simpl; [reflexivity|].
  unfold field in Hr. rewrite Hr, (isFiniteNumberString_isFinite _ Hr). simpl.
  rewrite IH. reflexivity.
Qed.

Lemma coerceNumeric_inv (s i : nat) (rows : list (list jsstring)) pts :
  coerceNumeric s i rows = Ok pts ->
  pts = numericPoints rows
  /\ Forall (fun r => isFiniteNumberString (field 0 r) = true
                      /\ isFiniteNumberString (field 1 r) = true) rows.
Proof.
  revert i pts; induction rows as [|r rs IH]; simpl; intros i pts H.
  - inversion H; subst. split; [reflexivity | constructor].
  - destruct (isFiniteNumberString (trim (nth 0 r []))) eqn:Ex; [|discriminate].
    destruct (isFiniteNumberString (trim (nth 1 r []))) eqn:Ey; [|discriminate].
    rewrite (isFiniteNumberString_isFinite _ Ex),
      (isFiniteNumberString_isFinite _ Ey) in H. simpl in H.
    destruct (coerceNumeric s (S i) rs) as [ps|] eqn:Er; [|discriminate].
    inversion H; subst pts; clear H. destruct (IH _ _ Er) as [-> HF].
    split; [reflexivity | constructor; auto].
Qed.

Lemma coerceNumeric_ok (s i : nat) (rows : list (list jsstring)) :
  Forall (fun r => isFiniteNumberString (field 0 r) = true
                   /\ isFiniteNumberString (field 1 r) = true) rows ->
  coerceNumeric s i rows = Ok (numericPoints rows).
Proof.
  intro H; revert i; induction H as [|r rs [Hx Hy] _ IH]; intro i; simpl; [reflexivity|].
  unfold field in Hx, Hy.
  rewrite Hx, Hy, (isFiniteNumberString_isFinite _ Hx),
    (isFiniteNumberString_isFinite _ Hy). simpl.
  rewrite IH. reflexivity.
Qed.

Lemma coerceDated_inv (s i : nat) (rows : list (list jsstring)) pts :
  coerceDated s i rows = Ok pts ->
  Forall2 datedPoint rows pts
  /\ Forall (fun r => isFiniteNumberString (field 1 r) = true) rows.
Proof.
  revert i pts; induction rows as [|r rs IH]; simpl; intros i pts H.
  - inversion H; subst. split; constructor.
  - destruct (parseIsoToDate (trim (nth 0 r []))) as [d|] eqn:Ed; [|discriminate].
    destruct (isFiniteNumberString (trim (nth 1 r []))) eqn:Ey; [|discriminate].
    rewrite (isFiniteNumberString_isFinite _ Ey) in H. simpl in H.
    destruct (coerceDated s (S i) rs) as [ps|] eqn:Er; [|discriminate].
    inversion H; subst pts; clear H. destruct (IH _ _ Er) as [HF2 HF].
    split; constructor; auto. exists d. auto.
Qed.

(** ** The kinds of x *)

Lemma singlePoints_length (i : nat) (rows : list (list jsstring)) :
  List.length (singlePoints i rows) = List.length rows.
Proof.
  unfold singlePoints.
  rewrite length_combine, !length_map, length_seq. lia.
Qed.

Lemma singlePoints_fst (i : nat) (rows : list (list jsstring)) :
  map fst (singlePoints i rows) = map XIndex (seq i (List.length rows)).
Proof.
  unfold singlePoints. revert i; induction rows as [|r rs IH]; intro i; simpl;
    [reflexivity | rewrite IH; reflexivity].
Qed.

Lemma singlePoints_finite (i : nat) (rows : list (list jsstring)) :
  Forall (fun r => isFiniteNumberString (field 0 r) = true) rows ->
  Forall finitePoint (singlePoints i rows).
Proof.
  intro H; revert i; induction H as [|r rs Hr _ IH]; intro i; [constructor|].
  constructor; [|apply IH].
  split; [exact I | apply isFiniteNumberString_isFinite, Hr].
Qed.

Lemma numericPoints_finite (rows : list (list jsstring)) :
  Forall (fun r => isFiniteNumberString (field 0 r) = true
                   /\ isFiniteNumberString (field 1 r) = true) rows ->
  Forall finitePoint (numericPoints rows) /\ allNumbers (numericPoints rows).
Proof.
  induction 1 as [|r rs [Hx Hy] _ [IH1 IH2]]; [split; constructor|].
  apply isFiniteNumberString_isFinite in Hx, Hy.
  split; constructor; auto; [split; assumption | eexists; split; [reflexivity | exact Hx]].
Qed.

Lemma datedPoints_finite (rows : list (list jsstring)) pts :
  Forall2 datedPoint rows pts ->
  Forall (fun r => isFiniteNumberString (field 1 r) = true) rows ->
  Forall finitePoint pts /\ allInstants pts.
Proof.
  induction 1 as [|r p rs ps (d & _ & ->) _ IH]; intro HF; [split; constructor|].
  inversion HF; subst. destruct (IH H2) as [IH1 IH2].
  split; constructor; auto;
    [split; [exact I | apply isFiniteNumberString_isFinite; assumption]
    | exists d; reflexivity].
Qed.

(** ** One column of numbers *)

Lemma existsb_false {A} (p : A -> bool) (l : list A) :
  Forall (fun a => p a = false) l -> existsb p l = false.
Proof.
  induction 1 as [|a l Ha _ IH]; simpl; [reflexivity | rewrite Ha, IH; reflexivity].
Qed.

Lemma number_line_no_delimiter (l : jsstring) :
  isFiniteNumberString l = true -> hasComma l = false /\ hasTab l = false.
Proof.
  intro H. apply isFiniteNumberString_chars in H.
  split; apply includes_false; eapply Forall_impl; try exact H;
    intros c Hc; apply numChar_not_delimiter in Hc; tauto.
Qed.

Lemma number_lines_no_delimiter (lines : list jsstring) :
  Forall (fun l => isFiniteNumberString l = true) lines ->
  detectDelimiter lines = Ok None.
Proof.
  intro H. rewrite detectDelimiter_spec.
  assert (Hc : existsb hasComma lines = false).
  { apply existsb_false. eapply Forall_impl; [|exact H].
    intros l Hl. apply number_line_no_delimiter, Hl. }
  assert (Ht : existsb hasTab lines = false).
  { apply existsb_false. eapply Forall_impl; [|exact H].
    intros l Hl. apply number_line_no_delimiter, Hl. }
  assert (Hb : existsb hasBoth lines = false).
  { apply existsb_false. eapply Forall_impl; [|exact H].
    intros l Hl. unfold hasBoth.
    destruct (number_line_no_delimiter l Hl) as [-> _]. reflexivity. }
  rewrite Hb, Hc, Ht. reflexivity.
Qed.

Lemma colCountsSize_single (lines : list jsstring) :
  lines <> [] -> colCountsSize (tokenize None lines) = 1%nat.
Proof.
  unfold colCountsSize, tokenize. rewrite map_map. simpl.
  induction lines as [|l ls IH]; [congruence|]. intros _.
  destruct ls as [|l' ls']; [reflexivity|].
  specialize (IH ltac:(discriminate)).
  cbn [map nodup] in *.
  destruct (in_dec Nat.eq_dec 1%nat (1%nat :: map (fun _ : jsstring => 1%nat) ls')) as [_|N];
    [exact IH | exfalso; apply N; left; reflexivity].
Qed.

Lemma single_column_region (text : jsstring) :
  normalize text <> [] ->
  Forall (fun l => isFiniteNumberString l = true) (normalize text) ->
  dataRegion text =
  Ok {| columns := 1; timeName := js "Index"; valueName := js "Value";
        startIdx := 0; allRows := tokenize None (normalize text);
        dataRows := tokenize None (normalize text) |}.
Proof.
  intros Hne HF. unfold dataRegion.
  rewrite (number_lines_no_delimiter _ HF).
  assert (E0 : Nat.eqb (List.length (normalize text)) 0 = false)
    by (apply length_zero_nil, Hne).
  rewrite E0. cbn [guard bind].
  assert (Ec : checkColumns None (tokenize None (normalize text)) = Ok 1%nat).
  { unfold checkColumns. rewrite (colCountsSize_single _ Hne).
    destruct (normalize text) as [|l ls]; [congruence | reflexivity]. }
  rewrite Ec. cbn [bind].
  assert (Eh : axisNames 1 (tokenize None (normalize text))
               = (js "Index", js "Value", 0%nat)).
  { unfold axisNames, isHeaderRow.
    destruct (normalize text) as [|l ls]; [congruence|].
    inversion HF; subst. cbn [tokenize map hd nth Nat.eqb]. rewrite H1. reflexivity. }
  rewrite Eh. cbn [skipn].
  assert (El : Nat.eqb (List.length (tokenize None (normalize text))) 0 = false).
  { apply length_zero_nil, tokenize_nil, Hne. }
  rewrite El. cbn [guard bind].
  rewrite checkWidths_Forall; [reflexivity|].
  unfold tokenize. apply Forall_map, Forall_forall. reflexivity.
Qed.

(** C7: single-column numeric input without a header, that is, non-blank
    lines that are all finite-number strings, parses to the points
    (0, y0), (1, y1), ..., (n-1, y(n-1)) under the axis name "Index"; the
    input 10, 20, 30 on three lines gives (0,10), (1,20), (2,30). *)
Theorem single_column_indices :
  (forall text,
     normalize text <> [] ->
     Forall (fun l => isFiniteNumberString l = true) (normalize text) ->
     parseDataText text =
     Ok {| timeAxisName := js "Index"; valueAxisName := js "Value";
           dataPoints :=
             combine (map XIndex (seq 0 (List.length (normalize text))))
                     (map Number (normalize text)) |})
  /\ parseDataText (js "10" ++ [LF] ++ js "20" ++ [LF] ++ js "30") =
     Ok {| timeAxisName := js "Index"; valueAxisName := js "Value";
           dataPoints := [(XIndex 0, ofZ 10); (XIndex 1, ofZ 20);
                          (XIndex 2, ofZ 30)] |}.
Proof.
  split; [|vm_compute; reflexivity].
  intros text Hne HF. unfold parseDataText.
  rewrite (single_column_region text Hne HF). cbn [bind columns startIdx dataRows timeName valueName].
  unfold coerce. cbn [Nat.eqb].
  rewrite coerceSingle_ok.
  - cbn [bind]. do 2 f_equal. unfold singlePoints, tokenize.
    rewrite length_map, map_map. f_equal.
    apply map_ext_in. intros l Hl. unfold field. cbn [nth].
    rewrite Forall_forall in HF. rewrite (isFiniteNumberString_trim l (HF l Hl)).
    reflexivity.
  - unfold tokenize. apply Forall_map. eapply Forall_impl; [|exact HF].
    intros l Hl. unfold field. cbn [nth].
    rewrite (isFiniteNumberString_trim l Hl). exact Hl.
Qed.

Lemma single_column_indices_witness :
  parseDataText (js "7" ++ [LF] ++ js "-2.5e1") =
  Ok {| timeAxisName := js "Index"; valueAxisName := js "Value";
        dataPoints :=
          combine (map XIndex (seq 0 (List.length
                     (normalize (js "7" ++ [LF] ++ js "-2.5e1")))))
                  (map Number (normalize (js "7" ++ [LF] ++ js "-2.5e1"))) |}.
Proof.
  apply (proj1 single_column_indices (js "7" ++ [LF] ++ js "-2.5e1")).
  - vm_compute. discriminate.
  - apply Forall_forall. apply forallb_forall. vm_compute. reflexivity.
Defined.

(** ** The outcome of coercion, by kind *)

Lemma parseIsoToDate_test (s : jsstring) :
  match parseIsoToDate s with Some _ => true | None => false end = ISO_RE_test s.
Proof.
  unfold ISO_RE_test. destruct (ISO_RE_exec s) as [m|] eqn:E.
  - destruct (parseIsoToDate_total s m E) as [t ->]. reflexivity.
  - unfold parseIsoToDate. rewrite E. reflexivity.
Qed.

Lemma xAreDates_spec (rows : list (list jsstring)) :
  xAreDates 2 rows = forallb (fun r => ISO_RE_test (nth 0 r [])) rows.
Proof.
  unfold xAreDates. cbn [Nat.eqb].
  induction rows as [|r rs IH]; simpl; [reflexivity|].
  rewrite parseIsoToDate_test, IH. reflexivity.
Qed.

Lemma coerce_Ok_cases (cols s : nat) (rows : list (list jsstring)) pts :
  coerce cols s rows = Ok pts ->
  (cols = 1%nat /\ pts = singlePoints 0 rows
   /\ Forall (fun r => isFiniteNumberString (field 0 r) = true) rows)
  \/ (cols <> 1%nat /\ xAreDates cols rows = true
      /\ Forall2 datedPoint rows pts
      /\ Forall (fun r => isFiniteNumberString (field 1 r) = true) rows)
  \/ (cols <> 1%nat /\ xAreDates cols rows = false
      /\ pts = numericPoints rows
      /\ Forall (fun r => isFiniteNumberString (field 0 r) = true
                          /\ isFiniteNumberString (field 1 r) = true) rows).
Proof.
  unfold coerce. destruct (Nat.eqb_spec cols 1) as [E|E].
  - intro H. apply coerceSingle_inv in H. left. tauto.
  - destruct (xAreDates cols rows); intro H.
    + apply coerceDated_inv in H. right; left. tauto.
    + apply coerceNumeric_inv in H. right; right. tauto.
Qed.

Lemma result_cases {A} (r : result A) : (exists a, r = Ok a) \/ (exists e, r = Err e).
Proof. destruct r; eauto. Qed.

Lemma bad_numeric_field_fails (text : jsstring) (g : region)
      (row : list jsstring) (k : nat) :
  dataRegion text = Ok g ->
  In row (dataRows g) ->
  numericField g k ->
  isFiniteNumberString (field k row) = false ->
  exists e, parseDataText text = Err e.
Proof.
  intros Hg Hin Hk Hbad.
  destruct (result_cases (parseDataText text)) as [[r Hr]|He]; [|exact He].
  exfalso. apply parseDataText_Ok in Hr. destruct Hr as (g' & Hg' & Hc & _).
  rewrite Hg in Hg'. inversion Hg'; subst g'; clear Hg'.
  apply coerce_Ok_cases in Hc.
  destruct Hk as [[Hcols ->]|[[Hcols ->]|(Hcols & Hx & ->)]];
    destruct Hc as [(E & _ & HF)|[(E & Hd & _ & HF)|(E & Hd & _ & HF)]];
    try congruence;
    try (rewrite Hcols in Hd; congruence);
    rewrite Forall_forall in HF; specialize (HF row Hin); simpl in HF;
    try match type of HF with _ /\ _ => destruct HF as [HF0 HF1] end;
    congruence.
Qed.

(** C5: a data row with a numeric field that is not a finite-number
    string once trimmed makes the parse fail, and such are the tokens NaN,
    Infinity and 1e999, the last of which [NUM_RE] accepts and [Number]
    turns into infinity; so every point of a successful parse is free of
    NaN and of infinities. *)
Theorem non_finite_rejected :
  (forall text g row k,
     dataRegion text = Ok g ->
     In row (dataRows g) ->
     numericField g k ->
     isFiniteNumberString (field k row) = false ->
     exists e, parseDataText text = Err e)
  /\ (forall text r,
        parseDataText text = Ok r -> Forall finitePoint (dataPoints r))
  /\ isFiniteNumberString (trim (js "NaN")) = false
  /\ isFiniteNumberString (trim (js "Infinity")) = false
  /\ isFiniteNumberString (trim (js "1e999")) = false
  /\ Number (js "1e999") = S754_infinity false.
Proof.
  split; [exact bad_numeric_field_fails|].
  split; [|repeat (split; [vm_compute; reflexivity|]); vm_compute; reflexivity].
  intros text r Hr. apply parseDataText_Ok in Hr.
  destruct Hr as (g & _ & Hc & _). apply coerce_Ok_cases in Hc.
  destruct Hc as [(_ & -> & HF)|[(_ & _ & HF2 & HF)|(_ & _ & -> & HF)]].
  - apply singlePoints_finite, HF.
  - apply (datedPoints_finite _ _ HF2 HF).
  - apply numericPoints_finite, HF.
Qed.

Lemma non_finite_rejected_witness :
  (exists e, parseDataText (js "1,2" ++ [LF] ++ js "3,NaN") = Err e)
  /\ Forall finitePoint [(XNum (ofZ 1), ofZ 2)].
Proof.
  split.
  - eapply (proj1 non_finite_rejected (js "1,2" ++ [LF] ++ js "3,NaN")
              _ [js "3"; js "NaN"] 1%nat).
    + vm_compute. reflexivity.
    + right; left; reflexivity.
    + right; left; split; reflexivity.
    + vm_compute. reflexivity.
  - apply (proj1 (proj2 non_finite_rejected) (js "1,2")
             {| timeAxisName := js "X"; valueAxisName := js "Value";
                dataPoints := [(XNum (ofZ 1), ofZ 2)] |}).
    vm_compute. reflexivity.
Defined.

Lemma numericPoints_not_instants (rows : list (list jsstring)) :
  rows <> [] -> ~ allInstants (numericPoints rows).
Proof.
  destruct rows as [|r rs]; [congruence|]. intros _ H.
  inversion H as [|p ps [t Ht] _]; subst. discriminate.
Qed.

Lemma coerce_uniform (cols s : nat) (rows : list (list jsstring)) pts :
  coerce cols s rows = Ok pts -> uniformKind pts.
Proof.
  intro H. apply coerce_Ok_cases in H.
  destruct H as [(_ & -> & HF)|[(_ & _ & HF2 & HF)|(_ & _ & -> & HF)]].
  - left. unfold allIndices. rewrite singlePoints_fst, singlePoints_length. reflexivity.
  - right; right. apply (datedPoints_finite _ _ HF2 HF).
  - right; left. apply numericPoints_finite, HF.
Qed.

(** C2, as the code has it: the x values of a successful parse are all
    indices, or all finite numbers, or all instants; with two columns they
    are instants exactly when the first token of every data row matches the
    ISO pattern; and when they are not all ISO, a data row whose first
    token, once trimmed, is not a finite-number string fails the parse. *)
Theorem x_kind_is_uniform :
  (forall text r, parseDataText text = Ok r -> uniformKind (dataPoints r))
  /\ (forall text g r,
        dataRegion text = Ok g -> columns g = 2%nat ->
        parseDataText text = Ok r ->
        (allInstants (dataPoints r)
         <-> forallb (fun row => ISO_RE_test (nth 0 row [])) (dataRows g) = true))
  /\ (forall text g row,
        dataRegion text = Ok g -> columns g = 2%nat ->
        forallb (fun row => ISO_RE_test (nth 0 row [])) (dataRows g) = false ->
        In row (dataRows g) ->
        isFiniteNumberString (trim (nth 0 row [])) = false ->
        exists e, parseDataText text = Err e).
Proof.
  split; [|split].
  - intros text r Hr. apply parseDataText_Ok in Hr.
    destruct Hr as (g & _ & Hc & _). eapply coerce_uniform; eauto.
  - intros text g r Hg Hcols Hr. apply parseDataText_Ok in Hr.
    destruct Hr as (g' & Hg' & Hc & _).
    rewrite Hg in Hg'. inversion Hg'; subst g'; clear Hg'.
    rewrite <- xAreDates_spec, <- Hcols.
    apply dataRegion_Ok in Hg. destruct Hg as (d & _ & _ & _ & _ & _ & _ & Hne).
    apply coerce_Ok_cases in Hc.
    destruct Hc as [(E & _)|[(_ & Hx & HF2 & HF)|(_ & Hx & -> & _)]].
    + congruence.
    + split; [intros _; exact Hx | intros _; apply (datedPoints_finite _ _ HF2 HF)].
    + split; [|congruence]. intro H. exfalso.
      apply (numericPoints_not_instants _ Hne H).
  - intros text g row Hg Hcols Hx Hin Hbad.
    apply (bad_numeric_field_fails text g row 0 Hg Hin); [|exact Hbad].
    right; right. rewrite xAreDates_spec. auto.
Qed.

Lemma x_kind_is_uniform_witness :
  uniformKind [(XNum (ofZ 1), ofZ 2); (XNum (ofZ 3), ofZ 4)]
  /\ (allInstants [(XDate 1704067200000, ofZ 10)]
      <-> forallb (fun row => ISO_RE_test (nth 0 row []))
            [[js "2024-01-01"; js "10"]] = true)
  /\ exists e, parseDataText (js "1,2" ++ [LF] ++ js "x,4") = Err e.
Proof.
  split; [|split].
  - apply (proj1 x_kind_is_uniform (js "1,2" ++ [LF] ++ js "3 ,4")
             {| timeAxisName := js "X"; valueAxisName := js "Value";
                dataPoints := [(XNum (ofZ 1), ofZ 2); (XNum (ofZ 3), ofZ 4)] |}).
    vm_compute. reflexivity.
  - apply (proj1 (proj2 x_kind_is_uniform) (js "2024-01-01,10")
             {| columns := 2; timeName := js "X"; valueName := js "Value";
                startIdx := 0; allRows := [[js "2024-01-01"; js "10"]];
                dataRows := [[js "2024-01-01"; js "10"]] |}
             {| timeAxisName := js "X"; valueAxisName := js "Value";
                dataPoints := [(XDate 1704067200000, ofZ 10)] |});
      vm_compute; reflexivity.
  - apply (proj2 (proj2 x_kind_is_uniform) (js "1,2" ++ [LF] ++ js "x,4")
             {| columns := 2; timeName := js "X"; valueName := js "Value";
                startIdx := 0; allRows := [[js "1"; js "2"]; [js "x"; js "4"]];
                dataRows := [[js "1"; js "2"]; [js "x"; js "4"]] |}
             [js "x"; js "4"]).
    + vm_compute. reflexivity.
    + reflexivity.
    + vm_compute. reflexivity.
    + right; left; reflexivity.
    + vm_compute. reflexivity.
Defined.

(** C2 as first stated fails on the token as split, before trimming: in
    the two-column input of the lines [1,2] and [3 ,4] no first token is
    an ISO string, the first token [3 ] of the second row is not a
    finite-number string, and yet the parse succeeds, because the loop
    trims the token to [3] before testing it. *)
Lemma untrimmed_first_token_accepted :
  dataRegion (js "1,2" ++ [LF] ++ js "3 ,4")
  = Ok {| columns := 2; timeName := js "X"; valueName := js "Value";
          startIdx := 0;
          allRows := [[js "1"; js "2"]; [js "3 "; js "4"]];
          dataRows := [[js "1"; js "2"]; [js "3 "; js "4"]] |}
  /\ forallb (fun row => ISO_RE_test (nth 0 row []))
       [[js "1"; js "2"]; [js "3 "; js "4"]] = false
  /\ isFiniteNumberString (nth 0 [js "3 "; js "4"] []) = false
  /\ parseDataText (js "1,2" ++ [LF] ++ js "3 ,4")
     = Ok {| timeAxisName := js "X"; valueAxisName := js "Value";
             dataPoints := [(XNum (ofZ 1), ofZ 2); (XNum (ofZ 3), ofZ 4)] |}.
Proof. split; [|split; [|split]]; vm_compute; reflexivity. Qed.

(** ** Header labels *)

(** C3: when the first row is detected as a header, each axis name that
    comes back is the header token itself whenever that token is not
    empty; the input of the lines [Time,Temp], [2024-01-01,10] and
    [2024-01-02,12] gives the names Time and Temp and the points
    (2024-01-01T00:00:00Z, 10), (2024-01-02T00:00:00Z, 12). *)
Theorem header_labels :
  (forall text g r,
     dataRegion text = Ok g ->
     parseDataText text = Ok r ->
     isHeaderRow (columns g) (allRows g) = true ->
     let first := hd [] (allRows g) in
     (columns g = 2%nat -> nth 0 first [] <> [] ->
      timeAxisName r = nth 0 first [])
     /\ (columns g = 2%nat -> nth 1 first [] <> [] ->
         valueAxisName r = nth 1 first [])
     /\ (columns g = 1%nat -> nth 0 first [] <> [] ->
         valueAxisName r = nth 0 first []))
  /\ parseDataText (js "Time,Temp" ++ [LF] ++ js "2024-01-01,10" ++ [LF]
                    ++ js "2024-01-02,12")
     = Ok {| timeAxisName := js "Time"; valueAxisName := js "Temp";
             dataPoints := [(XDate (utcInstant 2024 1 1 0 0 0 0), ofZ 10);
                            (XDate (utcInstant 2024 1 2 0 0 0 0), ofZ 12)] |}.
Proof.
  split; [|vm_compute; reflexivity].
  intros text g r Hg Hr Hh first.
  apply parseDataText_Ok in Hr. destruct Hr as (g' & Hg' & _ & Ht & Hv).
  rewrite Hg in Hg'. inversion Hg'; subst g'; clear Hg'.
  apply dataRegion_Ok in Hg. destruct Hg as (d & _ & _ & _ & _ & Hax & _).
  unfold axisNames in Hax. rewrite Hh in Hax. fold first in Hax.
  assert (D : forall s dflt, s <> [] -> orDefault s dflt = s)
    by (intros [|c s] dflt N; [congruence | reflexivity]).
  split; [|split]; intros Hcols Hne; rewrite Hcols in Hax; cbn [Nat.eqb] in Hax;
    inversion Hax as [[Et Ev Es]].
  - rewrite Ht, <- Et. apply D, Hne.
  - rewrite Hv, <- Ev. apply D, Hne.
  - rewrite Hv, <- Ev. apply D, Hne.
Qed.

Lemma header_labels_witness :
  valueAxisName {| timeAxisName := js "Index"; valueAxisName := js "Temp";
                   dataPoints := [(XIndex 0, ofZ 10)] |}
  = nth 0 (hd [] [[js "Temp"]; [js "10"]]) [].
Proof.
  apply (proj2 (proj2 (proj1 header_labels (js "Temp" ++ [LF] ++ js "10")
           {| columns := 1; timeName := js "Index"; valueName := js "Temp";
              startIdx := 1; allRows := [[js "Temp"]; [js "10"]];
              dataRows := [[js "10"]] |}
           {| timeAxisName := js "Index"; valueAxisName := js "Temp";
              dataPoints := [(XIndex 0, ofZ 10)] |}
           ltac:(vm_compute; reflexivity) ltac:(vm_compute; reflexivity)
           ltac:(vm_compute; reflexivity)))).
  - reflexivity.
  - discriminate.
Defined.

(** ** Trimming: where it is applied and where it is not *)

(** C10: the header test reads the tokens as split, the loops read them
    trimmed.  A second token that is a finite-number string only after
    trimming makes the first row a header; so the row [1, 2] is taken as a
    header although both of its fields pass the numeric test of the loops. *)
Theorem untrimmed_header_detection :
  (forall a b rest,
     isFiniteNumberString (trim b) = true -> trim b <> b ->
     isHeaderRow 2 ([a; b] :: rest) = true)
  /\ split COMMA (js "1, 2") = [js "1"; js " 2"]
  /\ isHeaderRow 2 [[js "1"; js " 2"]] = true
  /\ isFiniteNumberString (field 0 [js "1"; js " 2"]) = true
  /\ isFiniteNumberString (field 1 [js "1"; js " 2"]) = true
  /\ parseDataText (js "1, 2") = Err NoDataRows
  /\ parseDataText (js "1, 2" ++ [LF] ++ js "3, 4")
     = Ok {| timeAxisName := js "1"; valueAxisName := js " 2";
             dataPoints := [(XNum (ofZ 3), ofZ 4)] |}.
Proof.
  split; [|repeat (split; [vm_compute; reflexivity|]); vm_compute; reflexivity].
  intros a b rest Hb Hne. unfold isHeaderRow. cbn [Nat.eqb hd nth].
  destruct (isFiniteNumberString b) eqn:E.
  - exfalso. apply Hne. apply isFiniteNumberString_trim, E.
  - rewrite andb_false_r. reflexivity.
Qed.

Lemma untrimmed_header_detection_witness :
  isHeaderRow 2 ([js "1"; js " 2"] :: [[js "3"; js " 4"]]) = true.
Proof.
  apply (proj1 untrimmed_header_detection (js "1") (js " 2") [[js "3"; js " 4"]]).
  - vm_compute. reflexivity.
  - vm_compute. discriminate.
Defined.

(** * Further properties of the parser *)

(** ** The pipeline, stage by stage *)

Lemma parse_no_lines (text : jsstring) :
  normalize text = [] -> parseDataText text = Err NoDataLines.
Proof.
  intro H. unfold parseDataText, dataRegion. rewrite H. reflexivity.
Qed.

Lemma parse_detect_error (text : jsstring) (e : parseError) :
  normalize text <> [] ->
  detectDelimiter (normalize text) = Err e ->
  parseDataText text = Err e.
Proof.
  intros Hne H. unfold parseDataText, dataRegion.
  apply length_zero_nil in Hne. rewrite Hne, H. reflexivity.
Qed.

Lemma parse_columns_error (text : jsstring) (d : option delimiter) (e : parseError) :
  normalize text <> [] ->
  detectDelimiter (normalize text) = Ok d ->
  checkColumns d (tokenize d (normalize text)) = Err e ->
  parseDataText text = Err e.
Proof.
  intros Hne Hd H. unfold parseDataText, dataRegion.
  apply length_zero_nil in Hne. rewrite Hne, Hd. cbn [guard bind].
  rewrite H. reflexivity.
Qed.

Lemma parse_rows (text : jsstring) (d : option delimiter) (cols : nat) :
  normalize text <> [] ->
  detectDelimiter (normalize text) = Ok d ->
  checkColumns d (tokenize d (normalize text)) = Ok cols ->
  parseDataText text = parseRows cols (tokenize d (normalize text)).
Proof.
  intros Hne Hd Hc. unfold parseDataText, dataRegion, parseRows.
  pose proof (checkColumns_Ok _ _ _ Hc (tokenize_nil d _ Hne)) as (HF & _).
  apply length_zero_nil in Hne. rewrite Hne, Hd. cbn [guard bind].
  rewrite Hc. cbn [bind].
  destruct (axisNames cols (tokenize d (normalize text))) as [[tn vn] st].
  destruct (Nat.eqb (List.length (skipn st (tokenize d (normalize text)))) 0);
    [reflexivity|].
  cbn [guard bind].
  rewrite (checkWidths_Forall cols _ (Forall_skipn _ st _ HF)). reflexivity.
Qed.

Lemma parseRows_Err (cols : nat) (rows : list (list jsstring)) (e : parseError) :
  parseRows cols rows = Err e -> e = NoDataRows \/ rowError e.
Proof.
  unfold parseRows. destruct (axisNames cols rows) as [[tn vn] st].
  destruct (Nat.eqb (List.length (skipn st rows)) 0).
  - intro H; inversion H; auto.
  - intro H. apply bind_Err in H. destruct H as [H|(p & _ & H)]; [|discriminate].
    right. eapply coerce_Err; eauto.
Qed.

(** ** Tokens and delimiters *)

Lemma split_nonempty (sep : char16) (s : jsstring) : split sep s <> [].
Proof.
  destruct s as [|c s]; simpl; [discriminate|].
  destruct (N.eqb c sep); [discriminate|].
  destruct (split sep s); discriminate.
Qed.

Lemma split_length (sep : char16) (s : jsstring) :
  List.length (split sep s) = S (countChar sep s).
Proof.
  unfold countChar. induction s as [|c s IH]; simpl; [reflexivity|].
  rewrite (N.eqb_sym sep c). destruct (N.eqb c sep); simpl.
  - rewrite IH. reflexivity.
  - pose proof (split_nonempty sep s) as N.
    destruct (split sep s) as [|t ts]; [congruence | exact IH].
Qed.

Lemma includes_countChar (s : jsstring) (c : char16) :
  includes s c = (0 <? countChar c s)%nat.
Proof.
  unfold includes, countChar. rewrite filter_nonempty. reflexivity.
Qed.

Lemma tokenize_lengths (d : option delimiter) (lines : list jsstring) :
  map (@List.length jsstring) (tokenize d lines)
  = map (fun l => S (delimiterCount d l)) lines.
Proof.
  unfold tokenize. rewrite map_map. apply map_ext. intro l.
  destruct d as [c|]; [apply split_length | reflexivity].
Qed.

Lemma detected_delimiter_occurs (lines : list jsstring) (c : delimiter) :
  detectDelimiter lines = Ok (Some c) ->
  exists l, In l lines /\ (0 < delimiterCount (Some c) l)%nat.
Proof.
  rewrite detectDelimiter_spec.
  destruct (existsb hasBoth lines); [discriminate|].
  destruct (existsb hasComma lines) eqn:Ec, (existsb hasTab lines) eqn:Et;
    cbn [andb]; intro H; inversion H; subst c.
  - apply existsb_exists in Ec. destruct Ec as (l & Hl & Hc). exists l.
    split; [exact Hl|]. unfold hasComma in Hc. rewrite includes_countChar in Hc.
    apply Nat.ltb_lt in Hc. exact Hc.
  - apply existsb_exists in Et. destruct Et as (l & Hl & Hc). exists l.
    split; [exact Hl|]. unfold hasTab in Hc. rewrite includes_countChar in Hc.
    apply Nat.ltb_lt in Hc. exact Hc.
Qed.

Lemma nodup_all_equal (l : list nat) :
  (forall x y, In x l -> In y l -> x = y) ->
  (List.length (nodup Nat.eq_dec l) <= 1)%nat.
Proof.
  induction l as [|a l IH]; intro H; simpl; [lia|].
  destruct (in_dec Nat.eq_dec a l) as [Hin|Hout].
  - apply IH. intros x y Hx Hy. apply H; right; assumption.
  - destruct l as [|b l']; [simpl; lia|].
    exfalso. apply Hout. left. apply H; [right; left; reflexivity | left; reflexivity].
Qed.

Lemma colCountsSize_spec (rows : list (list jsstring)) :
  (1 <? colCountsSize rows)%nat = false
  <-> forall r1 r2, In r1 rows -> In r2 rows -> List.length r1 = List.length r2.
Proof.
  unfold colCountsSize. rewrite Nat.ltb_ge. split.
  - intros H r1 r2 H1 H2. apply (nodup_short _ H); apply in_map; assumption.
  - intro H. apply nodup_all_equal. intros x y Hx Hy.
    apply in_map_iff in Hx, Hy.
    destruct Hx as (r1 & <- & H1), Hy as (r2 & <- & H2). auto.
Qed.

(** ** An ISO string has nothing for [trim] to strip *)

Lemma trim_edges (c : char16) (s : jsstring) :
  plainChar c -> lastPlain (c :: s) -> trim (c :: s) = c :: s.
Proof.
  intros Hc (s' & c' & E & Hc'). unfold trim, trimEnd.
  rewrite (trimStart_plain (c :: s)) by exact Hc.
  rewrite E, rev_app_distr. cbn [rev app].
  rewrite trimStart_plain by exact Hc'.
  change (c' :: rev s') with (rev [c'] ++ rev s').
  rewrite <- rev_app_distr, rev_involutive. reflexivity.
Qed.

Lemma digit_plain (c : char16) : isDigit c = true -> plainChar c.
Proof. intro H. apply numChar_plain. left. exact H. Qed.

Lemma digits_lastPlain (ds : jsstring) :
  allDigits ds -> ds <> [] -> lastPlain ds.
Proof.
  intros H Hne. destruct (exists_last Hne) as (s' & c & ->).
  exists s', c. split; [reflexivity|].
  apply Forall_app in H. destruct H as [_ H]. inversion H; subst.
  apply digit_plain. assumption.
Qed.

Lemma digitGroup_lastPlain (n : nat) (ds : jsstring) :
  digitGroup (S n) ds -> lastPlain ds.
Proof.
  intros [H L]. apply digits_lastPlain; [exact H|].
  destruct ds; [discriminate | discriminate].
Qed.

Lemma lastPlain_app (a b : jsstring) : lastPlain b -> lastPlain (a ++ b).
Proof.
  intros (s' & c & -> & H). exists (a ++ s'), c. rewrite app_assoc. auto.
Qed.

Lemma lastPlain_cons (c : char16) (b : jsstring) : lastPlain b -> lastPlain (c :: b).
Proof. apply (lastPlain_app [c]). Qed.

Lemma expect_spec (c : char16) (s s' : jsstring) :
  expect c s = Some s' -> s = c :: s'.
Proof.
  unfold expect. destruct s as [|c' r]; [discriminate|].
  destruct (N.eqb_spec c' c); intro H; inversion H; subst; reflexivity.
Qed.

Lemma matchZone_end (s : jsstring) (tz : option jsstring) :
  matchZone s = Some tz -> s = [] \/ lastPlain s.
Proof.
  unfold matchZone. destruct s as [|c s1]; [auto|]. right.
  destruct (N.eqb_spec c 90) as [->|Hc].
  { destruct s1; [|discriminate]. exists [], 90%N. split; reflexivity. }
  destruct (isSign c); [|discriminate].
  destruct (digitsN 2 s1) as [[zh s2]|] eqn:E1; [|discriminate].
  destruct (expect COLON s2) as [s3|] eqn:E2; [|discriminate].
  destruct (digitsN 2 s3) as [[zm [|? ?]]|] eqn:E3; try discriminate.
  apply digitsN_spec in E1. destruct E1 as (-> & _).
  apply expect_spec in E2. subst s2.
  pose proof (digitsN_group _ _ _ _ E3) as G.
  apply digitsN_spec in E3. destruct E3 as (-> & _).
  rewrite app_nil_r.
  apply lastPlain_cons, lastPlain_app, lastPlain_cons.
  eapply digitGroup_lastPlain; eauto.
Qed.

Lemma matchSeconds_end (s r : jsstring) (se ms : option jsstring) :
  matchSeconds s = (se, ms, r) ->
  exists pre, s = pre ++ r /\ (pre = [] \/ lastPlain pre).
Proof.
  unfold matchSeconds.
  assert (Z : exists pre, s = pre ++ s /\ (pre = [] \/ lastPlain pre))
    by (exists []; auto).
  destruct (expect COLON s) as [s1|] eqn:E0;
    [|intro H; inversion H; subst; exact Z].
  destruct (digitsN 2 s1) as [[se' s2]|] eqn:E1;
    [|intro H; inversion H; subst; exact Z].
  apply expect_spec in E0. subst s.
  pose proof (digitsN_group _ _ _ _ E1) as G1.
  apply digitsN_spec in E1. destruct E1 as (-> & _).
  assert (S2 : exists pre, COLON :: se' ++ s2 = pre ++ s2 /\ (pre = [] \/ lastPlain pre)).
  { exists (COLON :: se'). split; [reflexivity|]. right.
    apply lastPlain_cons. eapply digitGroup_lastPlain; eauto. }
  destruct (expect DOT s2) as [s3|] eqn:E2;
    [|intro H; inversion H; subst; exact S2].
  destruct (digitsUpTo 3 s3) as [[|c ms'] s4] eqn:E3;
    intro H; inversion H; subst; [exact S2|].
  apply expect_spec in E2. subst s2.
  apply digitsUpTo_spec in E3. destruct E3 as (-> & _ & HF).
  exists (COLON :: se' ++ DOT :: c :: ms'). split.
  - cbn [app]. rewrite <- app_assoc. reflexivity.
  - right. apply lastPlain_cons, lastPlain_app, lastPlain_cons.
    apply digits_lastPlain; [exact HF | discriminate].
Qed.

Lemma ISO_RE_trim (s : jsstring) (m : isoGroups) :
  ISO_RE_exec s = Some m -> trim s = s.
Proof.
  unfold ISO_RE_exec.
  destruct (digitsN 4 s) as [[Y s1]|] eqn:EY; [|discriminate].
  destruct (expect MINUS s1) as [s2|] eqn:X1; [|discriminate].
  destruct (digitsN 2 s2) as [[Mo s3]|] eqn:EMo; [|discriminate].
  destruct (expect MINUS s3) as [s4|] eqn:X2; [|discriminate].
  destruct (digitsN 2 s4) as [[D s5]|] eqn:ED; [|discriminate].
  pose proof (digitsN_group _ _ _ _ ED) as GD.
  apply digitsN_spec in EY, EMo, ED.
  destruct EY as (-> & LY & FY), EMo as (-> & _), ED as (-> & _).
  apply expect_spec in X1, X2. subst s1 s3.
  assert (first : forall tl, lastPlain (Y ++ MINUS :: Mo ++ MINUS :: D ++ tl) ->
                  trim (Y ++ MINUS :: Mo ++ MINUS :: D ++ tl)
                  = Y ++ MINUS :: Mo ++ MINUS :: D ++ tl).
  { intros tl HL. destruct Y as [|y Y']; [discriminate|].
    inversion FY; subst. cbn [app] in *.
    apply trim_edges; [apply digit_plain; assumption | exact HL]. }
  assert (upto : forall tl, tl = [] \/ lastPlain tl ->
                 (tl = [] -> lastPlain (MINUS :: D)) ->
                 lastPlain (Y ++ MINUS :: Mo ++ MINUS :: D ++ tl)).
  { intros tl [->|HL] HD.
    - rewrite app_nil_r. apply lastPlain_app, lastPlain_cons, lastPlain_app.
      apply HD. reflexivity.
    - apply lastPlain_app, lastPlain_cons, lastPlain_app, lastPlain_cons,
        lastPlain_app, HL. }
  assert (LD : lastPlain (MINUS :: D))
    by (apply lastPlain_cons; eapply digitGroup_lastPlain; eauto).
  destruct s5 as [|c s6].
  { intros _. apply first, upto; auto. }
  destruct (N.eqb c 84 || isWhiteSpace c); [|discriminate].
  destruct (digitsN 2 s6) as [[h s7]|] eqn:Eh; [|discriminate].
  destruct (expect COLON s7) as [s8|] eqn:X3; [|discriminate].
  destruct (digitsN 2 s8) as [[mi s9]|] eqn:Emi; [|discriminate].
  destruct (matchSeconds s9) as [[se ms] s10] eqn:Ese.
  destruct (matchZone s10) as [tz|] eqn:Etz; [|discriminate].
  intros _.
  pose proof (digitsN_group _ _ _ _ Emi) as Gmi.
  apply digitsN_spec in Eh, Emi. destruct Eh as (-> & _), Emi as (-> & _).
  apply expect_spec in X3. subst s7.
  apply matchSeconds_end in Ese. destruct Ese as (pre & -> & Hpre).
  apply matchZone_end in Etz.
  apply first, upto; [right | discriminate].
  apply lastPlain_cons, lastPlain_app, lastPlain_cons.
  destruct Etz as [->|HL].
  - rewrite app_nil_r. destruct Hpre as [->|HL].
    + rewrite app_nil_r. eapply digitGroup_lastPlain; eauto.
    + apply lastPlain_app, HL.
  - apply lastPlain_app, lastPlain_app, HL.
Qed.

Lemma ISO_RE_test_trim (s : jsstring) : ISO_RE_test s = true -> trim s = s.
Proof.
  unfold ISO_RE_test. destruct (ISO_RE_exec s) as [m|] eqn:E; [|discriminate].
  intros _. eapply ISO_RE_trim; eauto.
Qed.

(** ** Where a coercion loop stops *)

Lemma coerceSingle_stop (s i : nat) (rows : list (list jsstring)) (e : parseError) :
  coerceSingle s i rows = Err e ->
  exists good bad rest,
    rows = good ++ bad :: rest
    /\ forallb (rowOk 1 false) good = true /\ rowOk 1 false bad = false
    /\ e = rowFault 1 false (s + i + List.length good + 1) bad.
Proof.
  revert i; induction rows as [|r rs IH]; simpl; intros i H; [discriminate|].
  destruct (isFiniteNumberString (trim (nth 0 r []))) eqn:Ey.
  - rewrite (isFiniteNumberString_isFinite _ Ey) in H. simpl in H.
    destruct (coerceSingle s (S i) rs) as [ps|e'] eqn:Er; [discriminate|].
    inversion H; subst e'; clear H.
    destruct (IH _ Er) as (good & bad & rest & -> & Hg & Hb & ->).
    exists (r :: good), bad, rest. repeat split; auto.
    + cbn [forallb]. unfold rowOk at 1. cbn [Nat.eqb]. unfold field.
      rewrite Ey, Hg. reflexivity.
    + cbn [List.length]. f_equal. lia.
  - simpl in H. inversion H; subst e; clear H.
    exists [], r, rs. repeat split; auto.
    cbn [List.length]. unfold rowFault. cbn [Nat.eqb]. unfold field. f_equal. lia.
Qed.

Lemma coerceNumeric_stop (s i : nat) (rows : list (list jsstring)) (e : parseError) :
  coerceNumeric s i rows = Err e ->
  exists good bad rest,
    rows = good ++ bad :: rest
    /\ forallb (rowOk 2 false) good = true /\ rowOk 2 false bad = false
    /\ e = rowFault 2 false (s + i + List.length good + 1) bad.
Proof.
  revert i; induction rows as [|r rs IH]; simpl; intros i H; [discriminate|].
  destruct (isFiniteNumberString (trim (nth 0 r []))) eqn:Ex;
    [destruct (isFiniteNumberString (trim (nth 1 r []))) eqn:Ey|].
  - rewrite (isFiniteNumberString_isFinite _ Ex),
      (isFiniteNumberString_isFinite _ Ey) in H. simpl in H.
    destruct (coerceNumeric s (S i) rs) as [ps|e'] eqn:Er; [discriminate|].
    inversion H; subst e'; clear H.
    destruct (IH _ Er) as (good & bad & rest & -> & Hg & Hb & ->).
    exists (r :: good), bad, rest. repeat split; auto.
    + cbn [forallb]. unfold rowOk at 1. cbn [Nat.eqb]. unfold field.
      rewrite Ex, Ey, Hg. reflexivity.
    + cbn [List.length]. f_equal. lia.
  - simpl in H. inversion H; subst e; clear H.
    exists [], r, rs. repeat split; auto.
    + unfold rowOk. cbn [Nat.eqb]. unfold field. rewrite Ex, Ey. reflexivity.
    + cbn [List.length]. unfold rowFault. cbn [Nat.eqb]. unfold field.
      rewrite Ex. f_equal. lia.
  - simpl in H. inversion H; subst e; clear H.
    exists [], r, rs. repeat split; auto.
    + unfold rowOk. cbn [Nat.eqb]. unfold field. rewrite Ex. reflexivity.
    + cbn [List.length]. unfold rowFault. cbn [Nat.eqb]. unfold field.
      rewrite Ex. f_equal. lia.
Qed.

Lemma coerceDated_stop (s i : nat) (rows : list (list jsstring)) (e : parseError) :
  coerceDated s i rows = Err e ->
  exists good bad rest,
    rows = good ++ bad :: rest
    /\ forallb (rowOk 2 true) good = true /\ rowOk 2 true bad = false
    /\ e = rowFault 2 true (s + i + List.length good + 1) bad.
Proof.
  revert i; induction rows as [|r rs IH]; simpl; intros i H; [discriminate|].
  destruct (parseIsoToDate (trim (nth 0 r []))) as [d|] eqn:Ed;
    [destruct (isFiniteNumberString (trim (nth 1 r []))) eqn:Ey|].
  - rewrite (isFiniteNumberString_isFinite _ Ey) in H. simpl in H.
    destruct (coerceDated s (S i) rs) as [ps|e'] eqn:Er; [discriminate|].
    inversion H; subst e'; clear H.
    destruct (IH _ Er) as (good & bad & rest & -> & Hg & Hb & ->).
    exists (r :: good), bad, rest. repeat split; auto.
    + cbn [forallb]. unfold rowOk at 1. cbn [Nat.eqb]. unfold field.
      rewrite Ed, Ey, Hg. reflexivity.
    + cbn [List.length]. f_equal. lia.
  - simpl in H. inversion H; subst e; clear H.
    exists [], r, rs. repeat split; auto.
    + unfold rowOk. cbn [Nat.eqb]. unfold field. rewrite Ed, Ey. reflexivity.
    + cbn [List.length]. unfold rowFault. cbn [Nat.eqb]. unfold field.
      rewrite Ed. f_equal. lia.
  - inversion H; subst e; clear H.
    exists [], r, rs. repeat split; auto.
    + unfold rowOk. cbn [Nat.eqb]. unfold field. rewrite Ed. reflexivity.
    + cbn [List.length]. unfold rowFault. cbn [Nat.eqb]. unfold field.
      rewrite Ed. f_equal. lia.
Qed.

Lemma rowOk_cols (cols : nat) (dated : bool) (r : list jsstring) :
  cols <> 1%nat -> rowOk cols dated r = rowOk 2 dated r.
Proof.
  intro H. unfold rowOk. destruct (Nat.eqb_spec cols 1); [congruence | reflexivity].
Qed.

Lemma rowFault_cols (cols : nat) (dated : bool) (n : nat) (r : list jsstring) :
  cols <> 1%nat -> rowFault cols dated n r = rowFault 2 dated n r.
Proof.
  intro H. unfold rowFault. destruct (Nat.eqb_spec cols 1); [congruence | reflexivity].
Qed.

Lemma forallb_ext_eq {A} (f g : A -> bool) (l : list A) :
  (forall a, f a = g a) -> forallb f l = forallb g l.
Proof.
  intro H. induction l as [|a l IH]; simpl; [reflexivity | rewrite H, IH; reflexivity].
Qed.

(** A failing coercion stops at the first row that does not pass. *)
Lemma coerce_stop (cols s : nat) (rows : list (list jsstring)) (e : parseError) :
  coerce cols s rows = Err e ->
  exists good bad rest,
    rows = good ++ bad :: rest
    /\ forallb (rowOk cols (xAreDates cols rows)) good = true
    /\ rowOk cols (xAreDates cols rows) bad = false
    /\ e = rowFault cols (xAreDates cols rows) (s + List.length good + 1) bad.
Proof.
  unfold coerce. destruct (Nat.eqb_spec cols 1) as [->|N].
  - intro H. apply coerceSingle_stop in H.
    destruct H as (good & bad & rest & -> & Hg & Hb & ->).
    exists good, bad, rest. rewrite Nat.add_0_r. repeat split; auto.
  - assert (F : forall b good, forallb (rowOk cols b) good = forallb (rowOk 2 b) good)
      by (intros b good; apply forallb_ext_eq; intro r; apply rowOk_cols, N).
    destruct (xAreDates cols rows); intro H;
      [apply coerceDated_stop in H | apply coerceNumeric_stop in H];
      destruct H as (good & bad & rest & -> & Hg & Hb & ->);
      exists good, bad, rest; rewrite Nat.add_0_r, F;
      rewrite (rowOk_cols cols _ bad N), (rowFault_cols cols _ _ bad N);
      repeat split; auto.
Qed.

(** In a dated column every first field does parse: the loop reads the
    token trimmed, the decision was taken on the token as split, and the
    two agree on an ISO string. *)
Lemma dated_rows_parse (rows : list (list jsstring)) (r : list jsstring) :
  xAreDates 2 rows = true -> In r rows ->
  exists t, parseIsoToDate (field 0 r) = Some t.
Proof.
  rewrite xAreDates_spec. intros H Hin.
  rewrite forallb_forall in H. specialize (H r Hin). cbv beta in H.
  unfold field. rewrite (ISO_RE_test_trim (nth 0 r []) H).
  pose proof (parseIsoToDate_test (nth 0 r [])) as T.
  destruct (parseIsoToDate (nth 0 r [])) as [t|]; [eauto|].
  discriminate (eq_trans T H).
Qed.

Lemma xAreDates_cols (cols : nat) (rows : list (list jsstring)) :
  xAreDates cols rows = true -> cols = 2%nat.
Proof.
  unfold xAreDates. destruct (Nat.eqb_spec cols 2); [auto | discriminate].
Qed.

(** The stages of a parse, as one case analysis. *)
Lemma parse_cases (text : jsstring) :
  (normalize text = [] /\ parseDataText text = Err NoDataLines)
  \/ (normalize text <> []
      /\ ((exists e, detectDelimiter (normalize text) = Err e
                     /\ parseDataText text = Err e)
          \/ exists d, detectDelimiter (normalize text) = Ok d
               /\ ((exists e, checkColumns d (tokenize d (normalize text)) = Err e
                              /\ parseDataText text = Err e)
                   \/ exists cols,
                        checkColumns d (tokenize d (normalize text)) = Ok cols
                        /\ parseDataText text
                           = parseRows cols (tokenize d (normalize text))))).
Proof.
  destruct (normalize text) as [|l ls] eqn:E.
  - left. split; [reflexivity | apply parse_no_lines, E].
  - right. assert (Hne : normalize text <> []) by (rewrite E; discriminate).
    rewrite <- E. split; [exact Hne|].
    destruct (detectDelimiter (normalize text)) as [d|e] eqn:Ed.
    + right. exists d. split; [reflexivity|].
      destruct (checkColumns d (tokenize d (normalize text))) as [cols|e] eqn:Ec.
      * right. exists cols. split; [reflexivity | apply parse_rows; assumption].
      * left. exists e. split; [reflexivity | eapply parse_columns_error; eauto].
    + left. exists e. split; [reflexivity | apply parse_detect_error; assumption].
Qed.

Lemma detectDelimiter_Err (lines : list jsstring) (e : parseError) :
  detectDelimiter lines = Err e ->
  e = MixedDelimitersInLine \/ e = MixedDelimitersAcrossLines.
Proof.
  rewrite detectDelimiter_spec.
  destruct (existsb hasBoth lines); [intro H; inversion H; auto|].
  destruct (existsb hasComma lines && existsb hasTab lines);
    intro H; inversion H; auto.
Qed.

(** ** The errors that are never raised *)

Lemma hd_In {A} (d : A) (l : list A) : l <> [] -> In (hd d l) l.
Proof. destruct l; [congruence | left; reflexivity]. Qed.

Lemma checkColumns_no_mismatch (d : option delimiter) (lines : list jsstring) :
  lines <> [] ->
  detectDelimiter lines = Ok d ->
  checkColumns d (tokenize d lines) <> Err DelimiterColumnMismatch.
Proof.
  intros Hne Hd H. unfold checkColumns in H.
  destruct (1 <? colCountsSize (tokenize d lines))%nat eqn:Es; [discriminate H|].
  cbn [guard bind] in H.
  destruct (negb (Nat.eqb (List.length (hd [] (tokenize d lines))) 1)
            && negb (Nat.eqb (List.length (hd [] (tokenize d lines))) 2)) eqn:E12;
    [discriminate H|].
  cbn [guard bind] in H.
  destruct d as [c|]; [|discriminate H].
  destruct (Nat.eqb_spec (List.length (hd [] (tokenize (Some c) lines))) 2) as [E2|N2];
    [discriminate H|].
  clear H. rewrite andb_false_iff, !negb_false_iff in E12.
  destruct E12 as [E1|E2]; [|discriminate E2].
  apply Nat.eqb_eq in E1.
  destruct (detected_delimiter_occurs _ _ Hd) as (l & Hl & Hc).
  pose proof (proj1 (colCountsSize_spec _) Es
                (split (delimiterChar c) l) (hd [] (tokenize (Some c) lines))) as Eq.
  rewrite E1, split_length in Eq. unfold delimiterCount in Hc.
  assert (S (countChar (delimiterChar c) l) = 1%nat); [|lia].
  apply Eq.
  - unfold tokenize. apply in_map_iff. exists l. auto.
  - apply hd_In, tokenize_nil, Hne.
Qed.

Lemma rowFault_raisable (cols : nat) (dated : bool) (n : nat) (r : list jsstring) :
  (dated = true -> exists t, parseIsoToDate (field 0 r) = Some t) ->
  raisable (rowFault cols dated n r) = true.
Proof.
  intro H. unfold rowFault. destruct (Nat.eqb cols 1); [reflexivity|].
  destruct dated.
  - destruct (H eq_refl) as [t ->]. reflexivity.
  - destruct (isFiniteNumberString (field 0 r)); reflexivity.
Qed.

Lemma coerce_raisable (cols s : nat) (rows : list (list jsstring)) (e : parseError) :
  coerce cols s rows = Err e -> raisable e = true.
Proof.
  intro H. apply coerce_stop in H.
  destruct H as (good & bad & rest & E & _ & _ & ->).
  apply rowFault_raisable. intro Hd.
  pose proof (xAreDates_cols _ _ Hd) as ->.
  apply (dated_rows_parse rows bad Hd). rewrite E.
  apply in_or_app. right. left. reflexivity.
Qed.

(** X1: a parse can only end in one of eight errors.  The four defensive
    tests of the source never fire: a detected delimiter always gives two
    columns or more, the data rows always have the detected width, a first
    field of a dated column always parses, and a field that passed the
    finite-number test is finite. *)
Theorem only_eight_errors (text : jsstring) (e : parseError) :
  parseDataText text = Err e -> raisable e = true.
Proof.
  intro H.
  destruct (parse_cases text) as [[_ P]|[Hne [(e' & Hd & P)|(d & Hd & [(e' & Hc & P)|(cols & Hc & P)])]]];
    rewrite P in H.
  - inversion H; reflexivity.
  - inversion H; subst e'. apply detectDelimiter_Err in Hd.
    destruct Hd as [-> | ->]; reflexivity.
  - inversion H; subst e'.
    destruct (checkColumns_Err _ _ _ Hc) as [->|[->| ->]]; try reflexivity.
    exfalso. eapply checkColumns_no_mismatch; eauto.
  - unfold parseRows in H.
    destruct (axisNames cols (tokenize d (normalize text))) as [[tn vn] st].
    destruct (Nat.eqb (List.length (skipn st (tokenize d (normalize text)))) 0);
      [inversion H; reflexivity|].
    apply bind_Err in H. destruct H as [H|(p & _ & H)]; [|discriminate H].
    eapply coerce_raisable; eauto.
Qed.

Lemma only_eight_errors_witness :
  raisable (InvalidY 2 (js "x")) = true.
Proof.
  apply (only_eight_errors (js "1,2" ++ [LF] ++ js "3,x")).
  vm_compute. reflexivity.
Defined.

(** ** The row an error names *)

Lemma parse_row_error (text : jsstring) (e : parseError) :
  parseDataText text = Err e -> rowError e ->
  exists g good bad rest,
    dataRegion text = Ok g
    /\ dataRows g = good ++ bad :: rest
    /\ forallb (rowOk (columns g) (xAreDates (columns g) (dataRows g))) good = true
    /\ rowOk (columns g) (xAreDates (columns g) (dataRows g)) bad = false
    /\ e = rowFault (columns g) (xAreDates (columns g) (dataRows g))
             (startIdx g + List.length good + 1) bad.
Proof.
  intros H He. apply parseDataText_Err in H. destruct H as [H|(g & Hg & H)].
  - exfalso. apply dataRegion_Err in H.
    destruct H as [[_ ->]|[[_ H]|[_ H]]]; [exact He | |].
    + apply detectDelimiter_Err in H. destruct H as [-> | ->]; exact He.
    + destruct H as [->|[->|[->| ->]]]; exact He.
  - apply coerce_stop in H. destruct H as (good & bad & rest & E & Hg1 & Hb & ->).
    exists g, good, bad, rest. auto.
Qed.

Lemma nth_error_split {A} (l1 : list A) (a : A) (l2 : list A) :
  nth_error (l1 ++ a :: l2) (List.length l1) = Some a.
Proof. induction l1; simpl; auto. Qed.

Lemma nth_error_skipn_shift {A} (n i : nat) (l : list A) :
  nth_error (skipn n l) i = nth_error l (n + i).
Proof.
  revert l; induction n as [|n IH]; intro l; [reflexivity|].
  destruct l as [|a l]; simpl; [destruct i; reflexivity | apply IH].
Qed.

Lemma invalid_field_location (text : jsstring) (n k : nat) (raw : jsstring) :
  parseDataText text = Err (if Nat.eqb k 0 then InvalidX n raw else InvalidY n raw) ->
  exists g good bad rest,
    dataRegion text = Ok g
    /\ dataRows g = good ++ bad :: rest
    /\ n = (startIdx g + List.length good + 1)%nat
    /\ nth_error (allRows g) (n - 1) = Some bad
    /\ forallb (rowOk (columns g) (xAreDates (columns g) (dataRows g))) good = true
    /\ isFiniteNumberString raw = false
    /\ raw = (if Nat.eqb k 0 then field 0 bad else field (columns g - 1) bad)
    /\ (Nat.eqb k 0 = true -> columns g = 2%nat).
Proof.
  intro H. apply parse_row_error in H; [|destruct (Nat.eqb k 0); exact I].
  destruct H as (g & good & bad & rest & Hg & E & Hgood & Hbad & Hf).
  pose proof (dataRegion_widths _ _ Hg) as (_ & _ & Hcols).
  pose proof (dataRegion_Ok _ _ Hg) as (d & _ & _ & _ & _ & _ & Hdata & _).
  exists g, good, bad, rest.
  assert (Hnth : nth_error (allRows g) (startIdx g + List.length good) = Some bad).
  { rewrite <- nth_error_skipn_shift, <- Hdata, E. apply nth_error_split. }
  unfold rowFault, rowOk in *.
  destruct Hcols as [C|C]; rewrite C in *; cbn [Nat.eqb Nat.sub] in *.
  - destruct (Nat.eqb k 0); inversion Hf; subst.
    repeat split; auto; try discriminate.
    replace (startIdx g + List.length good + 1 - 1)%nat
      with (startIdx g + List.length good)%nat by lia. exact Hnth.
  - destruct (xAreDates 2 (dataRows g)) eqn:Ed.
    + destruct (parseIsoToDate (field 0 bad)) eqn:Ep;
        destruct (Nat.eqb k 0); inversion Hf; subst.
      cbn [andb] in Hbad. repeat split; auto.
      replace (startIdx g + List.length good + 1 - 1)%nat
        with (startIdx g + List.length good)%nat by lia. exact Hnth.
    + destruct (isFiniteNumberString (field 0 bad)) eqn:Ex;
        destruct (Nat.eqb k 0); inversion Hf; subst;
        cbn [andb] in Hbad; repeat split; auto;
        replace (startIdx g + List.length good + 1 - 1)%nat
          with (startIdx g + List.length good)%nat by lia; exact Hnth.
Qed.

(** X2: the row number in an invalid-field error is the position, counted
    from 1 among the non-blank lines (header included), of the first data
    row that does not pass; the text in the error is the offending field,
    trimmed, and it is not a finite-number string.  An invalid-X error
    names the first field of a two-column row, an invalid-Y error the last
    field of its row. *)
Theorem invalid_field_names_first_bad_row (text : jsstring) (n : nat) (raw : jsstring) :
  parseDataText text = Err (InvalidX n raw)
  \/ parseDataText text = Err (InvalidY n raw) ->
  exists g good bad rest,
    dataRegion text = Ok g
    /\ dataRows g = good ++ bad :: rest
    /\ n = (startIdx g + List.length good + 1)%nat
    /\ nth_error (allRows g) (n - 1) = Some bad
    /\ forallb (rowOk (columns g) (xAreDates (columns g) (dataRows g))) good = true
    /\ isFiniteNumberString raw = false
    /\ (parseDataText text = Err (InvalidX n raw) ->
        columns g = 2%nat /\ raw = field 0 bad)
    /\ (parseDataText text = Err (InvalidY n raw) ->
        raw = field (columns g - 1) bad).
Proof.
  intros [H|H].
  - destruct (invalid_field_location text n 0 raw H)
      as (g & good & bad & rest & Hg & E & Hn & Hnth & Hgood & Hraw & Hf & Hc).
    exists g, good, bad, rest.
    repeat (split; [assumption|]). split.
    + intros _. split; [apply Hc; reflexivity | exact Hf].
    + intro H'. rewrite H in H'. discriminate H'.
  - destruct (invalid_field_location text n 1 raw H)
      as (g & good & bad & rest & Hg & E & Hn & Hnth & Hgood & Hraw & Hf & Hc).
    exists g, good, bad, rest.
    repeat (split; [assumption|]). split.
    + intro H'. rewrite H in H'. discriminate H'.
    + intros _. exact Hf.
Qed.

Lemma invalid_field_names_first_bad_row_witness :
  exists g good bad rest,
    dataRegion (js "t,v" ++ [LF] ++ js "1,2" ++ [LF] ++ js "3, x ") = Ok g
    /\ dataRows g = good ++ bad :: rest
    /\ 3%nat = (startIdx g + List.length good + 1)%nat
    /\ nth_error (allRows g) (3 - 1) = Some bad
    /\ forallb (rowOk (columns g) (xAreDates (columns g) (dataRows g))) good = true
    /\ isFiniteNumberString (js "x") = false
    /\ (parseDataText (js "t,v" ++ [LF] ++ js "1,2" ++ [LF] ++ js "3, x ")
        = Err (InvalidX 3 (js "x")) ->
        columns g = 2%nat /\ js "x" = field 0 bad)
    /\ (parseDataText (js "t,v" ++ [LF] ++ js "1,2" ++ [LF] ++ js "3, x ")
        = Err (InvalidY 3 (js "x")) ->
        js "x" = field (columns g - 1) bad).
Proof.
  apply (invalid_field_names_first_bad_row
           (js "t,v" ++ [LF] ++ js "1,2" ++ [LF] ++ js "3, x ") 3 (js "x")).
  right. vm_compute. reflexivity.
Defined.

(** ** The column-shape errors *)

Lemma nodup_long (l : list nat) :
  (1 < List.length (nodup Nat.eq_dec l))%nat ->
  exists x y, In x l /\ In y l /\ x <> y.
Proof.
  induction l as [|a l IH]; simpl; [lia|].
  destruct (in_dec Nat.eq_dec a l) as [Hin|Hout]; intro H.
  - destruct (IH H) as (x & y & Hx & Hy & N). exists x, y. auto.
  - simpl in H. destruct l as [|b l']; [simpl in H; lia|].
    exists a, b. repeat split; [left; reflexivity | right; left; reflexivity|].
    intros ->. apply Hout. left; reflexivity.
Qed.

Lemma checkColumns_spec (d : option delimiter) (lines : list jsstring) :
  lines <> [] ->
  detectDelimiter lines = Ok d ->
  checkColumns d (tokenize d lines) =
  if (1 <? colCountsSize (tokenize d lines))%nat then Err InconsistentColumnCounts
  else if (2 <=? delimiterCount d (hd [] lines))%nat then Err UnsupportedColumnCount
  else Ok (S (delimiterCount d (hd [] lines))).
Proof.
  intros Hne Hd.
  pose proof (checkColumns_no_mismatch d lines Hne Hd) as NM.
  assert (Hhd : List.length (hd [] (tokenize d lines)) = S (delimiterCount d (hd [] lines))).
  { destruct lines as [|l ls]; [congruence|]. cbn [tokenize map hd].
    destruct d as [c|]; [apply split_length | reflexivity]. }
  unfold checkColumns in *. rewrite Hhd in *.
  destruct (1 <? colCountsSize (tokenize d lines))%nat; [reflexivity|].
  cbn [guard bind] in *.
  destruct (delimiterCount d (hd [] lines)) as [|[|k]]; cbn [Nat.eqb negb andb Nat.leb] in *.
  - destruct d; cbn [guard bind] in *; [congruence | reflexivity].
  - destruct d; reflexivity.
  - reflexivity.
Qed.

Lemma parse_column_error_iff (text : jsstring) (d : option delimiter) (e : parseError) :
  normalize text <> [] ->
  detectDelimiter (normalize text) = Ok d ->
  columnError e ->
  (parseDataText text = Err e
   <-> checkColumns d (tokenize d (normalize text)) = Err e).
Proof.
  intros Hne Hd He. split; intro H.
  - destruct (checkColumns d (tokenize d (normalize text))) as [cols|e'] eqn:Ec.
    + exfalso. rewrite (parse_rows text d cols Hne Hd Ec) in H.
      apply parseRows_Err in H.
      destruct He as [->|[->| ->]]; destruct H as [H|H]; try discriminate H; exact H.
    + rewrite (parse_columns_error text d e' Hne Hd Ec) in H.
      inversion H; reflexivity.
  - eapply parse_columns_error; eauto.
Qed.

(** X3: once the delimiter is settled, the parse fails with the
    inconsistent-column-counts error exactly when two non-blank lines hold
    different numbers of delimiters, and with the unsupported-column-count
    error exactly when all lines hold the same number of delimiters and that
    number is two or more. *)
Theorem column_count_errors (text : jsstring) (d : option delimiter) :
  normalize text <> [] ->
  detectDelimiter (normalize text) = Ok d ->
  (parseDataText text = Err InconsistentColumnCounts
   <-> exists l1 l2, In l1 (normalize text) /\ In l2 (normalize text)
                     /\ delimiterCount d l1 <> delimiterCount d l2)
  /\ (parseDataText text = Err UnsupportedColumnCount
      <-> (forall l1 l2, In l1 (normalize text) -> In l2 (normalize text) ->
                         delimiterCount d l1 = delimiterCount d l2)
          /\ (2 <= delimiterCount d (hd [] (normalize text)))%nat).
Proof.
  intros Hne Hd.
  pose proof (checkColumns_spec d _ Hne Hd) as S.
  assert (Same : (1 <? colCountsSize (tokenize d (normalize text)))%nat = false
                 <-> forall l1 l2, In l1 (normalize text) -> In l2 (normalize text) ->
                                   delimiterCount d l1 = delimiterCount d l2).
  { rewrite colCountsSize_spec. unfold tokenize. split.
    - intros H l1 l2 H1 H2.
      specialize (H _ _ (in_map _ _ _ H1) (in_map _ _ _ H2)).
      destruct d as [c|]; [|reflexivity].
      rewrite !split_length in H. unfold delimiterCount. lia.
    - intros H r1 r2 H1 H2. apply in_map_iff in H1, H2.
      destruct H1 as (l1 & <- & H1), H2 as (l2 & <- & H2).
      specialize (H l1 l2 H1 H2).
      destruct d as [c|]; [|reflexivity].
      rewrite !split_length. unfold delimiterCount in H. lia. }
  split.
  - rewrite (parse_column_error_iff text d _ Hne Hd) by (left; reflexivity).
    rewrite S. split.
    + intro H.
      destruct (1 <? colCountsSize (tokenize d (normalize text)))%nat eqn:E.
      * apply Nat.ltb_lt in E. unfold colCountsSize in E.
        apply nodup_long in E. destruct E as (x & y & Hx & Hy & N).
        rewrite tokenize_lengths in Hx, Hy. apply in_map_iff in Hx, Hy.
        destruct Hx as (l1 & <- & H1), Hy as (l2 & <- & H2).
        exists l1, l2. repeat split; auto.
      * destruct (2 <=? delimiterCount d (hd [] (normalize text)))%nat; discriminate H.
    + intros (l1 & l2 & H1 & H2 & N).
      destruct (1 <? colCountsSize (tokenize d (normalize text)))%nat eqn:E;
        [reflexivity|].
      exfalso. apply N. apply (proj1 Same eq_refl); assumption.
  - rewrite (parse_column_error_iff text d _ Hne Hd) by (right; left; reflexivity).
    rewrite S. rewrite <- Same. split.
    + intro H.
      destruct (1 <? colCountsSize (tokenize d (normalize text)))%nat;
        [discriminate H|]. split; [reflexivity|].
      destruct (2 <=? delimiterCount d (hd [] (normalize text)))%nat eqn:E;
        [apply Nat.leb_le, E | discriminate H].
    + intros [-> H]. apply Nat.leb_le in H. rewrite H. reflexivity.
Qed.

Lemma column_count_errors_witness :
  parseDataText (js "1,2" ++ [LF] ++ js "3,4,5") = Err InconsistentColumnCounts
  <-> exists l1 l2,
        In l1 (normalize (js "1,2" ++ [LF] ++ js "3,4,5"))
        /\ In l2 (normalize (js "1,2" ++ [LF] ++ js "3,4,5"))
        /\ delimiterCount (Some Comma) l1 <> delimiterCount (Some Comma) l2.
Proof.
  apply (proj1 (column_count_errors (js "1,2" ++ [LF] ++ js "3,4,5") (Some Comma)
                  ltac:(vm_compute; discriminate) ltac:(vm_compute; reflexivity))).
Defined.

(** ** A header and nothing else *)

Lemma axisNames_start (cols : nat) (rows : list (list jsstring)) :
  snd (axisNames cols rows) = if isHeaderRow cols rows then 1%nat else 0%nat.
Proof.
  unfold axisNames. destruct (isHeaderRow cols rows); [|reflexivity].
  destruct (Nat.eqb cols 1); reflexivity.
Qed.

Lemma parseRows_no_data (cols : nat) (rows : list (list jsstring)) :
  rows <> [] ->
  (parseRows cols rows = Err NoDataRows
   <-> isHeaderRow cols rows = true /\ List.length rows = 1%nat).
Proof.
  intro Hne. unfold parseRows.
  pose proof (axisNames_start cols rows) as St.
  destruct (axisNames cols rows) as [[tn vn] st]. cbn [snd] in St. subst st.
  destruct (isHeaderRow cols rows).
  - destruct rows as [|r [|r' rs]]; [congruence | cbn; tauto |].
    cbn [skipn List.length Nat.eqb]. split; [|intros [_ H]; discriminate H].
    intro H. apply bind_Err in H. destruct H as [H|(p & _ & H)]; [|discriminate H].
    apply coerce_Err in H. destruct H.
  - cbn [skipn]. destruct rows as [|r rs]; [congruence|].
    cbn [List.length Nat.eqb]. split; [|intros [H _]; discriminate H].
    intro H. apply bind_Err in H. destruct H as [H|(p & _ & H)]; [|discriminate H].
    apply coerce_Err in H. destruct H.
Qed.

(** X4: the parse fails with the no-data-rows error exactly when the input
    has a single non-blank line, of one or two columns, and that line is
    taken as a header. *)
Theorem header_only_input (text : jsstring) :
  parseDataText text = Err NoDataRows
  <-> exists l d cols,
        normalize text = [l]
        /\ detectDelimiter [l] = Ok d
        /\ checkColumns d (tokenize d [l]) = Ok cols
        /\ isHeaderRow cols (tokenize d [l]) = true.
Proof.
  split.
  - intro H.
    destruct (parse_cases text) as [[_ P]|[Hne [(e' & Hd & P)|(d & Hd & [(e' & Hc & P)|(cols & Hc & P)])]]];
      rewrite P in H.
    + discriminate H.
    + inversion H; subst e'. apply detectDelimiter_Err in Hd.
      destruct Hd as [Hd|Hd]; discriminate Hd.
    + inversion H; subst e'. apply checkColumns_Err in Hc.
      destruct Hc as [Hc|[Hc|Hc]]; discriminate Hc.
    + apply parseRows_no_data in H; [|apply tokenize_nil, Hne].
      destruct H as [Hh Hl]. unfold tokenize in Hl. rewrite length_map in Hl.
      destruct (normalize text) as [|l [|l' ls]] eqn:E; try discriminate Hl.
      exists l, d, cols. auto.
  - intros (l & d & cols & E & Hd & Hc & Hh).
    assert (Hne : normalize text <> []) by (rewrite E; discriminate).
    rewrite <- E in Hd, Hc, Hh.
    rewrite (parse_rows text d cols Hne Hd Hc).
    apply parseRows_no_data; [apply tokenize_nil, Hne|].
    split; [exact Hh|]. rewrite E. reflexivity.
Qed.

Lemma header_only_input_witness :
  exists l d cols,
    normalize (js "Time,Temp") = [l]
    /\ detectDelimiter [l] = Ok d
    /\ checkColumns d (tokenize d [l]) = Ok cols
    /\ isHeaderRow cols (tokenize d [l]) = true.
Proof.
  apply (proj1 (header_only_input (js "Time,Temp"))).
  vm_compute. reflexivity.
Defined.

(** ** Rows in, points out *)

Lemma singlePoints_mirror (i : nat) (rows : list (list jsstring)) :
  Forall (fun r => isFiniteNumberString (field 0 r) = true) rows ->
  Forall2 (pointOfRow 1) rows (singlePoints i rows).
Proof.
  intro H; revert i; induction H as [|r rs Hr _ IH]; intro i; [constructor|].
  unfold singlePoints. cbn [List.length seq map combine].
  constructor; [|apply IH].
  unfold pointOfRow. cbn [snd fst Nat.sub]. repeat split; auto. discriminate.
Qed.

Lemma numericPoints_mirror (rows : list (list jsstring)) :
  Forall (fun r => isFiniteNumberString (field 0 r) = true
                   /\ isFiniteNumberString (field 1 r) = true) rows ->
  Forall2 (pointOfRow 2) rows (numericPoints rows).
Proof.
  induction 1 as [|r rs [Hx Hy] _ IH]; [constructor|].
  cbn [numericPoints map]. constructor; [|exact IH].
  unfold pointOfRow. cbn [snd fst Nat.sub]. repeat split; auto.
Qed.

Lemma datedPoints_mirror (rows : list (list jsstring)) pts :
  Forall2 datedPoint rows pts ->
  Forall (fun r => isFiniteNumberString (field 1 r) = true) rows ->
  Forall2 (pointOfRow 2) rows pts.
Proof.
  induction 1 as [|r p rs ps (d & Hd & ->) _ IH]; intro HF; [constructor|].
  inversion HF; subst. constructor; [|apply IH; assumption].
  unfold pointOfRow. cbn [snd fst Nat.sub]. repeat split; auto.
  intros _. right. exists d. auto.
Qed.

(** X5: a successful parse returns one point for every non-blank line
    after the header, in the order of the lines, and at least one.  The y of
    a point is the number read from the trimmed last field of its line; with
    two columns the x is the number, or the date, read from the trimmed first
    field. *)
Theorem points_mirror_rows (text : jsstring) (r : SequenceData) :
  parseDataText text = Ok r ->
  exists g,
    dataRegion text = Ok g
    /\ (startIdx g = 0%nat \/ startIdx g = 1%nat)
    /\ (List.length (dataPoints r) + startIdx g)%nat
       = List.length (normalize text)
    /\ dataPoints r <> []
    /\ Forall2 (pointOfRow (columns g)) (dataRows g) (dataPoints r).
Proof.
  intro H. apply parseDataText_Ok in H. destruct H as (g & Hg & Hc & _).
  exists g. split; [exact Hg|].
  pose proof (dataRegion_widths _ _ Hg) as (_ & _ & Hcols).
  pose proof (dataRegion_Ok _ _ Hg) as (d & Hne & Hd & Hrows & Hcc & Hax & Hdata & Hdne).
  assert (St : startIdx g = if isHeaderRow (columns g) (allRows g) then 1%nat else 0%nat).
  { rewrite <- axisNames_start, Hax. reflexivity. }
  assert (M : Forall2 (pointOfRow (columns g)) (dataRows g) (dataPoints r)).
  { apply coerce_Ok_cases in Hc.
    destruct Hc as [(E & -> & HF)|[(E & Hx & HF2 & HF)|(E & Hx & -> & HF)]].
    - rewrite E. apply singlePoints_mirror, HF.
    - destruct Hcols as [C|C]; [congruence|]. rewrite C.
      apply datedPoints_mirror; assumption.
    - destruct Hcols as [C|C]; [congruence|]. rewrite C.
      apply numericPoints_mirror, HF. }
  pose proof (Forall2_length M) as L.
  split; [destruct (isHeaderRow (columns g) (allRows g)); auto|].
  split; [|split; [|exact M]].
  - rewrite <- L, Hdata, length_skipn, Hrows. unfold tokenize. rewrite length_map.
    assert (List.length (normalize text) <> 0%nat)
      by (destruct (normalize text); [congruence | discriminate]).
    destruct (isHeaderRow (columns g) (allRows g)); subst; lia.
  - intro E. rewrite E in L. destruct (dataRows g); [congruence | discriminate L].
Qed.

Lemma points_mirror_rows_witness :
  exists g,
    dataRegion (js "t,v" ++ [LF] ++ js "1, 2" ++ [LF] ++ [LF] ++ js "3,4") = Ok g
    /\ (startIdx g = 0%nat \/ startIdx g = 1%nat)
    /\ (List.length [(XNum (ofZ 1), ofZ 2); (XNum (ofZ 3), ofZ 4)] + startIdx g)%nat
       = List.length (normalize (js "t,v" ++ [LF] ++ js "1, 2" ++ [LF] ++ [LF]
                                 ++ js "3,4"))
    /\ [(XNum (ofZ 1), ofZ 2); (XNum (ofZ 3), ofZ 4)] <> []
    /\ Forall2 (pointOfRow (columns g)) (dataRows g)
         [(XNum (ofZ 1), ofZ 2); (XNum (ofZ 3), ofZ 4)].
Proof.
  apply (points_mirror_rows
           (js "t,v" ++ [LF] ++ js "1, 2" ++ [LF] ++ [LF] ++ js "3,4")
           {| timeAxisName := js "t"; valueAxisName := js "v";
              dataPoints := [(XNum (ofZ 1), ofZ 2); (XNum (ofZ 3), ofZ 4)] |}).
  vm_compute. reflexivity.
Defined.

(** ** Axis names *)

Lemma orDefault_nonempty (s dflt : jsstring) : dflt <> [] -> orDefault s dflt <> [].
Proof. destruct s; simpl; [auto | discriminate]. Qed.

(** X6: the axis names of a successful parse are never empty: an empty
    header token gives way to the default.  Without a header the names are
    the defaults, X or Index and Value; with one column the x axis is
    always named Index. *)
Theorem axis_names_never_empty (text : jsstring) (r : SequenceData) :
  parseDataText text = Ok r ->
  timeAxisName r <> [] /\ valueAxisName r <> []
  /\ exists g,
       dataRegion text = Ok g
       /\ (columns g = 1%nat -> timeAxisName r = js "Index")
       /\ (isHeaderRow (columns g) (allRows g) = false ->
           timeAxisName r = (if Nat.eqb (columns g) 2 then js "X" else js "Index")
           /\ valueAxisName r = js "Value")
       /\ (isHeaderRow (columns g) (allRows g) = true -> columns g = 2%nat ->
           timeAxisName r = orDefault (nth 0 (hd [] (allRows g)) []) (js "X")
           /\ valueAxisName r = orDefault (nth 1 (hd [] (allRows g)) []) (js "Value")).
Proof.
  intro H. apply parseDataText_Ok in H. destruct H as (g & Hg & _ & Ht & Hv).
  pose proof (dataRegion_Ok _ _ Hg) as (d & _ & _ & _ & _ & Hax & _).
  rewrite Ht, Hv. unfold axisNames, defaultTimeAxisName in Hax.
  assert (NX : js "X" <> []) by discriminate.
  assert (NV : js "Value" <> []) by discriminate.
  destruct (isHeaderRow (columns g) (allRows g)) eqn:Eh.
  - destruct (Nat.eqb_spec (columns g) 1) as [C1|C1]; inversion Hax as [[Et Ev Es]].
    + split; [discriminate|]. split; [apply orDefault_nonempty, NV|].
      exists g. repeat split; auto; congruence.
    + split; [apply orDefault_nonempty, NX|].
      split; [apply orDefault_nonempty, NV|].
      exists g. repeat split; auto; congruence.
  - inversion Hax as [[Et Ev Es]].
    split; [destruct (Nat.eqb (columns g) 2); discriminate|].
    split; [discriminate|].
    exists g. split; [exact Hg|]. split; [|split].
    + intros C1. rewrite C1. reflexivity.
    + intros _. split; reflexivity.
    + intro H. congruence.
Qed.

Lemma axis_names_never_empty_witness :
  timeAxisName {| timeAxisName := js "X"; valueAxisName := js "Temp";
                  dataPoints := [(XNum (ofZ 1), ofZ 2)] |} <> [].
Proof.
  apply (axis_names_never_empty (js ",Temp" ++ [LF] ++ js "1,2")
           {| timeAxisName := js "X"; valueAxisName := js "Temp";
              dataPoints := [(XNum (ofZ 1), ofZ 2)] |}).
  vm_compute. reflexivity.
Defined.

(** ** Dates are not numbers *)

Lemma spanDigits_stop (ds : jsstring) (c : char16) (r : jsstring) :
  allDigits ds -> isDigit c = false -> spanDigits (ds ++ c :: r) = (ds, c :: r).
Proof.
  intros H Hc. induction H as [|x ds Hx _ IH]; simpl.
  - rewrite Hc. reflexivity.
  - rewrite Hx, IH. reflexivity.
Qed.

Lemma ISO_RE_prefix (s : jsstring) (m : isoGroups) :
  ISO_RE_exec s = Some m ->
  exists y Y r, s = y :: Y ++ MINUS :: r /\ allDigits (y :: Y).
Proof.
  unfold ISO_RE_exec.
  destruct (digitsN 4 s) as [[Y s1]|] eqn:EY; [|discriminate].
  destruct (expect MINUS s1) as [s2|] eqn:X1; [|discriminate].
  intros _. apply digitsN_spec in EY. destruct EY as (-> & L & F).
  apply expect_spec in X1. subst s1.
  destruct Y as [|y Y']; [discriminate L|].
  exists y, Y', s2. split; [reflexivity | exact F].
Qed.

Lemma ISO_test_not_number (s : jsstring) :
  ISO_RE_test s = true -> isFiniteNumberString s = false.
Proof.
  unfold ISO_RE_test. destruct (ISO_RE_exec s) as [m|] eqn:E; [|discriminate].
  intros _. apply ISO_RE_prefix in E. destruct E as (y & Y & r & -> & F).
  unfold isFiniteNumberString, NUM_RE_exec.
  assert (Hy : isSign y = false).
  { inversion F; subst. unfold isDigit in H1. unfold isSign, PLUS, MINUS.
    apply andb_true_iff in H1. destruct H1 as [H1 _]. apply N.leb_le in H1.
    apply orb_false_iff. split; apply N.eqb_neq; lia. }
  cbn [app]. rewrite Hy.
  change (y :: Y ++ MINUS :: r) with ((y :: Y) ++ MINUS :: r).
  rewrite (spanDigits_stop (y :: Y) MINUS r F eq_refl).
  cbn. reflexivity.
Qed.

(** X7: no string is both an ISO date or date-time and a finite-number
    string, so the two readings of a first field never compete. *)
Theorem iso_strings_are_not_numbers (s : jsstring) :
  (ISO_RE_test s = true -> isFiniteNumberString s = false)
  /\ (isFiniteNumberString s = true -> parseIsoToDate s = None).
Proof.
  split; [apply ISO_test_not_number|].
  intro H. pose proof (parseIsoToDate_test s) as T.
  destruct (parseIsoToDate s) as [t|]; [|reflexivity].
  symmetry in T. apply ISO_test_not_number in T. congruence.
Qed.

Lemma iso_strings_are_not_numbers_witness :
  isFiniteNumberString (js "2024-01-01T10:00:00Z") = false.
Proof.
  apply (proj1 (iso_strings_are_not_numbers (js "2024-01-01T10:00:00Z"))).
  vm_compute. reflexivity.
Defined.

(** ** Line ends *)

Lemma parse_normalize (a b : jsstring) :
  normalize a = normalize b -> parseDataText a = parseDataText b.
Proof.
  intro H. unfold parseDataText, dataRegion. rewrite H. reflexivity.
Qed.

Lemma replaceCRLF_cons (c : char16) (s : jsstring) :
  c <> CR -> replaceCRLF (c :: s) = c :: replaceCRLF s.
Proof.
  intro H. apply N.eqb_neq in H. destruct s as [|d s]; simpl; [reflexivity|].
  rewrite H. reflexivity.
Qed.

Lemma replaceCRLF_CR (d : char16) (s : jsstring) :
  d <> LF -> replaceCRLF (CR :: d :: s) = CR :: replaceCRLF (d :: s).
Proof.
  intro H. apply N.eqb_neq in H. cbn [replaceCRLF]. rewrite H, andb_false_r.
  reflexivity.
Qed.

Lemma replaceCRLF_CRLF (s : jsstring) :
  replaceCRLF (CR :: LF :: s) = LF :: replaceCRLF s.
Proof. reflexivity. Qed.

Lemma replaceCRLF_noCR (s : jsstring) : noCR s -> replaceCRLF s = s.
Proof.
  induction 1 as [|c s Hc _ IH]; [reflexivity|].
  rewrite replaceCRLF_cons, IH by exact Hc. reflexivity.
Qed.

Lemma replaceCR_noCR (s : jsstring) : noCR s -> replaceCR s = s.
Proof.
  unfold replaceCR. induction 1 as [|c s Hc _ IH]; simpl; [reflexivity|].
  apply N.eqb_neq in Hc. rewrite Hc, IH. reflexivity.
Qed.

Lemma replaceCRLF_lfToCrlf (s : jsstring) : noCR s -> replaceCRLF (lfToCrlf s) = s.
Proof.
  induction 1 as [|c s Hc _ IH]; [reflexivity|]. cbn [lfToCrlf].
  destruct (N.eqb_spec c LF) as [->|N].
  - rewrite replaceCRLF_CRLF, IH. reflexivity.
  - rewrite replaceCRLF_cons, IH by exact Hc. reflexivity.
Qed.

Lemma replaceCRLF_noLF (s : jsstring) :
  Forall (fun c => c <> LF) s -> replaceCRLF s = s.
Proof.
  induction 1 as [|c s Hc HF IH]; [reflexivity|].
  destruct (N.eq_dec c CR) as [->|N].
  - destruct s as [|d s']; [reflexivity|]. inversion HF; subst.
    rewrite replaceCRLF_CR, IH by assumption. reflexivity.
  - rewrite replaceCRLF_cons, IH by exact N. reflexivity.
Qed.

Lemma lfToCr_noLF (s : jsstring) : Forall (fun c => c <> LF) (lfToCr s).
Proof.
  unfold lfToCr. induction s as [|c s IH]; simpl; constructor; [|exact IH].
  destruct (N.eqb_spec c LF); [discriminate | assumption].
Qed.

Lemma replaceCR_lfToCr (s : jsstring) : noCR s -> replaceCR (lfToCr s) = s.
Proof.
  unfold replaceCR, lfToCr. induction 1 as [|c s Hc _ IH]; simpl; [reflexivity|].
  rewrite IH. destruct (N.eqb_spec c LF) as [->|N]; [reflexivity|].
  apply N.eqb_neq in Hc. rewrite Hc. reflexivity.
Qed.

(** X8: the three conventions for the end of a line give the same parse:
    a text with Unix line ends, the same text with Windows line ends and
    the same text with classic Mac line ends are parsed alike, failures
    and row numbers included. *)
Theorem line_end_convention_is_irrelevant (text : jsstring) :
  noCR text ->
  parseDataText (lfToCrlf text) = parseDataText text
  /\ parseDataText (lfToCr text) = parseDataText text.
Proof.
  intro H. split; apply parse_normalize; unfold normalize.
  - rewrite (replaceCRLF_lfToCrlf _ H), (replaceCRLF_noCR _ H). reflexivity.
  - rewrite (replaceCRLF_noLF _ (lfToCr_noLF text)), (replaceCR_lfToCr _ H),
      (replaceCRLF_noCR _ H), (replaceCR_noCR _ H). reflexivity.
Qed.

Lemma line_end_convention_is_irrelevant_witness :
  parseDataText (lfToCrlf (js "1,2" ++ [LF] ++ js "3,4"))
  = parseDataText (js "1,2" ++ [LF] ++ js "3,4")
  /\ parseDataText (lfToCr (js "1,2" ++ [LF] ++ js "3,4"))
     = parseDataText (js "1,2" ++ [LF] ++ js "3,4").
Proof.
  apply (line_end_convention_is_irrelevant (js "1,2" ++ [LF] ++ js "3,4")).
  apply Forall_forall. intros c Hc E. subst c. vm_compute in Hc.
  repeat (destruct Hc as [Hc|Hc]; [discriminate Hc|]). exact Hc.
Defined.

(** ** White space around the data *)

Lemma whiteSpace_CR_LF : isWhiteSpace CR = true /\ isWhiteSpace LF = true.
Proof. split; reflexivity. Qed.

Lemma replaceCR_cons (c : char16) (s : jsstring) :
  replaceCR (c :: s) = (if N.eqb c CR then LF else c) :: replaceCR s.
Proof. reflexivity. Qed.

Lemma split_sep_cons (sep : char16) (s : jsstring) :
  split sep (sep :: s) = [] :: split sep s.
Proof. simpl. rewrite N.eqb_refl. reflexivity. Qed.

Lemma split_cons (sep c : char16) (s : jsstring) :
  c <> sep ->
  exists t ts, split sep s = t :: ts /\ split sep (c :: s) = (c :: t) :: ts.
Proof.
  intro H. apply N.eqb_neq in H. pose proof (split_nonempty sep s) as N.
  simpl. rewrite H. destruct (split sep s) as [|t ts]; [congruence|].
  exists t, ts. auto.
Qed.

Lemma trim_space_cons (w : char16) (s : jsstring) :
  isWhiteSpace w = true -> trim (w :: s) = trim s.
Proof. intro H. unfold trim. simpl. rewrite H. reflexivity. Qed.

Lemma normalize_lines (text : jsstring) :
  normalize text
  = filter (fun l => negb (Nat.eqb (List.length l) 0))
      (map trim (split LF (replaceCR (replaceCRLF text)))).
Proof. reflexivity. Qed.

Lemma normalize_leading_space (w : char16) (text : jsstring) :
  isWhiteSpace w = true -> normalize (w :: text) = normalize text.
Proof.
  intro Hw. rewrite !normalize_lines.
  assert (skip : forall s,
            filter (fun l => negb (Nat.eqb (List.length l) 0))
              (map trim (split LF (LF :: s)))
            = filter (fun l => negb (Nat.eqb (List.length l) 0))
                (map trim (split LF s))).
  { intro s. rewrite split_sep_cons. reflexivity. }
  assert (plain : forall s, w <> LF ->
            filter (fun l => negb (Nat.eqb (List.length l) 0))
              (map trim (split LF (w :: s)))
            = filter (fun l => negb (Nat.eqb (List.length l) 0))
                (map trim (split LF s))).
  { intros s N. destruct (split_cons LF w s N) as (t & ts & -> & ->).
    cbn [map]. rewrite (trim_space_cons w t Hw). reflexivity. }
  destruct (N.eq_dec w CR) as [->|NCR].
  - destruct text as [|d s].
    + reflexivity.
    + destruct (N.eq_dec d LF) as [->|NLF].
      * rewrite replaceCRLF_CRLF.
        rewrite (replaceCRLF_cons LF s) by discriminate. reflexivity.
      * rewrite replaceCRLF_CR by exact NLF. rewrite replaceCR_cons.
        cbn [N.eqb CR Pos.eqb]. apply skip.
  - rewrite replaceCRLF_cons by exact NCR. rewrite replaceCR_cons.
    apply N.eqb_neq in NCR. rewrite NCR.
    destruct (N.eq_dec w LF) as [->|NLF]; [apply skip | apply plain, NLF].
Qed.

(** X9: white space before the data is ignored: spaces, tabs, blank lines
    or a byte-order mark put in front of a text do not change its parse. *)
Theorem leading_white_space_is_ignored (pre text : jsstring) :
  whiteSpaceOnly pre -> parseDataText (pre ++ text) = parseDataText text.
Proof.
  intro H. apply parse_normalize.
  induction H as [|w pre Hw _ IH]; [reflexivity|].
  cbn [app]. rewrite normalize_leading_space by exact Hw. exact IH.
Qed.

Lemma leading_white_space_is_ignored_witness :
  parseDataText ([65279%N; LF; TAB] ++ js "1,2") = parseDataText (js "1,2").
Proof.
  apply (leading_white_space_is_ignored [65279%N; LF; TAB] (js "1,2")).
  repeat constructor.
Defined.

(** ** Nothing but white space *)

Lemma trimStart_nil (s : jsstring) : trimStart s = [] <-> whiteSpaceOnly s.
Proof.
  induction s as [|c s IH]; simpl.
  - split; [constructor | reflexivity].
  - destruct (isWhiteSpace c) eqn:E.
    + rewrite IH. split; [constructor; assumption | intro H; inversion H; assumption].
    + split; [discriminate | intro H; inversion H; congruence].
Qed.

Lemma trimStart_head (s : jsstring) :
  match trimStart s with c :: _ => isWhiteSpace c = false | [] => True end.
Proof.
  induction s as [|c s IH]; simpl; [exact I|].
  destruct (isWhiteSpace c) eqn:E; [exact IH | exact E].
Qed.

Lemma trim_nil (s : jsstring) : trim s = [] <-> whiteSpaceOnly s.
Proof.
  unfold trim, trimEnd. split.
  - intro H. apply trimStart_nil.
    assert (R : trimStart (rev (trimStart s)) = []).
    { destruct (trimStart (rev (trimStart s))); [reflexivity|].
      apply (f_equal (@List.length _)) in H. rewrite length_rev in H. discriminate H. }
    apply trimStart_nil in R.
    pose proof (trimStart_head s) as Hh.
    destruct (trimStart s) as [|c t]; [reflexivity|].
    assert (In c (rev (c :: t))) by (apply in_rev; rewrite rev_involutive; left; reflexivity).
    unfold whiteSpaceOnly in R. rewrite Forall_forall in R.
    specialize (R c H0). congruence.
  - intro H. apply trimStart_nil in H. rewrite H. reflexivity.
Qed.

Lemma split_pieces (P : char16 -> Prop) (sep : char16) (s : jsstring) :
  Forall (Forall P) (split sep s) <-> Forall (fun c => c = sep \/ P c) s.
Proof.
  induction s as [|c s IH].
  - simpl. split; repeat constructor.
  - destruct (N.eq_dec c sep) as [->|N].
    + rewrite split_sep_cons. split; intro H.
      * inversion H; subst. constructor; [auto | apply IH; assumption].
      * inversion H; subst. constructor; [constructor | apply IH; assumption].
    + destruct (split_cons sep c s N) as (t & ts & E & ->). rewrite E in IH.
      split; intro H.
      * inversion H as [|? ? Hct Hts]; subst. inversion Hct; subst.
        constructor; [auto|]. apply IH. constructor; assumption.
      * inversion H as [|? ? Hc Hs]; subst. apply IH in Hs. inversion Hs; subst.
        destruct Hc as [Hc|Hc]; [contradiction|].
        constructor; [constructor|]; assumption.
Qed.

Lemma replaceCR_space (s : jsstring) : whiteSpaceOnly (replaceCR s) <-> whiteSpaceOnly s.
Proof.
  unfold replaceCR, whiteSpaceOnly. induction s as [|c s IH]; simpl.
  - split; constructor.
  - split; intro H; inversion H; subst; constructor; try (apply IH; assumption).
    + destruct (N.eqb_spec c CR) as [->|N]; [reflexivity | assumption].
    + destruct (N.eqb_spec c CR) as [->|N]; [reflexivity | assumption].
Qed.

Lemma replaceCRLF_space (s : jsstring) :
  (whiteSpaceOnly (replaceCRLF s) <-> whiteSpaceOnly s)
  /\ forall c, whiteSpaceOnly (replaceCRLF (c :: s)) <-> whiteSpaceOnly (c :: s).
Proof.
  induction s as [|d s [IH1 IH2]].
  - split; [reflexivity | intro c; reflexivity].
  - split; [apply IH2|]. intro c.
    destruct (N.eq_dec c CR) as [->|NCR].
    + destruct (N.eq_dec d LF) as [->|NLF].
      * rewrite replaceCRLF_CRLF. unfold whiteSpaceOnly in *. split; intro H.
        -- inversion H; subst. repeat constructor. apply IH1. assumption.
        -- inversion H as [|? ? _ H']; subst. inversion H'; subst.
           constructor; [reflexivity | apply IH1; assumption].
      * rewrite replaceCRLF_CR by exact NLF. unfold whiteSpaceOnly in *.
        split; intro H; inversion H; subst; constructor; auto;
          apply (IH2 d); assumption.
    + rewrite replaceCRLF_cons by exact NCR. unfold whiteSpaceOnly in *.
      split; intro H; inversion H; subst; constructor; auto;
        apply (IH2 d); assumption.
Qed.

Lemma filter_nil {A} (p : A -> bool) (l : list A) :
  filter p l = [] <-> Forall (fun a => p a = false) l.
Proof.
  induction l as [|a l IH]; simpl; [split; constructor|].
  destruct (p a) eqn:E.
  - split; [discriminate | intro H; inversion H; congruence].
  - rewrite IH. split; [constructor; assumption | intro H; inversion H; assumption].
Qed.

Lemma normalize_nil (text : jsstring) : normalize text = [] <-> whiteSpaceOnly text.
Proof.
  rewrite normalize_lines, filter_nil, Forall_map.
  rewrite <- (proj1 (replaceCRLF_space text)), <- replaceCR_space.
  set (t := replaceCR (replaceCRLF text)).
  assert (E : Forall (fun l => negb (Nat.eqb (List.length (trim l)) 0) = false) (split LF t)
              <-> Forall (Forall (fun c => isWhiteSpace c = true)) (split LF t)).
  { assert (P : forall l, negb (Nat.eqb (List.length (trim l)) 0) = false
                          <-> Forall (fun c => isWhiteSpace c = true) l).
    { intro l. rewrite negb_false_iff, Nat.eqb_eq.
      change (Forall (fun c => isWhiteSpace c = true) l) with (whiteSpaceOnly l).
      rewrite <- (trim_nil l). destruct (trim l); simpl; split; congruence. }
    split; apply Forall_impl; intro l; apply P. }
  rewrite E, split_pieces. unfold whiteSpaceOnly.
  split; apply Forall_impl; intros c H; [|auto].
  destruct H as [->|H]; [reflexivity | exact H].
Qed.

(** X10: the parse fails with the no-data-lines error exactly when the text
    holds nothing but white space (the empty text included): no other input
    gives this error, and no such input gives anything else. *)
Theorem blank_input (text : jsstring) :
  parseDataText text = Err NoDataLines <-> whiteSpaceOnly text.
Proof.
  rewrite <- normalize_nil. split.
  - intro H.
    destruct (parse_cases text) as [[E _]|[Hne [(e' & Hd & P)|(d & Hd & [(e' & Hc & P)|(cols & Hc & P)])]]];
      [exact E | exfalso; rewrite P in H ..].
    + inversion H; subst e'. apply detectDelimiter_Err in Hd.
      destruct Hd as [Hd|Hd]; discriminate Hd.
    + inversion H; subst e'. apply checkColumns_Err in Hc.
      destruct Hc as [Hc|[Hc|Hc]]; discriminate Hc.
    + apply parseRows_Err in H. destruct H as [H|H]; [discriminate H | exact H].
  - apply parse_no_lines.
Qed.

Lemma blank_input_witness :
  parseDataText ([32%N; LF; CR; TAB]) = Err NoDataLines.
Proof.
  apply (proj2 (blank_input [32%N; LF; CR; TAB])). repeat constructor.
Defined.

(** ** Rows of two numbers *)

Lemma includes_app (a b : jsstring) (c : char16) :
  includes (a ++ b) c = includes a c || includes b c.
Proof. unfold includes. apply existsb_app. Qed.

Lemma includes_cons (x c : char16) (b : jsstring) :
  includes (x :: b) c = N.eqb c x || includes b c.
Proof. reflexivity. Qed.

Lemma includes_false_Forall (s : jsstring) (c : char16) :
  includes s c = false -> Forall (fun x => x <> c) s.
Proof.
  unfold includes. induction s as [|x s IH]; simpl; [constructor|].
  intro H. apply orb_false_iff in H. destruct H as [H1 H2].
  constructor; [|apply IH, H2]. apply N.eqb_neq in H1. congruence.
Qed.

(** Lines made of two fields that hold neither a comma nor a tab. *)

Lemma joinRow_has (d : delimiter) (ab : jsstring * jsstring) :
  cleanFields ab ->
  hasComma (joinRow d ab) = (match d with Comma => true | Tab => false end)
  /\ hasTab (joinRow d ab) = (match d with Comma => false | Tab => true end).
Proof.
  intros [[A1 A2] [B1 B2]]. unfold hasComma, hasTab, joinRow.
  rewrite !includes_app, !includes_cons, A1, A2, B1, B2.
  destruct d; split; reflexivity.
Qed.

Lemma two_fields_delimiter (d : delimiter) (pairs : list (jsstring * jsstring)) :
  Forall cleanFields pairs -> pairs <> [] ->
  detectDelimiter (map (joinRow d) pairs) = Ok (Some d).
Proof.
  intros clean some. rewrite detectDelimiter_spec.
  pose proof (proj1 (Forall_forall _ _) clean) as C.
  assert (Hb : existsb hasBoth (map (joinRow d) pairs) = false).
  { apply existsb_false, Forall_map, Forall_forall. intros ab Hin.
    unfold hasBoth. destruct (joinRow_has d ab (C ab Hin)) as [-> ->].
    destruct d; reflexivity. }
  assert (Hsome : forall p, (forall ab, In ab pairs -> p (joinRow d ab) = true) ->
                            existsb p (map (joinRow d) pairs) = true).
  { intros p Hp. apply existsb_exists. destruct pairs as [|ab ps]; [congruence|].
    exists (joinRow d ab). split; [left; reflexivity | apply Hp; left; reflexivity]. }
  assert (Hnone : forall p, (forall ab, In ab pairs -> p (joinRow d ab) = false) ->
                            existsb p (map (joinRow d) pairs) = false).
  { intros p Hp. apply existsb_false, Forall_map, Forall_forall. exact Hp. }
  rewrite Hb. destruct d.
  - rewrite (Hsome hasComma), (Hnone hasTab); [reflexivity | |];
      intros ab Hin; apply (joinRow_has Comma ab (C ab Hin)).
  - rewrite (Hnone hasComma), (Hsome hasTab); [reflexivity | |];
      intros ab Hin; apply (joinRow_has Tab ab (C ab Hin)).
Qed.

Lemma two_fields_tokens (d : delimiter) (pairs : list (jsstring * jsstring)) :
  Forall cleanFields pairs ->
  tokenize (Some d) (map (joinRow d) pairs)
  = map (fun ab => [fst ab; snd ab]) pairs.
Proof.
  intro clean. unfold tokenize. rewrite map_map. apply map_ext_in. intros ab Hin.
  pose proof (proj1 (Forall_forall _ _) clean) as C.
  destruct (C ab Hin) as [[A1 A2] [B1 B2]].
  unfold joinRow.
  assert (NA : Forall (fun x => x <> delimiterChar d) (fst ab))
    by (destruct d; apply includes_false_Forall; assumption).
  assert (NB : Forall (fun x => x <> delimiterChar d) (snd ab))
    by (destruct d; apply includes_false_Forall; assumption).
  rewrite (split_app_sep _ _ _ NA), (split_no_sep _ _ NB). reflexivity.
Qed.

Lemma two_fields_columns (d : delimiter) (pairs : list (jsstring * jsstring)) :
  pairs <> [] ->
  checkColumns (Some d) (map (fun ab => [fst ab; snd ab]) pairs) = Ok 2%nat.
Proof.
  intro some. unfold checkColumns.
  assert (E : (1 <? colCountsSize (map (fun ab => [fst ab; snd ab]) pairs))%nat = false).
  { apply colCountsSize_spec. intros r1 r2 H1 H2.
    apply in_map_iff in H1, H2.
    destruct H1 as (? & <- & _), H2 as (? & <- & _). reflexivity. }
  rewrite E. destruct pairs as [|ab ps]; [congruence | reflexivity].
Qed.

Lemma two_fields_parse (d : delimiter) (pairs : list (jsstring * jsstring))
      (text : jsstring) :
  Forall cleanFields pairs -> pairs <> [] ->
  normalize text = map (joinRow d) pairs ->
  parseDataText text = parseRows 2 (map (fun ab => [fst ab; snd ab]) pairs).
Proof.
  intros clean some H.
  assert (Hne : normalize text <> []).
  { rewrite H. destruct pairs; [congruence | discriminate]. }
  rewrite (parse_rows text (Some d) 2 Hne); rewrite H.
  - rewrite two_fields_tokens by exact clean. reflexivity.
  - apply two_fields_delimiter; assumption.
  - rewrite two_fields_tokens by exact clean. apply two_fields_columns, some.
Qed.

Lemma parseRows_no_header (cols : nat) (rows : list (list jsstring)) :
  isHeaderRow cols rows = false -> rows <> [] ->
  parseRows cols rows =
  (pts <- coerce cols 0 rows ;;
   Ok {| timeAxisName := defaultTimeAxisName cols; valueAxisName := js "Value";
         dataPoints := pts |}).
Proof.
  intros Hh Hne. unfold parseRows, axisNames. rewrite Hh. cbn [skipn].
  apply length_zero_nil in Hne. rewrite Hne. reflexivity.
Qed.

Lemma number_field_clean (a : jsstring) :
  isFiniteNumberString a = true ->
  includes a COMMA = false /\ includes a TAB = false.
Proof. apply number_line_no_delimiter. Qed.

(** X11: lines of two finite-number strings around one comma, or around
    one tab, parse without a header to the points (x, y) of those numbers,
    line by line, under the axis names X and Value. *)
Theorem rows_of_two_numbers (text : jsstring) (d : delimiter)
        (pairs : list (jsstring * jsstring)) :
  pairs <> [] ->
  Forall (fun ab => isFiniteNumberString (fst ab) = true
                    /\ isFiniteNumberString (snd ab) = true) pairs ->
  normalize text = map (joinRow d) pairs ->
  parseDataText text =
  Ok {| timeAxisName := js "X"; valueAxisName := js "Value";
        dataPoints := map (fun ab => (XNum (Number (fst ab)), Number (snd ab)))
                          pairs |}.
Proof.
  intros Hne HF Hlines.
  assert (clean : Forall cleanFields pairs).
  { eapply Forall_impl; [|exact HF]. intros ab [Ha Hb].
    split; apply number_field_clean; assumption. }
  rewrite (two_fields_parse d pairs text clean Hne Hlines).
  destruct pairs as [|[a0 b0] ps] eqn:Ep; [congruence|]. rewrite <- Ep in *.
  assert (H0 : isFiniteNumberString a0 = true /\ isFiniteNumberString b0 = true).
  { rewrite Ep in HF. inversion HF; subst. assumption. }
  destruct H0 as [Ha0 Hb0].
  assert (Hh : isHeaderRow 2 (map (fun ab => [fst ab; snd ab]) pairs) = false).
  { unfold isHeaderRow. rewrite Ep. cbn [map hd nth fst snd Nat.eqb].
    rewrite Ha0, Hb0. reflexivity. }
  rewrite parseRows_no_header;
    [|exact Hh | rewrite Ep; discriminate].
  unfold coerce, defaultTimeAxisName. cbn [Nat.eqb].
  assert (X : xAreDates 2 (map (fun ab => [fst ab; snd ab]) pairs) = false).
  { rewrite xAreDates_spec, Ep. cbn [map forallb nth fst].
    destruct (ISO_RE_test a0) eqn:E; [|reflexivity].
    apply ISO_test_not_number in E. congruence. }
  rewrite X, coerceNumeric_ok.
  - cbn [bind]. do 2 f_equal. unfold numericPoints. rewrite map_map.
    apply map_ext_in. intros ab Hin. unfold field. cbn [nth].
    rewrite Forall_forall in HF. destruct (HF ab Hin) as [Ha Hb].
    rewrite (isFiniteNumberString_trim _ Ha), (isFiniteNumberString_trim _ Hb).
    reflexivity.
  - apply Forall_map. eapply Forall_impl; [|exact HF].
    intros ab [Ha Hb]. unfold field. cbn [nth].
    rewrite (isFiniteNumberString_trim _ Ha), (isFiniteNumberString_trim _ Hb).
    auto.
Qed.

Lemma rows_of_two_numbers_witness :
  parseDataText (js "1" ++ [TAB] ++ js "2" ++ [LF] ++ js "-3e2" ++ [TAB] ++ js ".5") =
  Ok {| timeAxisName := js "X"; valueAxisName := js "Value";
        dataPoints := map (fun ab => (XNum (Number (fst ab)), Number (snd ab)))
                          [(js "1", js "2"); (js "-3e2", js ".5")] |}.
Proof.
  apply (rows_of_two_numbers _ Tab [(js "1", js "2"); (js "-3e2", js ".5")]).
  - discriminate.
  - apply Forall_forall. intros ab Hin.
    destruct Hin as [<-|[<-|[]]]; split; vm_compute; reflexivity.
  - vm_compute. reflexivity.
Defined.

(** ** Rows of a date and a number *)

Lemma digits_isoChar (ds : jsstring) : allDigits ds -> Forall isoChar ds.
Proof. apply Forall_impl. intros c H. left. exact H. Qed.

Lemma matchZone_chars (s : jsstring) (tz : option jsstring) :
  matchZone s = Some tz -> Forall isoChar s.
Proof.
  unfold matchZone. destruct s as [|c s1]; [constructor|].
  destruct (N.eqb_spec c 90) as [->|Hc].
  { destruct s1; [|discriminate]. intros _. constructor; [|constructor].
    unfold isoChar. tauto. }
  destruct (isSign c) eqn:Es; [|discriminate].
  destruct (digitsN 2 s1) as [[zh s2]|] eqn:E1; [|discriminate].
  destruct (expect COLON s2) as [s3|] eqn:E2; [|discriminate].
  destruct (digitsN 2 s3) as [[zm [|? ?]]|] eqn:E3; try discriminate.
  intros _.
  apply digitsN_spec in E1, E3. destruct E1 as (-> & _ & F1), E3 as (-> & _ & F3).
  apply expect_spec in E2. subst s2. rewrite app_nil_r.
  constructor.
  - unfold isSign in Es. apply orb_true_iff in Es.
    destruct Es as [Es|Es]; apply N.eqb_eq in Es; subst c; unfold isoChar; tauto.
  - apply Forall_app. split; [apply digits_isoChar, F1|].
    constructor; [unfold isoChar; tauto | apply digits_isoChar, F3].
Qed.

Lemma matchSeconds_chars (s r : jsstring) (se ms : option jsstring) :
  matchSeconds s = (se, ms, r) ->
  exists pre, s = pre ++ r /\ Forall isoChar pre.
Proof.
  unfold matchSeconds.
  assert (Z : exists pre, s = pre ++ s /\ Forall isoChar pre)
    by (exists []; split; [reflexivity | constructor]).
  destruct (expect COLON s) as [s1|] eqn:E0;
    [|intro H; inversion H; subst; exact Z].
  destruct (digitsN 2 s1) as [[se' s2]|] eqn:E1;
    [|intro H; inversion H; subst; exact Z].
  apply expect_spec in E0. subst s.
  apply digitsN_spec in E1. destruct E1 as (-> & _ & F1).
  assert (C : isoChar COLON) by (unfold isoChar; tauto).
  assert (S2 : exists pre, COLON :: se' ++ s2 = pre ++ s2 /\ Forall isoChar pre).
  { exists (COLON :: se'). split; [reflexivity|].
    constructor; [exact C | apply digits_isoChar, F1]. }
  destruct (expect DOT s2) as [s3|] eqn:E2;
    [|intro H; inversion H; subst; exact S2].
  destruct (digitsUpTo 3 s3) as [[|c ms'] s4] eqn:E3;
    intro H; inversion H; subst; [exact S2|].
  apply expect_spec in E2. subst s2.
  apply digitsUpTo_spec in E3. destruct E3 as (-> & _ & HF).
  exists (COLON :: se' ++ DOT :: c :: ms'). split.
  - cbn [app]. rewrite <- app_assoc. reflexivity.
  - constructor; [exact C|]. apply Forall_app. split; [apply digits_isoChar, F1|].
    constructor; [unfold isoChar; tauto | apply digits_isoChar, HF].
Qed.

Lemma ISO_RE_chars (s : jsstring) (m : isoGroups) :
  ISO_RE_exec s = Some m -> Forall isoChar s.
Proof.
  unfold ISO_RE_exec.
  destruct (digitsN 4 s) as [[Y s1]|] eqn:EY; [|discriminate].
  destruct (expect MINUS s1) as [s2|] eqn:X1; [|discriminate].
  destruct (digitsN 2 s2) as [[Mo s3]|] eqn:EMo; [|discriminate].
  destruct (expect MINUS s3) as [s4|] eqn:X2; [|discriminate].
  destruct (digitsN 2 s4) as [[D s5]|] eqn:ED; [|discriminate].
  apply digitsN_spec in EY, EMo, ED.
  destruct EY as (-> & _ & FY), EMo as (-> & _ & FMo), ED as (-> & _ & FD).
  apply expect_spec in X1, X2. subst s1 s3.
  assert (M : isoChar MINUS) by (unfold isoChar; tauto).
  assert (C : isoChar COLON) by (unfold isoChar; tauto).
  assert (date : forall tl, Forall isoChar tl ->
                 Forall isoChar (Y ++ MINUS :: Mo ++ MINUS :: D ++ tl)).
  { intros tl Htl. apply Forall_app. split; [apply digits_isoChar, FY|].
    constructor; [exact M|]. apply Forall_app. split; [apply digits_isoChar, FMo|].
    constructor; [exact M|]. apply Forall_app. split; [apply digits_isoChar, FD | exact Htl]. }
  destruct s5 as [|c s6]; [intros _; apply date; constructor|].
  destruct (N.eqb c 84 || isWhiteSpace c) eqn:Ec; [|discriminate].
  destruct (digitsN 2 s6) as [[h s7]|] eqn:Eh; [|discriminate].
  destruct (expect COLON s7) as [s8|] eqn:X3; [|discriminate].
  destruct (digitsN 2 s8) as [[mi s9]|] eqn:Emi; [|discriminate].
  destruct (matchSeconds s9) as [[se ms] s10] eqn:Ese.
  destruct (matchZone s10) as [tz|] eqn:Etz; [|discriminate].
  intros _.
  apply digitsN_spec in Eh, Emi. destruct Eh as (-> & _ & Fh), Emi as (-> & _ & Fmi).
  apply expect_spec in X3. subst s7.
  apply matchSeconds_chars in Ese. destruct Ese as (pre & -> & Fpre).
  apply matchZone_chars in Etz.
  apply date. constructor.
  - apply orb_true_iff in Ec. destruct Ec as [Ec|Ec].
    + apply N.eqb_eq in Ec. subst c. unfold isoChar. tauto.
    + unfold isoChar. tauto.
  - apply Forall_app. split; [apply digits_isoChar, Fh|].
    constructor; [exact C|]. apply Forall_app. split; [apply digits_isoChar, Fmi|].
    apply Forall_app. split; assumption.
Qed.

Lemma isoChar_not_comma (c : char16) : isoChar c -> c <> COMMA.
Proof.
  unfold isoChar, isDigit, isWhiteSpace, MINUS, COLON, DOT, PLUS, COMMA.
  intros H E. subst c. cbn in H.
  repeat (destruct H as [H|H]; [discriminate H|]). discriminate H.
Qed.

Lemma ISO_no_comma (s : jsstring) : ISO_RE_test s = true -> includes s COMMA = false.
Proof.
  unfold ISO_RE_test. destruct (ISO_RE_exec s) as [m|] eqn:E; [|discriminate].
  intros _. apply includes_false. eapply Forall_impl; [|eapply ISO_RE_chars; eauto].
  apply isoChar_not_comma.
Qed.

Lemma coerceDated_ok (s i : nat) (rows : list (list jsstring)) :
  Forall (fun r => (exists t, parseIsoToDate (field 0 r) = Some t)
                   /\ isFiniteNumberString (field 1 r) = true) rows ->
  coerceDated s i rows
  = Ok (map (fun r => (XDate (instantOf (field 0 r)), Number (field 1 r))) rows).
Proof.
  intro H; revert i; induction H as [|r rs [[t Ht] Hy] _ IH]; intro i; simpl;
    [reflexivity|].
  unfold field, instantOf in *.
  rewrite Ht, Hy, (isFiniteNumberString_isFinite _ Hy). simpl.
  rewrite IH. reflexivity.
Qed.

(** X12: lines of an ISO date or date-time and a finite-number string
    around one comma, or around one tab, parse without a header to dated
    points, line by line, under the axis names X and Value, provided that no
    date uses a tab between its day and its hour. *)
Theorem rows_of_date_and_number (text : jsstring) (d : delimiter)
        (pairs : list (jsstring * jsstring)) :
  pairs <> [] ->
  Forall (fun ab => ISO_RE_test (fst ab) = true
                    /\ includes (fst ab) TAB = false
                    /\ isFiniteNumberString (snd ab) = true) pairs ->
  normalize text = map (joinRow d) pairs ->
  parseDataText text =
  Ok {| timeAxisName := js "X"; valueAxisName := js "Value";
        dataPoints := map (fun ab => (XDate (instantOf (fst ab)), Number (snd ab)))
                          pairs |}.
Proof.
  intros Hne HF Hlines.
  assert (clean : Forall cleanFields pairs).
  { eapply Forall_impl; [|exact HF]. intros ab (Ha & Ht & Hb).
    split; [split; [apply ISO_no_comma, Ha | exact Ht]
           | apply number_field_clean, Hb]. }
  rewrite (two_fields_parse d pairs text clean Hne Hlines).
  assert (Dates : forallb (fun r => ISO_RE_test (nth 0 r []))
                    (map (fun ab => [fst ab; snd ab]) pairs) = true).
  { apply forallb_forall. intros r Hr. apply in_map_iff in Hr.
    destruct Hr as (ab & <- & Hin). cbn [nth].
    rewrite Forall_forall in HF. apply (HF ab Hin). }
  assert (Hh : isHeaderRow 2 (map (fun ab => [fst ab; snd ab]) pairs) = false).
  { destruct pairs as [|[a0 b0] ps]; [congruence|].
    inversion HF as [|? ? (Ha & _ & Hb) _]; subst.
    unfold isHeaderRow. cbn [map hd nth fst snd Nat.eqb] in *.
    rewrite parseIsoToDate_test, Ha, Hb, orb_true_r. reflexivity. }
  rewrite parseRows_no_header;
    [|exact Hh | destruct pairs; [congruence | discriminate]].
  unfold coerce, defaultTimeAxisName. cbn [Nat.eqb].
  rewrite xAreDates_spec, Dates, coerceDated_ok.
  - cbn [bind]. do 2 f_equal. rewrite map_map.
    apply map_ext_in. intros ab Hin. unfold field. cbn [nth].
    rewrite Forall_forall in HF. destruct (HF ab Hin) as (Ha & _ & Hb).
    rewrite (ISO_RE_test_trim _ Ha), (isFiniteNumberString_trim _ Hb).
    reflexivity.
  - apply Forall_map. eapply Forall_impl; [|exact HF].
    intros ab (Ha & _ & Hb). unfold field. cbn [nth].
    rewrite (ISO_RE_test_trim _ Ha), (isFiniteNumberString_trim _ Hb).
    split; [|exact Hb].
    pose proof (parseIsoToDate_test (fst ab)) as T. rewrite Ha in T.
    destruct (parseIsoToDate (fst ab)) as [t|]; [eauto | discriminate T].
Qed.

Lemma rows_of_date_and_number_witness :
  parseDataText (js "2024-01-01,10" ++ [LF] ++ js "2024-01-02 06:30,12") =
  Ok {| timeAxisName := js "X"; valueAxisName := js "Value";
        dataPoints := map (fun ab => (XDate (instantOf (fst ab)), Number (snd ab)))
                          [(js "2024-01-01", js "10");
                           (js "2024-01-02 06:30", js "12")] |}.
Proof.
  apply (rows_of_date_and_number _ Comma
           [(js "2024-01-01", js "10"); (js "2024-01-02 06:30", js "12")]).
  - discriminate.
  - apply Forall_forall. intros ab Hin.
    destruct Hin as [<-|[<-|[]]]; repeat split; vm_compute; reflexivity.
  - vm_compute. reflexivity.
Defined.

(** X13: for a year from 0100 to 9999 and a month from 01 to 12, the date
    of an ISO string is the instant that its year, month, day, hour,
    minute, second and millisecond name in UTC, less its zone offset: the
    designator Z and a missing designator both count as no offset, a
    fraction of one or two digits is read as tenths or hundredths of a
    second, and a day past the end of the month runs on into the next. *)
Theorem iso_string_instant (s : jsstring) (m : isoGroups) :
  ISO_RE_exec s = Some m ->
  100 <= digitsValue (g_Y m) ->
  1 <= digitsValue (g_Mo m) <= 12 ->
  parseIsoToDate s =
  Some (utcInstant (Z.to_nat (digitsValue (g_Y m)))
          (Z.to_nat (digitsValue (g_Mo m))) (Z.to_nat (digitsValue (g_D m)))
          (Z.to_nat (groupValue (g_h m))) (Z.to_nat (groupValue (g_mi m)))
          (Z.to_nat (groupValue (g_se m))) (Z.to_nat (millisValue m))
        - zoneMinutes m * 60000).
Proof. apply parseIsoToDate_instant. Qed.

Lemma iso_string_instant_witness :
  parseIsoToDate (js "2024-02-29T23:59:59.5-05:30")
  = Some (utcInstant 2024 2 29 23 59 59 500 - (-330) * 60000).
Proof.
  apply (iso_string_instant (js "2024-02-29T23:59:59.5-05:30")
           {| g_Y := js "2024"; g_Mo := js "02"; g_D := js "29";
              g_h := Some (js "23"); g_mi := Some (js "59");
              g_se := Some (js "59"); g_ms := Some (js "5");
              g_tz := Some (js "-05:30") |}).
  - vm_compute. reflexivity.
  - vm_compute. discriminate.
  - split; vm_compute; discriminate.
Defined.

(** * The consumers of the sequence *)

(** ** The x axis of the chart *)

Lemma allIndices_numbers (pts : list (xvalue * number)) :
  allIndices pts -> Forall (fun p => exists n, xNumber (fst p) = Some n) pts.
Proof.
  unfold allIndices. generalize 0%nat. induction pts as [|p ps IH]; intros i H;
    [constructor|].
  cbn [List.length seq map] in H. inversion H as [[Hp Hps]].
  constructor; [rewrite Hp; cbn; eauto | eapply IH; eauto].
Qed.

Lemma allNumbers_numbers (pts : list (xvalue * number)) :
  allNumbers pts -> Forall (fun p => exists n, xNumber (fst p) = Some n) pts.
Proof.
  apply Forall_impl. intros p (n & -> & _). cbn. eauto.
Qed.

(** X14: the chart takes the type of its x axis from the first point
    alone, and on a parsed sequence that is right for every point: the axis
    is a date axis exactly when all x values are dates, and a linear axis
    exactly when all of them are numbers. *)
Theorem axis_type_fits_every_point (text : jsstring) (r : SequenceData) :
  parseDataText text = Ok r ->
  (xaxisType r = DateAxis <-> allInstants (dataPoints r))
  /\ (xaxisType r = LinearAxis
      <-> Forall (fun p => exists n, xNumber (fst p) = Some n) (dataPoints r)).
Proof.
  intro H.
  assert (U : uniformKind (dataPoints r)).
  { apply parseDataText_Ok in H. destruct H as (g & _ & Hc & _).
    eapply coerce_uniform; eauto. }
  assert (Hne : dataPoints r <> []).
  { apply parseDataText_Ok in H. destruct H as (g & Hg & Hc & _).
    apply dataRegion_Ok in Hg. destruct Hg as (d & _ & _ & _ & _ & _ & _ & Hdne).
    apply coerce_Ok_cases in Hc.
    destruct Hc as [(_ & E & _)|[(_ & _ & HF2 & _)|(_ & _ & E & _)]].
    - rewrite E. intro N. apply (f_equal (@List.length _)) in N.
      rewrite singlePoints_length in N. destruct (dataRows g); [congruence | discriminate N].
    - intro N. rewrite N in HF2. inversion HF2; subst. congruence.
    - rewrite E. destruct (dataRows g); [congruence | discriminate]. }
  unfold xaxisType.
  destruct (dataPoints r) as [|[x y] ps] eqn:E; [congruence|].
  assert (Num : Forall (fun p => exists n, xNumber (fst p) = Some n) ((x, y) :: ps)
                -> forall t, x <> XDate t).
  { intros HN t ->. inversion HN as [|? ? [n Hn] _]; subst. discriminate Hn. }
  assert (Ins : allInstants ((x, y) :: ps) -> exists t, x = XDate t).
  { intro HI. inversion HI as [|? ? [t Ht] _]; subst. exists t. exact Ht. }
  destruct U as [U|[U|U]].
  - apply allIndices_numbers in U. pose proof (Num U) as N.
    destruct x; split; split; intro H'; try discriminate H'; try reflexivity;
      try exact U; try (exfalso; eapply N; reflexivity).
    + apply Ins in H'. destruct H' as [t Ht]. discriminate Ht.
    + apply Ins in H'. destruct H' as [t' Ht]. discriminate Ht.
  - apply allNumbers_numbers in U. pose proof (Num U) as N.
    destruct x; split; split; intro H'; try discriminate H'; try reflexivity;
      try exact U; try (exfalso; eapply N; reflexivity).
    + apply Ins in H'. destruct H' as [t Ht]. discriminate Ht.
    + apply Ins in H'. destruct H' as [t' Ht]. discriminate Ht.
  - destruct (Ins U) as [t ->].
    split; split; intro H'; try discriminate H'; try reflexivity; try exact U.
    exfalso. eapply (Num H'). reflexivity.
Qed.

Lemma axis_type_fits_every_point_witness :
  xaxisType {| timeAxisName := js "X"; valueAxisName := js "Value";
               dataPoints := [(XDate 1704067200000, ofZ 10)] |} = DateAxis
  <-> allInstants [(XDate 1704067200000, ofZ 10)].
Proof.
  apply (proj1 (axis_type_fits_every_point (js "2024-01-01,10")
                  {| timeAxisName := js "X"; valueAxisName := js "Value";
                     dataPoints := [(XDate 1704067200000, ofZ 10)] |}
                  ltac:(vm_compute; reflexivity))).
Defined.

(** ** Rounding to binary64, against integers

    What the list view needs of the arithmetic of doubles: a rounded result
    is never on the other side of an integer below 2^53 than the exact
    one, and sums, differences and products of such integers are exact. *)

Lemma digits2_bounds (p : positive) :
  2 ^ (Zpos (digits2_pos p) - 1) <= Zpos p < 2 ^ Zpos (digits2_pos p).
Proof.
  induction p as [p IH|p IH|]; cbn [digits2_pos].
  - rewrite Pos2Z.inj_succ. replace (Z.succ (Zpos (digits2_pos p)) - 1) with (Z.succ (Zpos (digits2_pos p) - 1)) by lia.
    rewrite !Z.pow_succ_r by lia. lia.
  - rewrite Pos2Z.inj_succ. replace (Z.succ (Zpos (digits2_pos p)) - 1) with (Z.succ (Zpos (digits2_pos p) - 1)) by lia.
    rewrite !Z.pow_succ_r by lia. lia.
  - cbn. lia.
Qed.

Lemma shr_1_spec (m : Z) (r s : bool) :
  0 <= m ->
  let x := shr_1 {| shr_m := m; shr_r := r; shr_s := s |} in
  0 <= shr_m x /\ shr_m x = m / 2 /\ (shr_r x = true -> shr_m x * 2 < m).
Proof.
  intro H. destruct m as [|p|p]; [| |lia].
  - cbn. repeat split; try lia; try discriminate.
  - destruct p as [p|p|]; cbn [shr_1 shr_m shr_r].
    + repeat split; try lia. rewrite Pos2Z.inj_xI. Z.div_mod_to_equations. lia.
    + repeat split; try lia; try discriminate.
      rewrite Pos2Z.inj_xO. Z.div_mod_to_equations. lia.
    + repeat split; try lia; try discriminate; try reflexivity.
Qed.

Lemma shifted_trans (a b : Z) (x y z : shr_record) :
  0 <= a -> 0 <= b -> 0 <= shr_m x ->
  shifted a x y -> shifted b y z -> shifted (a + b) x z.
Proof.
  intros Ha Hb Hx (Y0 & Y1 & Y2) (Z0 & Z1 & Z2).
  assert (Pa : 0 < 2 ^ a) by (apply Z.pow_pos_nonneg; lia).
  assert (Pb : 0 < 2 ^ b) by (apply Z.pow_pos_nonneg; lia).
  repeat split; [exact Z0 | |].
  - rewrite Z1, Y1, Z.pow_add_r, Z.div_div by lia. reflexivity.
  - intro R. specialize (Z2 R). rewrite Z.pow_add_r by lia.
    assert (shr_m y * 2 ^ a <= shr_m x).
    { rewrite Y1. rewrite Z.mul_comm. apply Z.mul_div_le. lia. }
    nia.
Qed.

Lemma iter_shr_1 (p : positive) (x : shr_record) :
  0 <= shr_m x -> shifted (Zpos p) x (iter_pos shr_1 p x).
Proof.
  revert x; induction p as [p IH|p IH|]; intros x Hx; cbn [iter_pos].
  - assert (S1 : shifted 1 x (shr_1 x)).
    { destruct x as [m r s]. pose proof (shr_1_spec m r s Hx) as (A & B & C).
      repeat split; [exact A | rewrite B; reflexivity | intro R; specialize (C R); cbn [shr_m] in *; lia]. }
    pose proof (IH (shr_1 x) (proj1 S1)) as S2.
    pose proof (IH _ (proj1 S2)) as S3.
    replace (Zpos p~1) with (1 + Zpos p + Zpos p) by lia.
    eapply shifted_trans; [lia | lia | exact Hx | | exact S3].
    eapply shifted_trans; [lia | lia | exact Hx | exact S1 | exact S2].
  - pose proof (IH x Hx) as S2.
    pose proof (IH _ (proj1 S2)) as S3.
    replace (Zpos p~0) with (Zpos p + Zpos p) by lia.
    eapply shifted_trans; [lia | lia | exact Hx | exact S2 | exact S3].
  - destruct x as [m r s]. pose proof (shr_1_spec m r s Hx) as (A & B & C).
    repeat split; [exact A | rewrite B; reflexivity | intro R; specialize (C R); cbn [shr_m] in *; lia].
Qed.

(** *** Floors and ceilings of [m * 2 ^ e] *)

Lemma pow2_pos (k : Z) : 0 <= k -> 0 < 2 ^ k.
Proof. intro H. apply Z.pow_pos_nonneg; lia. Qed.

Lemma floorPow_mono (m m' e : Z) : m <= m' -> floorPow m e <= floorPow m' e.
Proof.
  intro H. unfold floorPow. destruct (Z.leb_spec 0 e).
  - pose proof (pow2_pos e ltac:(lia)). nia.
  - apply Z.div_le_mono; [apply pow2_pos; lia | exact H].
Qed.

Lemma ceilPow_mono (m m' e : Z) : m <= m' -> ceilPow m e <= ceilPow m' e.
Proof.
  intro H. unfold ceilPow. pose proof (floorPow_mono (- m') (- m) e ltac:(lia)). lia.
Qed.

Lemma floor_le_ceil (m e : Z) : floorPow m e <= ceilPow m e.
Proof.
  unfold ceilPow, floorPow. destruct (Z.leb_spec 0 e); [lia|].
  pose proof (pow2_pos (- e) ltac:(lia)). Z.div_mod_to_equations. nia.
Qed.

Lemma floorPow_0 (e : Z) : floorPow 0 e = 0.
Proof. unfold floorPow. destruct (0 <=? e); [lia | reflexivity]. Qed.

(** Dropping low bits never raises the value, and keeps its floor. *)
Lemma step_ceil (m e e' : Z) :
  0 <= m -> e <= e' -> ceilPow (m / 2 ^ (e' - e)) e' <= ceilPow m e.
Proof.
  intros Hm He. unfold ceilPow, floorPow.
  pose proof (pow2_pos (e' - e) ltac:(lia)) as Pn.
  destruct (Z.leb_spec 0 e'), (Z.leb_spec 0 e); try lia.
  - replace (2 ^ e') with (2 ^ e * 2 ^ (e' - e))
      by (rewrite <- Z.pow_add_r by lia; f_equal; lia).
    pose proof (pow2_pos e ltac:(lia)).
    pose proof (Z.mul_div_le m (2 ^ (e' - e)) Pn). nia.
  - replace (2 ^ (e' - e)) with (2 ^ (- e) * 2 ^ e')
      by (rewrite <- Z.pow_add_r by lia; f_equal; lia).
    pose proof (pow2_pos e' ltac:(lia)). pose proof (pow2_pos (- e) ltac:(lia)).
    rewrite <- Z.div_div by lia.
    set (a := 2 ^ (- e)) in *. set (b := 2 ^ e') in *.
    Z.div_mod_to_equations. nia.
  - replace (2 ^ (- e)) with (2 ^ (e' - e) * 2 ^ (- e'))
      by (rewrite <- Z.pow_add_r by lia; f_equal; lia).
    pose proof (pow2_pos (- e') ltac:(lia)).
    set (a := 2 ^ (e' - e)) in *. set (b := 2 ^ (- e')) in *.
    Z.div_mod_to_equations. nia.
Qed.

Lemma step_floor (m e e' N : Z) :
  0 <= m -> e <= e' -> N < 2 ^ 53 ->
  (e < e' -> 0 < e' -> 2 ^ 52 <= m / 2 ^ (e' - e)) ->
  N <= floorPow m e -> N <= floorPow (m / 2 ^ (e' - e)) e'.
Proof.
  intros Hm He HN Hd H.
  destruct (Z.eq_dec e e') as [<-|Ne].
  { rewrite Z.sub_diag, Z.pow_0_r, Z.div_1_r. exact H. }
  unfold floorPow in *.
  destruct (Z.leb_spec 0 e').
  - destruct (Z.eq_dec e' 0) as [->|Ne'].
    + destruct (Z.leb_spec 0 e); [lia|]. rewrite Z.pow_0_r, Z.mul_1_r.
      replace (0 - e) with (- e) by lia. exact H.
    + specialize (Hd ltac:(lia) ltac:(lia)).
      assert (2 ^ 1 <= 2 ^ e') by (apply Z.pow_le_mono_r; lia).
      change (2 ^ 1) with 2 in *. change (2 ^ 53) with (2 ^ 52 * 2) in HN. nia.
  - destruct (Z.leb_spec 0 e); [lia|].
    rewrite Z.div_div by (try apply pow2_pos; lia).
    rewrite <- Z.pow_add_r by lia.
    replace (e' - e + - e') with (- e) by lia. exact H.
Qed.

(** One more unit in the last place stays below an integer the value is
    strictly below, as long as integers are on the grid. *)
Lemma round_up_below (m e N : Z) :
  0 <= m -> e <= 0 -> floorPow m e < N -> ceilPow (m + 1) e <= N.
Proof.
  intros Hm He H. unfold ceilPow, floorPow in *.
  destruct (Z.leb_spec 0 e).
  - replace e with 0 in * by lia. rewrite Z.pow_0_r in *. lia.
  - pose proof (pow2_pos (- e) ltac:(lia)). Z.div_mod_to_equations. nia.
Qed.

Lemma round_up_after_shift (m e e' N : Z) :
  0 <= m -> e <= e' -> e' <= 0 ->
  m / 2 ^ (e' - e) * 2 ^ (e' - e) < m ->
  ceilPow m e <= N -> ceilPow (m / 2 ^ (e' - e) + 1) e' <= N.
Proof.
  intros Hm He He' Hs H. apply round_up_below; [| exact He' |].
  { apply Z.div_pos; [exact Hm | apply pow2_pos; lia]. }
  unfold ceilPow, floorPow in *.
  pose proof (pow2_pos (e' - e) ltac:(lia)) as Pn.
  destruct (Z.leb_spec 0 e'), (Z.leb_spec 0 e); try lia.
  - replace e' with 0 in * by lia. replace e with 0 in * by lia.
    rewrite ?Z.sub_diag, ?Z.pow_0_r, ?Z.div_1_r, ?Z.mul_1_r in *. lia.
  - replace e' with 0 in * by lia. rewrite Z.pow_0_r, Z.mul_1_r.
    replace (0 - e) with (- e) in * by lia.
    set (a := 2 ^ (- e)) in *. Z.div_mod_to_equations. nia.
  - revert H. replace (2 ^ (- e)) with (2 ^ (e' - e) * 2 ^ (- e'))
      by (rewrite <- Z.pow_add_r by lia; f_equal; lia).
    pose proof (pow2_pos (- e') ltac:(lia)).
    set (a := 2 ^ (e' - e)) in *. set (b := 2 ^ (- e')) in *. intro H'.
    Z.div_mod_to_equations. nia.
Qed.

(** *** One rounding *)

Lemma fexp_value (e : Z) : fexp prec emax e = Z.max (e - 53) (-1074).
Proof. reflexivity. Qed.

Lemma shr_fexp_spec (m e : Z) (l : location) :
  0 <= m ->
  let y := fst (shr_fexp prec emax m e l) in
  let e' := snd (shr_fexp prec emax m e l) in
  0 <= shr_m y /\ e <= e' /\ shr_m y = m / 2 ^ (e' - e)
  /\ (shr_r y = true ->
      (e' = e /\ roundsUp l = true) \/ shr_m y * 2 ^ (e' - e) < m)
  /\ (e < e' -> 0 < e' -> 2 ^ 52 <= shr_m y).
Proof.
  intro Hm. unfold shr_fexp, shr. rewrite fexp_value.
  set (d := Zdigits2 m).
  destruct (Z.max (d + e - 53) (-1074) - e) as [|p|p] eqn:En; cbn [fst snd].
  - assert (R : shr_m (shr_record_of_loc m l) = m) by (destruct l as [|[]]; reflexivity).
    assert (R' : shr_r (shr_record_of_loc m l) = roundsUp l) by (destruct l as [|[]]; reflexivity).
    rewrite R, R', Z.sub_diag, Z.pow_0_r, Z.div_1_r.
    repeat split; try lia. intro H; left; split; [reflexivity | exact H].
  - assert (R : shr_m (shr_record_of_loc m l) = m) by (destruct l as [|[]]; reflexivity).
    pose proof (iter_shr_1 p (shr_record_of_loc m l) ltac:(rewrite R; exact Hm))
      as (A & B & C).
    rewrite R in B, C. replace (e + Zpos p - e) with (Zpos p) by lia.
    repeat split; try lia; try assumption.
    + intro H. right. apply C, H.
    + intros _ He'. rewrite B.
      destruct m as [|q|q]; [| |lia].
      { cbn in d. lia. }
      pose proof (digits2_bounds q) as [Lo _]. cbn in d. fold d in Lo.
      assert (Ep : Zpos p = d - 53) by lia. rewrite Ep.
      replace (2 ^ 52) with (2 ^ (d - 1) / 2 ^ (d - 53)).
      * apply Z.div_le_mono; [apply pow2_pos; lia | exact Lo].
      * rewrite <- Z.pow_sub_r by lia. f_equal. lia.
  - assert (R : shr_m (shr_record_of_loc m l) = m) by (destruct l as [|[]]; reflexivity).
    assert (R' : shr_r (shr_record_of_loc m l) = roundsUp l) by (destruct l as [|[]]; reflexivity).
    rewrite R, R', Z.sub_diag, Z.pow_0_r, Z.div_1_r.
    repeat split; try lia. intro H; left; split; [reflexivity | exact H].
Qed.

Lemma round_nearest_even_spec (y : shr_record) :
  let m' := round_nearest_even (shr_m y) (loc_of_shr_record y) in
  (m' = shr_m y) \/ (m' = shr_m y + 1 /\ shr_r y = true).
Proof.
  destruct y as [m [|] [|]]; cbn [round_nearest_even loc_of_shr_record shr_m shr_r];
    try (left; reflexivity); try (right; split; reflexivity).
  destruct (Z.even m); [left | right; split]; reflexivity.
Qed.

Lemma round_aux_ge (mx ex : Z) (lx : location) (N : Z) :
  0 <= mx -> N < 2 ^ 53 -> N <= floorPow mx ex ->
  geN N (binary_round_aux prec emax false mx ex lx).
Proof.
  intros Hm HN H. unfold binary_round_aux.
  pose proof (shr_fexp_spec mx ex lx Hm) as S1.
  destruct (shr_fexp prec emax mx ex lx) as [y1 e1]. cbn [fst snd] in S1.
  destruct S1 as (P1 & E1 & M1 & _ & D1).
  pose proof (round_nearest_even_spec y1) as Rn.
  set (m2 := round_nearest_even (shr_m y1) (loc_of_shr_record y1)) in *.
  assert (Hm2 : shr_m y1 <= m2) by (cbv zeta in Rn; lia).
  pose proof (shr_fexp_spec m2 e1 loc_Exact ltac:(lia)) as S2.
  destruct (shr_fexp prec emax m2 e1 loc_Exact) as [y2 e2]. cbn [fst snd] in S2.
  destruct S2 as (P2 & E2 & M2 & _ & D2).
  assert (G1 : N <= floorPow (shr_m y1) e1).
  { rewrite M1. apply step_floor; try assumption; try lia. }
  assert (G2 : N <= floorPow m2 e1).
  { pose proof (floorPow_mono _ _ e1 Hm2). lia. }
  assert (G3 : N <= floorPow (shr_m y2) e2).
  { rewrite M2. apply step_floor; try assumption; try lia. }
  destruct (shr_m y2) as [|m|m] eqn:Ey; cbn [geN].
  - rewrite floorPow_0 in G3. exact G3.
  - destruct (e2 <=? emax - prec); cbn [geN cond_Zopp]; [exact G3 | reflexivity].
  - lia.
Qed.

Lemma round_aux_le (mx ex : Z) (lx : location) (N : Z) :
  0 <= mx -> 0 <= N < 2 ^ 53 ->
  lx = loc_Exact \/ ex <= 0 \/ 2 ^ 52 <= mx ->
  ceilPow mx ex <= N ->
  (roundsUp lx = true -> floorPow mx ex < N) ->
  leN (binary_round_aux prec emax false mx ex lx) N.
Proof.
  intros Hm HN Hc H Hu. unfold binary_round_aux.
  pose proof (shr_fexp_spec mx ex lx Hm) as S1.
  destruct (shr_fexp prec emax mx ex lx) as [y1 e1]. cbn [fst snd] in S1.
  destruct S1 as (P1 & E1 & M1 & U1 & D1).
  pose proof (round_nearest_even_spec y1) as Rn.
  set (m2 := round_nearest_even (shr_m y1) (loc_of_shr_record y1)) in *.
  cbv zeta in Rn.
  assert (L1 : ceilPow (shr_m y1) e1 <= N).
  { rewrite M1. pose proof (step_ceil mx ex e1 Hm E1). lia. }
  assert (Big : forall m e, 0 < e -> 2 ^ 52 <= m -> N < ceilPow m e).
  { intros m e He Hb. unfold ceilPow, floorPow.
    destruct (Z.leb_spec 0 e); [|lia].
    assert (2 ^ 1 <= 2 ^ e) by (apply Z.pow_le_mono_r; lia).
    change (2 ^ 1) with 2 in *. change (2 ^ 53) with (2 ^ 52 * 2) in HN. nia. }
  assert (L2 : ceilPow m2 e1 <= N).
  { destruct Rn as [->|[-> R]]; [exact L1|].
    destruct (U1 R) as [[-> Ru]|St].
    - specialize (Hu Ru). rewrite Z.sub_diag, Z.pow_0_r, Z.div_1_r in M1.
      rewrite M1. destruct (Z.leb_spec ex 0) as [Le|Gt].
      + apply round_up_below; assumption.
      + destruct Hc as [->|[?|Hb]]; [discriminate Ru | lia |].
        pose proof (Big mx ex Gt Hb). lia.
    - destruct (Z.leb_spec e1 0) as [Le|Gt].
      + rewrite M1. apply round_up_after_shift; try assumption.
        rewrite <- M1. exact St.
      + assert (ex < e1).
        { destruct (Z.eq_dec ex e1) as [<-|]; [|lia].
          rewrite Z.sub_diag, Z.pow_0_r, Z.mul_1_r in St.
          rewrite Z.sub_diag, Z.pow_0_r, Z.div_1_r in M1. lia. }
        pose proof (Big (shr_m y1) e1 Gt (D1 ltac:(lia) Gt)). lia. }
  assert (Hm2 : 0 <= m2) by lia.
  pose proof (shr_fexp_spec m2 e1 loc_Exact Hm2) as S2.
  destruct (shr_fexp prec emax m2 e1 loc_Exact) as [y2 e2]. cbn [fst snd] in S2.
  destruct S2 as (P2 & E2 & M2 & _ & D2).
  assert (L3 : ceilPow (shr_m y2) e2 <= N).
  { rewrite M2. pose proof (step_ceil m2 e1 e2 Hm2 E2). lia. }
  destruct (shr_m y2) as [|m|m] eqn:Ey; cbn [leN].
  - lia.
  - destruct (Z.leb_spec e2 (emax - prec)) as [Le|Gt]; cbn [leN cond_Zopp]; [exact L3|].
    exfalso. unfold emax, prec in Gt. unfold ceilPow, floorPow in L3.
    destruct (Z.leb_spec 0 e2); [|lia].
    assert (2 ^ 53 <= 2 ^ e2) by (apply Z.pow_le_mono_r; lia). nia.
  - lia.
Qed.

(** Comparing [m * 2 ^ e] with an integer, on a common scale. *)
Lemma floor_scaled (m e k N : Z) :
  k <= e -> k <= 0 ->
  (N <= floorPow m e <-> N * 2 ^ (- k) <= m * 2 ^ (e - k)).
Proof.
  intros Hk H0. unfold floorPow.
  pose proof (pow2_pos (- k) ltac:(lia)) as Pk.
  pose proof (pow2_pos (e - k) ltac:(lia)) as Pek.
  destruct (Z.leb_spec 0 e).
  - replace (2 ^ (e - k)) with (2 ^ e * 2 ^ (- k))
      by (rewrite <- Z.pow_add_r by lia; f_equal; lia).
    rewrite Z.mul_assoc. split; intro G.
    + apply Z.mul_le_mono_nonneg_r; lia.
    + apply Z.mul_le_mono_pos_r in G; lia.
  - pose proof (pow2_pos (- e) ltac:(lia)) as Pe.
    replace (2 ^ (- k)) with (2 ^ (- e) * 2 ^ (e - k))
      by (rewrite <- Z.pow_add_r by lia; f_equal; lia).
    rewrite Z.mul_assoc. split; intro G.
    + apply Z.mul_le_mono_nonneg_r; [lia|].
      pose proof (Z.mul_div_le m (2 ^ (- e)) Pe). nia.
    + apply Z.mul_le_mono_pos_r in G; [|lia].
      apply Z.div_le_lower_bound; [exact Pe|]. lia.
Qed.

Lemma ceil_scaled (m e k N : Z) :
  k <= e -> k <= 0 ->
  (ceilPow m e <= N <-> m * 2 ^ (e - k) <= N * 2 ^ (- k)).
Proof.
  intros Hk H0. unfold ceilPow.
  pose proof (floor_scaled (- m) e k (- N) Hk H0) as F. split; intro G.
  - assert (- N <= floorPow (- m) e) by lia. apply F in H. lia.
  - assert (- N * 2 ^ (- k) <= - m * 2 ^ (e - k)) by lia. apply F in H. lia.
Qed.

Lemma round_aux_opp (s : bool) (mx ex : Z) (lx : location) :
  binary_round_aux prec emax (negb s) mx ex lx
  = SFopp (binary_round_aux prec emax s mx ex lx).
Proof.
  unfold binary_round_aux.
  destruct (shr_fexp prec emax mx ex lx) as [y1 e1].
  destruct (shr_fexp prec emax _ e1 loc_Exact) as [y2 e2].
  destruct (shr_m y2); [reflexivity | | reflexivity].
  destruct (e2 <=? emax - prec); reflexivity.
Qed.

Lemma floorPow_opp (m e : Z) : floorPow (- m) e = - ceilPow m e.
Proof. unfold ceilPow. lia. Qed.

Lemma ceilPow_opp (m e : Z) : ceilPow (- m) e = - floorPow m e.
Proof. unfold ceilPow. rewrite Z.opp_involutive. reflexivity. Qed.

Lemma cond_Zopp_negb (s : bool) (m : Z) : cond_Zopp (negb s) m = - cond_Zopp s m.
Proof. destruct s; cbn; lia. Qed.

Lemma geN_opp (x : number) (N : Z) : geN N (SFopp x) <-> leN x (- N).
Proof.
  destruct x as [s|s| |s m e]; cbn [SFopp geN leN]; try tauto; try lia.
  - destruct s; cbn; split; congruence.
  - rewrite cond_Zopp_negb, floorPow_opp. lia.
Qed.

Lemma leN_opp (x : number) (N : Z) : leN (SFopp x) N <-> geN (- N) x.
Proof.
  destruct x as [s|s| |s m e]; cbn [SFopp geN leN]; try tauto; try lia.
  - destruct s; cbn; split; congruence.
  - rewrite cond_Zopp_negb, ceilPow_opp. lia.
Qed.

Lemma ceilPow_pos (m e : Z) : 0 < m -> 0 < ceilPow m e.
Proof.
  intro H. unfold ceilPow, floorPow. destruct (Z.leb_spec 0 e).
  - pose proof (pow2_pos e ltac:(lia)). nia.
  - pose proof (pow2_pos (- e) ltac:(lia)). Z.div_mod_to_equations. nia.
Qed.

Lemma floorPow_nonneg (m e : Z) : 0 <= m -> 0 <= floorPow m e.
Proof.
  intro H. unfold floorPow. destruct (Z.leb_spec 0 e).
  - pose proof (pow2_pos e ltac:(lia)). nia.
  - apply Z.div_pos; [exact H | apply pow2_pos; lia].
Qed.

(** Rounding with a sign. *)
Lemma round_signed_ge (s : bool) (mx ex : Z) (lx : location) (N : Z) :
  0 <= mx -> - 2 ^ 53 < N < 2 ^ 53 ->
  lx = loc_Exact \/ ex <= 0 \/ 2 ^ 52 <= mx ->
  N <= floorPow (cond_Zopp s mx) ex ->
  (s = true -> roundsUp lx = true -> N < ceilPow (cond_Zopp s mx) ex) ->
  geN N (binary_round_aux prec emax s mx ex lx).
Proof.
  intros Hm HN Hc H Hu. destruct s.
  - change true with (negb false). rewrite round_aux_opp. apply geN_opp.
    cbn [cond_Zopp] in *. rewrite floorPow_opp in H.
    pose proof (floor_le_ceil mx ex). pose proof (floorPow_nonneg mx ex Hm).
    apply round_aux_le; try assumption; try lia.
    intro R. specialize (Hu eq_refl R). rewrite ceilPow_opp in Hu. lia.
  - apply round_aux_ge; try assumption; lia.
Qed.

Lemma round_signed_le (s : bool) (mx ex : Z) (lx : location) (N : Z) :
  0 <= mx -> - 2 ^ 53 < N < 2 ^ 53 ->
  lx = loc_Exact \/ ex <= 0 \/ 2 ^ 52 <= mx ->
  ceilPow (cond_Zopp s mx) ex <= N ->
  (s = false -> roundsUp lx = true -> floorPow (cond_Zopp s mx) ex < N) ->
  leN (binary_round_aux prec emax s mx ex lx) N.
Proof.
  intros Hm HN Hc H Hu. destruct s.
  - change true with (negb false). rewrite round_aux_opp. apply leN_opp.
    cbn [cond_Zopp] in *. rewrite ceilPow_opp in H.
    apply round_aux_ge; try assumption; lia.
  - cbn [cond_Zopp] in *.
    pose proof (floor_le_ceil mx ex). pose proof (floorPow_nonneg mx ex Hm).
    apply round_aux_le; try assumption; try lia. intro R; apply Hu; [reflexivity | exact R].
Qed.

(** *** Integers as numbers *)

Lemma floorPow_shl (m e e' : Z) :
  e' <= e -> floorPow (m * 2 ^ (e - e')) e' = floorPow m e.
Proof.
  intro H.
  assert (A : forall N, N <= floorPow (m * 2 ^ (e - e')) e' <-> N <= floorPow m e).
  { intro N. rewrite (floor_scaled _ e' (Z.min e' 0) N) by lia.
    rewrite (floor_scaled _ e (Z.min e' 0) N) by lia.
    rewrite <- Z.mul_assoc, <- Z.pow_add_r by lia.
    replace (e - e' + (e' - Z.min e' 0)) with (e - Z.min e' 0) by lia. tauto. }
  apply Z.le_antisymm; apply A; lia.
Qed.

Lemma ceilPow_shl (m e e' : Z) :
  e' <= e -> ceilPow (m * 2 ^ (e - e')) e' = ceilPow m e.
Proof.
  intro H. unfold ceilPow. rewrite <- Z.mul_opp_l, floorPow_shl by exact H. reflexivity.
Qed.

Lemma iter_xO (m d : positive) : Zpos (Pos.iter xO m d) = Zpos m * 2 ^ Zpos d.
Proof.
  induction d as [|d IH] using Pos.peano_ind.
  - cbn [Pos.iter]. rewrite Pos2Z.inj_xO. change (2 ^ 1) with 2. lia.
  - rewrite Pos.iter_succ, Pos2Z.inj_xO, IH, Pos2Z.inj_succ, Z.pow_succ_r by lia. lia.
Qed.

Lemma shl_align_spec (mx : positive) (ex ex' : Z) :
  snd (shl_align mx ex ex') <= ex
  /\ Zpos (fst (shl_align mx ex ex'))
     = Zpos mx * 2 ^ (ex - snd (shl_align mx ex ex')).
Proof.
  unfold shl_align. destruct (ex' - ex) as [|d|d] eqn:E; cbn [fst snd].
  - rewrite Z.sub_diag. lia.
  - rewrite Z.sub_diag. lia.
  - split; [lia|]. rewrite iter_xO. f_equal. f_equal. lia.
Qed.

Lemma binary_round_ge (s : bool) (mx : positive) (ex N : Z) :
  - 2 ^ 53 < N < 2 ^ 53 ->
  N <= floorPow (cond_Zopp s (Zpos mx)) ex ->
  geN N (binary_round prec emax s mx ex).
Proof.
  intros HN H. unfold binary_round.
  pose proof (shl_align_spec mx ex (fexp prec emax (Zpos (digits2_pos mx) + ex))) as [A B].
  destruct (shl_align mx ex _) as [mz ez]. cbn [fst snd] in A, B.
  apply round_signed_ge; try lia; [left; reflexivity | | discriminate].
  rewrite B. replace (cond_Zopp s (Zpos mx * 2 ^ (ex - ez)))
    with (cond_Zopp s (Zpos mx) * 2 ^ (ex - ez)) by (destruct s; cbn [cond_Zopp]; lia).
  rewrite floorPow_shl by exact A. exact H.
Qed.

Lemma binary_round_le (s : bool) (mx : positive) (ex N : Z) :
  - 2 ^ 53 < N < 2 ^ 53 ->
  ceilPow (cond_Zopp s (Zpos mx)) ex <= N ->
  leN (binary_round prec emax s mx ex) N.
Proof.
  intros HN H. unfold binary_round.
  pose proof (shl_align_spec mx ex (fexp prec emax (Zpos (digits2_pos mx) + ex))) as [A B].
  destruct (shl_align mx ex _) as [mz ez]. cbn [fst snd] in A, B.
  apply round_signed_le; try lia; [left; reflexivity | | discriminate].
  rewrite B. replace (cond_Zopp s (Zpos mx * 2 ^ (ex - ez)))
    with (cond_Zopp s (Zpos mx) * 2 ^ (ex - ez)) by (destruct s; cbn [cond_Zopp]; lia).
  rewrite ceilPow_shl by exact A. exact H.
Qed.

Lemma normalize_ge (M e : Z) (sz : bool) (N : Z) :
  - 2 ^ 53 < N < 2 ^ 53 -> N <= floorPow M e ->
  geN N (binary_normalize prec emax M e sz).
Proof.
  intros HN H. destruct M as [|p|p]; cbn [binary_normalize].
  - rewrite floorPow_0 in H. exact H.
  - apply binary_round_ge; assumption.
  - apply binary_round_ge; assumption.
Qed.

Lemma normalize_le (M e : Z) (sz : bool) (N : Z) :
  - 2 ^ 53 < N < 2 ^ 53 -> ceilPow M e <= N ->
  leN (binary_normalize prec emax M e sz) N.
Proof.
  intros HN H. destruct M as [|p|p]; cbn [binary_normalize].
  - unfold ceilPow in H. cbn [Z.opp] in H. rewrite floorPow_0 in H. cbn [leN]. lia.
  - apply binary_round_le; assumption.
  - apply binary_round_le; assumption.
Qed.

Lemma toZ_spec (x : number) (v : Z) : toZ x = Some v <-> geN v x /\ leN x v.
Proof.
  destruct x as [s|s| |s m e]; cbn [toZ geN leN].
  - split; [intro H; inversion H; lia | intros [? ?]; f_equal; lia].
  - split; [discriminate | intros [-> H]; discriminate H].
  - split; [discriminate | tauto].
  - pose proof (floor_le_ceil (cond_Zopp s (Zpos m)) e).
    destruct (Z.eqb_spec (floorPow (cond_Zopp s (Zpos m)) e) (ceilPow (cond_Zopp s (Zpos m)) e)).
    + split; [intro E; inversion E; lia | intros [? ?]; f_equal; lia].
    + split; [discriminate | lia].
Qed.

Lemma toZ_ofZ (z : Z) : - 2 ^ 53 < z < 2 ^ 53 -> toZ (ofZ z) = Some z.
Proof.
  intro H. apply toZ_spec. unfold ofZ. split.
  - apply normalize_ge; [exact H|]. unfold floorPow. cbn. lia.
  - apply normalize_le; [exact H|]. unfold ceilPow, floorPow. cbn. lia.
Qed.

(** *** Sums and differences *)

Lemma shl_align_min (s : bool) (mx : positive) (ex ez : Z) :
  ez <= ex ->
  cond_Zopp s (Zpos (fst (shl_align mx ex ez)))
  = cond_Zopp s (Zpos mx) * 2 ^ (ex - ez).
Proof.
  intro H. unfold shl_align. destruct (ez - ex) as [|d|d] eqn:E; cbn [fst].
  - replace (ex - ez) with 0 by lia. rewrite Z.pow_0_r. lia.
  - lia.
  - rewrite iter_xO. replace (ex - ez) with (Zpos d) by lia.
    destruct s; cbn [cond_Zopp]; lia.
Qed.

Lemma scaled_sum (a ea b eb k : Z) :
  k <= Z.min ea eb ->
  (a * 2 ^ (ea - Z.min ea eb) + b * 2 ^ (eb - Z.min ea eb)) * 2 ^ (Z.min ea eb - k)
  = a * 2 ^ (ea - k) + b * 2 ^ (eb - k).
Proof.
  intro H. rewrite Z.mul_add_distr_r, <- !Z.mul_assoc, <- !Z.pow_add_r by lia.
  f_equal; f_equal; f_equal; lia.
Qed.

Lemma toZ_scaled (s : bool) (m : positive) (e k v : Z) :
  toZ (S754_finite s m e) = Some v -> k <= e -> k <= 0 ->
  cond_Zopp s (Zpos m) * 2 ^ (e - k) = v * 2 ^ (- k).
Proof.
  intros H Hk H0. apply toZ_spec in H. destruct H as [G L]. cbn [geN leN] in G, L.
  apply (floor_scaled _ e k v Hk H0) in G. apply (ceil_scaled _ e k v Hk H0) in L. lia.
Qed.

Lemma add_finite_ge (sx : bool) (mx : positive) (ex : Z)
      (sy : bool) (my : positive) (ey : Z) (v N : Z) :
  toZ (S754_finite sy my ey) = Some v ->
  - 2 ^ 53 < N + v < 2 ^ 53 ->
  N <= floorPow (cond_Zopp sx (Zpos mx)) ex ->
  geN (N + v) (SFadd prec emax (S754_finite sx mx ex) (S754_finite sy my ey)).
Proof.
  intros Hy HN H. cbn [SFadd]. apply normalize_ge; [exact HN|].
  change (IntDef.Z.min ex ey) with (Z.min ex ey).
  rewrite !shl_align_min by lia.
  set (k := Z.min (Z.min ex ey) 0).
  apply (floor_scaled _ _ k); [lia | lia |].
  rewrite scaled_sum by lia.
  apply (floor_scaled _ ex k N) in H; [|lia|lia].
  rewrite (toZ_scaled sy my ey k v Hy) by lia. lia.
Qed.

Lemma add_finite_le (sx : bool) (mx : positive) (ex : Z)
      (sy : bool) (my : positive) (ey : Z) (v N : Z) :
  toZ (S754_finite sy my ey) = Some v ->
  - 2 ^ 53 < N + v < 2 ^ 53 ->
  ceilPow (cond_Zopp sx (Zpos mx)) ex <= N ->
  leN (SFadd prec emax (S754_finite sx mx ex) (S754_finite sy my ey)) (N + v).
Proof.
  intros Hy HN H. cbn [SFadd]. apply normalize_le; [exact HN|].
  change (IntDef.Z.min ex ey) with (Z.min ex ey).
  rewrite !shl_align_min by lia.
  set (k := Z.min (Z.min ex ey) 0).
  apply (ceil_scaled _ _ k); [lia | lia |].
  rewrite scaled_sum by lia.
  apply (ceil_scaled _ ex k N) in H; [|lia|lia].
  rewrite (toZ_scaled sy my ey k v Hy) by lia. lia.
Qed.

(** Adding an integer shifts every integer bound by it. *)
Lemma add_ge (x y : number) (v N : Z) :
  toZ y = Some v -> - 2 ^ 53 < N + v < 2 ^ 53 ->
  geN N x -> geN (N + v) (SFadd prec emax x y).
Proof.
  intros Hy HN H.
  destruct x as [sx|sx| |sx mx ex]; [| | destruct H |];
    destruct y as [sy|sy| |sy my ey]; try discriminate Hy.
  - inversion Hy; subst v. cbn [geN] in H.
    cbn [SFadd]. destruct sx, sy; cbn [geN]; lia.
  - apply toZ_spec in Hy. destruct Hy as [G _]. cbn [SFadd geN] in *. lia.
  - exact H.
  - exact H.
  - inversion Hy; subst v. cbn [SFadd geN] in *. lia.
  - apply add_finite_ge; assumption.
Qed.

Lemma add_le (x y : number) (v N : Z) :
  toZ y = Some v -> - 2 ^ 53 < N + v < 2 ^ 53 ->
  leN x N -> leN (SFadd prec emax x y) (N + v).
Proof.
  intros Hy HN H.
  destruct x as [sx|sx| |sx mx ex]; [| | destruct H |];
    destruct y as [sy|sy| |sy my ey]; try discriminate Hy.
  - inversion Hy; subst v. cbn [leN] in H.
    cbn [SFadd]. destruct sx, sy; cbn [leN]; lia.
  - apply toZ_spec in Hy. destruct Hy as [_ L]. cbn [SFadd leN] in *. lia.
  - exact H.
  - exact H.
  - inversion Hy; subst v. cbn [SFadd leN] in *. lia.
  - apply add_finite_le; assumption.
Qed.

Lemma SFsub_add_opp (x y : number) :
  SFsub prec emax x y = SFadd prec emax x (SFopp y).
Proof.
  destruct x as [sx|sx| |sx mx ex]; destruct y as [sy|sy| |sy my ey];
    cbn [SFsub SFadd SFopp]; try reflexivity;
    try (destruct sx, sy; reflexivity).
Qed.

Lemma toZ_opp (y : number) (v : Z) : toZ y = Some v -> toZ (SFopp y) = Some (- v).
Proof.
  intro H. apply toZ_spec in H. apply toZ_spec. destruct H as [G L]. split.
  - apply geN_opp. rewrite Z.opp_involutive. exact L.
  - apply leN_opp. rewrite Z.opp_involutive. exact G.
Qed.

Lemma sub_ge (x y : number) (v N : Z) :
  toZ y = Some v -> - 2 ^ 53 < N - v < 2 ^ 53 ->
  geN N x -> geN (N - v) (SFsub prec emax x y).
Proof.
  intros Hy HN H. rewrite SFsub_add_opp. apply toZ_opp in Hy.
  apply (add_ge x _ (- v) N); assumption.
Qed.

Lemma sub_le (x y : number) (v N : Z) :
  toZ y = Some v -> - 2 ^ 53 < N - v < 2 ^ 53 ->
  leN x N -> leN (SFsub prec emax x y) (N - v).
Proof.
  intros Hy HN H. rewrite SFsub_add_opp. apply toZ_opp in Hy.
  apply (add_le x _ (- v) N); assumption.
Qed.

(** *** Division by the row height *)

Lemma rowHeight_value : rowHeight = S754_finite false 8444249301319680 (-48).
Proof. vm_compute. reflexivity. Qed.

Ltac stdZ :=
  repeat match goal with
    | |- context [IntDef.Z.min ?a ?b] => change (IntDef.Z.min a b) with (Z.min a b)
    | |- context [IntDef.Z.max ?a ?b] => change (IntDef.Z.max a b) with (Z.max a b)
    | |- context [IntDef.Z.sub ?a ?b] => change (IntDef.Z.sub a b) with (Z.sub a b)
    | |- context [IntDef.Z.add ?a ?b] => change (IntDef.Z.add a b) with (Z.add a b)
    | |- context [IntDef.Z.shiftl ?a ?b] => change (IntDef.Z.shiftl a b) with (Z.shiftl a b)
    | |- context [IntDef.Z.div_eucl ?a ?b] =>
        change (IntDef.Z.div_eucl a b) with (Z.div_eucl a b)
    end.

Lemma div_core_30 (mx : positive) (ex : Z) :
  let '(q, e', l) :=
    SFdiv_core_binary prec emax (Zpos mx) ex 8444249301319680 (-48) in
  0 <= q /\ e' <= ex + 48
  /\ q * 8444249301319680 <= Zpos mx * 2 ^ (ex + 48 - e') < (q + 1) * 8444249301319680
  /\ (roundsUp l = true -> q * 8444249301319680 < Zpos mx * 2 ^ (ex + 48 - e'))
  /\ (e' <= 0 \/ 2 ^ 52 <= q).
Proof.
  unfold SFdiv_core_binary.
  change (Zdigits2 8444249301319680) with 53.
  cbn [Zdigits2]. set (d := Zpos (digits2_pos mx)).
  rewrite fexp_value. stdZ.
  set (e' := Z.min (Z.max (d + ex - (53 + -48) - 53) (-1074)) (ex - -48)).
  set (s := ex - -48 - e').
  assert (Hs : 0 <= s) by (subst s e'; lia).
  set (m' := match s with Z0 => Zpos mx | Zpos _ => Z.shiftl (Zpos mx) s | Zneg _ => 0 end).
  assert (Em : m' = Zpos mx * 2 ^ s).
  { subst m'. destruct s as [|p|p] eqn:Es; [rewrite Z.pow_0_r; lia | | lia].
    apply Z.shiftl_mul_pow2. lia. }
  pose proof (Z_div_mod m' 8444249301319680 ltac:(lia)) as DM.
  destruct (Z.div_eucl m' 8444249301319680) as [q r]. destruct DM as [DM Rr].
  replace (ex + 48 - e') with s by (subst s; lia). rewrite <- Em.
  assert (Hm' : 0 < m') by (rewrite Em; pose proof (pow2_pos s Hs); nia).
  assert (Hq : 0 <= q) by nia.
  repeat split; try lia.
  - intro R. destruct (Z.eq_dec r 0) as [->|Nr]; [|lia].
    exfalso. revert R. unfold new_location.
    change (Z.even 8444249301319680) with true. cbv iota.
    unfold new_location_even. cbn. discriminate.
  - destruct (Z.leb_spec e' 0) as [Le|Gt]; [left; exact Le | right].
    pose proof (digits2_bounds mx) as [Lo _]. fold d in Lo.
    assert (105 <= d - 1 + s) by (subst s e'; lia).
    assert (2 ^ 105 <= m').
    { rewrite Em. apply Z.le_trans with (2 ^ (d - 1) * 2 ^ s).
      - rewrite <- Z.pow_add_r by lia. apply Z.pow_le_mono_r; lia.
      - apply Z.mul_le_mono_nonneg_r; [apply Z.lt_le_incl, pow2_pos; exact Hs | exact Lo]. }
    change (2 ^ 105) with 40564819207303340847894502572032 in *.
    change (2 ^ 52) with 4503599627370496. lia.
Qed.

Lemma div30_pos_ge (mx : positive) (ex N : Z) :
  N < 2 ^ 52 -> 30 * N <= floorPow (Zpos mx) ex ->
  geN N (SFdiv prec emax (S754_finite false mx ex) rowHeight).
Proof.
  intros HN H. rewrite rowHeight_value. cbn [SFdiv xorb].
  pose proof (div_core_30 mx ex) as C.
  destruct (SFdiv_core_binary prec emax (Zpos mx) ex 8444249301319680 (-48))
    as [[q e'] l].
  destruct C as (Hq & He & [Lo Hi] & _ & Hc).
  apply round_aux_ge; [exact Hq | change (2 ^ 53) with (2 ^ 52 * 2); lia |].
  destruct (Z.leb_spec N 0) as [Neg|Pos].
  { pose proof (floorPow_nonneg q e' Hq). lia. }
  destruct (Z.leb_spec e' 0) as [Le|Gt].
  - apply (floor_scaled q e' e' N); [lia | exact Le |].
    rewrite Z.sub_diag, Z.pow_0_r, Z.mul_1_r.
    apply (floor_scaled _ ex (e' - 48) (30 * N)) in H; [|lia|lia].
    replace (ex - (e' - 48)) with (ex + 48 - e') in H by lia.
    replace (- (e' - 48)) with (- e' + 48) in H by lia.
    rewrite Z.pow_add_r in H by lia.
    change (2 ^ 48) with 281474976710656 in H.
    pose proof (pow2_pos (- e') ltac:(lia)). nia.
  - destruct Hc as [?|Hb]; [lia|]. unfold floorPow.
    destruct (Z.leb_spec 0 e'); [|lia].
    assert (2 ^ 1 <= 2 ^ e') by (apply Z.pow_le_mono_r; lia).
    change (2 ^ 1) with 2 in *. nia.
Qed.

Lemma div30_pos_le (mx : positive) (ex N : Z) :
  0 <= N < 2 ^ 52 -> ceilPow (Zpos mx) ex <= 30 * N ->
  leN (SFdiv prec emax (S754_finite false mx ex) rowHeight) N.
Proof.
  intros HN H. rewrite rowHeight_value. cbn [SFdiv xorb].
  pose proof (div_core_30 mx ex) as C.
  destruct (SFdiv_core_binary prec emax (Zpos mx) ex 8444249301319680 (-48))
    as [[q e'] l].
  destruct C as (Hq & He & [Lo Hi] & Hr & Hc).
  destruct (Z.leb_spec e' 0) as [Le|Gt].
  - apply (ceil_scaled _ ex (e' - 48) (30 * N)) in H; [|lia|lia].
    replace (ex - (e' - 48)) with (ex + 48 - e') in H by lia.
    replace (- (e' - 48)) with (- e' + 48) in H by lia.
    rewrite Z.pow_add_r in H by lia.
    change (2 ^ 48) with 281474976710656 in H.
    pose proof (pow2_pos (- e') ltac:(lia)) as Pe.
    apply round_aux_le; [exact Hq | change (2 ^ 53) with (2 ^ 52 * 2); lia | right; left; exact Le | |].
    + apply (ceil_scaled q e' e' N); [lia | exact Le |].
      rewrite Z.sub_diag, Z.pow_0_r, Z.mul_1_r. nia.
    + intro R. specialize (Hr R).
      destruct (Z.lt_ge_cases (floorPow q e') N) as [?|G]; [assumption|].
      apply (floor_scaled q e' e' N) in G; [|lia|exact Le].
      rewrite Z.sub_diag, Z.pow_0_r, Z.mul_1_r in G. nia.
  - exfalso. destruct Hc as [?|Hb]; [lia|].
    apply (ceil_scaled _ ex (-48) (30 * N)) in H; [|lia|lia].
    replace (ex - -48) with ((ex + 48 - e') + e') in H by lia.
    rewrite Z.pow_add_r in H by lia.
    change (2 ^ (- -48)) with 281474976710656 in H.
    assert (2 ^ 1 <= 2 ^ e') by (apply Z.pow_le_mono_r; lia).
    change (2 ^ 1) with 2 in *. change (2 ^ 52) with 4503599627370496 in *.
    set (P := 2 ^ e') in *. set (M := Zpos mx * 2 ^ (ex + 48 - e')) in *.
    rewrite Z.mul_assoc in H. fold M in H. nia.
Qed.

Lemma SFdiv_opp (x : number) :
  SFdiv prec emax (SFopp x) rowHeight = SFopp (SFdiv prec emax x rowHeight).
Proof.
  rewrite rowHeight_value. destruct x as [s|s| |s m e]; cbn [SFopp SFdiv]; try reflexivity.
  - destruct s; reflexivity.
  - destruct s; reflexivity.
  - destruct (SFdiv_core_binary prec emax (Zpos m) e 8444249301319680 (-48)) as [[q e'] l].
    rewrite !xorb_false_r. apply round_aux_opp.
Qed.

Lemma div30_ge (x : number) (N : Z) :
  - 2 ^ 52 < N < 2 ^ 52 -> geN (30 * N) x -> geN N (SFdiv prec emax x rowHeight).
Proof.
  intros HN H. destruct x as [s|s| |s m e]; cbn [geN] in H.
  - rewrite rowHeight_value. cbn [SFdiv geN]. lia.
  - subst s. rewrite rowHeight_value. reflexivity.
  - destruct H.
  - destruct s; cbn [cond_Zopp] in H.
    + change (S754_finite true m e) with (SFopp (S754_finite false m e)).
      rewrite SFdiv_opp. apply geN_opp.
      pose proof (ceilPow_pos (Zpos m) e ltac:(lia)).
      change (Z.neg m) with (- Zpos m) in H. rewrite floorPow_opp in H.
      apply div30_pos_le; lia.
    + apply div30_pos_ge; [lia | exact H].
Qed.

Lemma div30_le (x : number) (N : Z) :
  - 2 ^ 52 < N < 2 ^ 52 -> leN x (30 * N) -> leN (SFdiv prec emax x rowHeight) N.
Proof.
  intros HN H. destruct x as [s|s| |s m e]; cbn [leN] in H.
  - rewrite rowHeight_value. cbn [SFdiv leN]. lia.
  - subst s. rewrite rowHeight_value. reflexivity.
  - destruct H.
  - destruct s; cbn [cond_Zopp] in H.
    + change (S754_finite true m e) with (SFopp (S754_finite false m e)).
      rewrite SFdiv_opp. apply leN_opp.
      change (Z.neg m) with (- Zpos m) in H. rewrite ceilPow_opp in H.
      apply div30_pos_ge; lia.
    + pose proof (ceilPow_pos (Zpos m) e ltac:(lia)).
      apply div30_pos_le; lia.
Qed.

(** *** [Math.floor], [Math.ceil], [Math.max], [Math.min] *)

Lemma floorPow_int (z : Z) : floorPow z 0 = z.
Proof. unfold floorPow. cbn. lia. Qed.

Lemma ceilPow_int (z : Z) : ceilPow z 0 = z.
Proof. unfold ceilPow. rewrite floorPow_int. lia. Qed.

Lemma MathFloor_ge (x : number) (N : Z) :
  - 2 ^ 53 < N < 2 ^ 53 -> geN N x -> geN N (MathFloor x).
Proof.
  intros HN H. destruct x as [s|s| |s m e]; try exact H.
  cbn [MathFloor]. destruct (0 <=? e); [exact H|].
  apply normalize_ge; [exact HN|]. rewrite floorPow_int. exact H.
Qed.

Lemma MathFloor_le (x : number) (N : Z) :
  - 2 ^ 53 < N < 2 ^ 53 -> leN x N -> leN (MathFloor x) N.
Proof.
  intros HN H. destruct x as [s|s| |s m e]; try exact H.
  cbn [MathFloor]. destruct (0 <=? e); [exact H|].
  apply normalize_le; [exact HN|]. rewrite ceilPow_int.
  cbn [leN] in H. pose proof (floor_le_ceil (cond_Zopp s (Zpos m)) e). lia.
Qed.

Lemma MathCeil_ge (x : number) (N : Z) :
  - 2 ^ 53 < N < 2 ^ 53 -> geN N x -> geN N (MathCeil x).
Proof.
  intros HN H. destruct x as [s|s| |s m e]; try exact H.
  cbn [MathCeil]. destruct (0 <=? e); [exact H|].
  apply normalize_ge; [exact HN|]. rewrite floorPow_int.
  cbn [geN] in H. pose proof (floor_le_ceil (cond_Zopp s (Zpos m)) e). lia.
Qed.

Lemma MathCeil_le (x : number) (N : Z) :
  - 2 ^ 53 < N < 2 ^ 53 -> leN x N -> leN (MathCeil x) N.
Proof.
  intros HN H. destruct x as [s|s| |s m e]; try exact H.
  cbn [MathCeil]. destruct (0 <=? e); [exact H|].
  apply normalize_le; [exact HN|]. rewrite ceilPow_int. exact H.
Qed.

(** Between two integer bounds, the floor and the ceiling are integers
    between them. *)
Lemma MathFloor_int (x : number) (A B : Z) :
  - 2 ^ 53 < A -> B < 2 ^ 53 -> geN A x -> leN x B ->
  exists F, toZ (MathFloor x) = Some F /\ A <= F <= B.
Proof.
  intros HA HB G L. destruct x as [s|s| |s m e].
  - exists 0. cbn [geN leN] in *. split; [reflexivity | lia].
  - cbn [geN leN] in *. congruence.
  - destruct G.
  - cbn [geN leN MathFloor] in *.
    pose proof (floor_le_ceil (cond_Zopp s (Zpos m)) e) as FC.
    destruct (Z.leb_spec 0 e) as [He|He].
    + exists (floorPow (cond_Zopp s (Zpos m)) e). split; [|lia].
      cbn [toZ]. replace (ceilPow (cond_Zopp s (Zpos m)) e)
        with (floorPow (cond_Zopp s (Zpos m)) e).
      * rewrite Z.eqb_refl. reflexivity.
      * unfold ceilPow, floorPow. destruct (Z.leb_spec 0 e); lia.
    + exists (floorPow (cond_Zopp s (Zpos m)) e). split; [|lia].
      apply toZ_spec. split.
      * apply normalize_ge; [lia | rewrite floorPow_int; lia].
      * apply normalize_le; [lia | rewrite ceilPow_int; lia].
Qed.

Lemma MathCeil_int (x : number) (A B : Z) :
  - 2 ^ 53 < A -> B < 2 ^ 53 -> geN A x -> leN x B ->
  exists C, toZ (MathCeil x) = Some C /\ A <= C <= B.
Proof.
  intros HA HB G L. destruct x as [s|s| |s m e].
  - exists 0. cbn [geN leN] in *. split; [reflexivity | lia].
  - cbn [geN leN] in *. congruence.
  - destruct G.
  - cbn [geN leN MathCeil] in *.
    pose proof (floor_le_ceil (cond_Zopp s (Zpos m)) e) as FC.
    destruct (Z.leb_spec 0 e) as [He|He].
    + exists (floorPow (cond_Zopp s (Zpos m)) e). split; [|lia].
      cbn [toZ]. replace (ceilPow (cond_Zopp s (Zpos m)) e)
        with (floorPow (cond_Zopp s (Zpos m)) e).
      * rewrite Z.eqb_refl. reflexivity.
      * unfold ceilPow, floorPow. destruct (Z.leb_spec 0 e); lia.
    + exists (ceilPow (cond_Zopp s (Zpos m)) e). split; [|lia].
      apply toZ_spec. split.
      * apply normalize_ge; [lia | rewrite floorPow_int; lia].
      * apply normalize_le; [lia | rewrite ceilPow_int; lia].
Qed.

(** [Math.max(0, g)]. *)
Lemma MathMax_zero_pos (g : number) :
  geN 1 g -> MathMax (S754_zero false) g = g.
Proof.
  destruct g as [s|s| |s m e]; cbn [geN]; intro H; try lia.
  - subst s. reflexivity.
  - unfold MathMax. cbn [isNaN orb numLtb mantissa exponent].
    destruct s; cbn [cond_Zopp] in *.
    + pose proof (floor_le_ceil (Z.neg m) e).
      pose proof (ceilPow_pos (Zpos m) e ltac:(lia)).
      change (Z.neg m) with (- Zpos m) in *. rewrite ceilPow_opp in *.
      rewrite floorPow_opp in *. lia.
    + replace (0 * _ <? _) with true; [reflexivity|].
      symmetry. apply Z.ltb_lt.
      pose proof (pow2_pos (e - Z.min 0 e) ltac:(lia)). nia.
Qed.

Lemma MathMax_zero_nonpos (g : number) :
  leN g 0 -> MathMax (S754_zero false) g = S754_zero false.
Proof.
  destruct g as [s|s| |s m e]; cbn [leN]; intro H.
  - destruct s; reflexivity.
  - subst s. reflexivity.
  - destruct H.
  - unfold MathMax. cbn [isNaN orb numLtb mantissa exponent].
    destruct s; cbn [cond_Zopp] in *.
    + replace (0 * _ <? _) with false; [reflexivity|].
      symmetry. apply Z.ltb_ge.
      pose proof (pow2_pos (e - Z.min 0 e) ltac:(lia)). nia.
    + pose proof (ceilPow_pos (Zpos m) e ltac:(lia)). lia.
Qed.

Lemma geN_mantissa (x : number) (N : Z) :
  isFinite x = true -> (geN N x <-> N <= floorPow (mantissa x) (exponent x)).
Proof.
  destruct x as [s|s| |s m e]; try discriminate; intros _; cbn [geN mantissa exponent].
  - rewrite floorPow_0. tauto.
  - tauto.
Qed.

Lemma leN_mantissa (x : number) (N : Z) :
  isFinite x = true -> (leN x N <-> ceilPow (mantissa x) (exponent x) <= N).
Proof.
  destruct x as [s|s| |s m e]; try discriminate; intros _; cbn [leN mantissa exponent].
  - unfold ceilPow. cbn [Z.opp]. rewrite floorPow_0. lia.
  - tauto.
Qed.

Lemma toZ_finite (x : number) (v : Z) : toZ x = Some v -> isFinite x = true.
Proof. destruct x; try discriminate; reflexivity. Qed.

Lemma pow2_split (a b : Z) : 0 <= a -> 0 <= b -> 2 ^ (a + b) = 2 ^ a * 2 ^ b.
Proof. intros. apply Z.pow_add_r; assumption. Qed.

Lemma numLtb_finite (a c : number) :
  isFinite a = true -> isFinite c = true ->
  numLtb c a =
  (mantissa c * 2 ^ (exponent c - Z.min (exponent c) (exponent a))
   <? mantissa a * 2 ^ (exponent a - Z.min (exponent c) (exponent a))).
Proof.
  destruct a as [s|s| |s m e]; try discriminate;
    destruct c as [s'|s'| |s' m' e']; try discriminate; reflexivity.
Qed.

Lemma numLtb_false (a c : number) (T : Z) :
  toZ a = Some T -> geN T c -> numLtb c a = false.
Proof.
  intros Ha G. pose proof (toZ_finite a T Ha) as Fa.
  destruct (isFinite c) eqn:Fc.
  - rewrite numLtb_finite by assumption. apply Z.ltb_ge.
    apply toZ_spec in Ha. destruct Ha as [_ La].
    apply (leN_mantissa a T Fa) in La. apply (geN_mantissa c T Fc) in G.
    set (k := Z.min (exponent c) (exponent a)) in *.
    set (k0 := Z.min k 0).
    apply (ceil_scaled _ _ k0) in La; [|lia|lia].
    apply (floor_scaled _ _ k0) in G; [|lia|lia].
    replace (exponent a - k0) with (exponent a - k + (k - k0)) in La by lia.
    replace (exponent c - k0) with (exponent c - k + (k - k0)) in G by lia.
    rewrite pow2_split in La, G by lia.
    pose proof (pow2_pos (k - k0) ltac:(lia)). nia.
  - destruct c as [s|s| |s m e]; try discriminate Fc; cbn [geN] in G; [subst s|destruct G].
    destruct a; try discriminate Fa; reflexivity.
Qed.

Lemma numLtb_true (a c : number) (T : Z) :
  toZ a = Some T -> leN c (T - 1) -> numLtb c a = true.
Proof.
  intros Ha L. pose proof (toZ_finite a T Ha) as Fa.
  destruct (isFinite c) eqn:Fc.
  - rewrite numLtb_finite by assumption. apply Z.ltb_lt.
    apply toZ_spec in Ha. destruct Ha as [Ga _].
    apply (geN_mantissa a T Fa) in Ga. apply (leN_mantissa c (T - 1) Fc) in L.
    set (k := Z.min (exponent c) (exponent a)) in *.
    set (k0 := Z.min k 0).
    apply (floor_scaled _ _ k0) in Ga; [|lia|lia].
    apply (ceil_scaled _ _ k0) in L; [|lia|lia].
    replace (exponent a - k0) with (exponent a - k + (k - k0)) in Ga by lia.
    replace (exponent c - k0) with (exponent c - k + (k - k0)) in L by lia.
    rewrite pow2_split in Ga, L by lia.
    pose proof (pow2_pos (k - k0) ltac:(lia)). pose proof (pow2_pos (- k0) ltac:(lia)). nia.
  - destruct c as [s|s| |s m e]; try discriminate Fc; cbn [leN] in L; [subst s|destruct L].
    destruct a; try discriminate Fa; reflexivity.
Qed.

Lemma geN_not_nan (x : number) (N : Z) : geN N x -> isNaN x = false.
Proof. destruct x; cbn; tauto. Qed.

Lemma leN_not_nan (x : number) (N : Z) : leN x N -> isNaN x = false.
Proof. destruct x; cbn; tauto. Qed.

Lemma toZ_not_nan (x : number) (v : Z) : toZ x = Some v -> isNaN x = false.
Proof. destruct x; try discriminate; reflexivity. Qed.

Lemma MathMin_ge (a c : number) (T : Z) :
  toZ a = Some T -> geN T c -> toZ (MathMin a c) = Some T.
Proof.
  intros Ha G. pose proof (numLtb_false a c T Ha G) as E.
  unfold MathMin. rewrite (toZ_not_nan a T Ha), (geN_not_nan c T G), E. cbn [orb].
  destruct a as [[|]|sa| |sa ma ea]; try exact Ha.
  destruct c as [[|]|sc| |sc mc ec]; exact Ha.
Qed.

Lemma MathMin_lt (a c : number) (T : Z) :
  toZ a = Some T -> leN c (T - 1) -> MathMin a c = c.
Proof.
  intros Ha L. pose proof (numLtb_true a c T Ha L) as E.
  unfold MathMin. rewrite (toZ_not_nan a T Ha), (leN_not_nan c _ L), E. cbn [orb].
  destruct a as [[|]|sa| |sa ma ea]; try reflexivity.
  destruct c as [[|]|sc| |sc mc ec]; reflexivity.
Qed.

(** *** Exact integer arithmetic *)

(** Sums, differences and products of integers are exact. *)
Lemma add_int (a b : number) (x y : Z) :
  toZ a = Some x -> toZ b = Some y -> - 2 ^ 53 < x + y < 2 ^ 53 ->
  toZ (SFadd prec emax a b) = Some (x + y).
Proof.
  intros Ha Hb H. apply toZ_spec in Ha. destruct Ha as [G L]. apply toZ_spec. split.
  - apply add_ge; assumption.
  - apply add_le; assumption.
Qed.

Lemma sub_int (a b : number) (x y : Z) :
  toZ a = Some x -> toZ b = Some y -> - 2 ^ 53 < x - y < 2 ^ 53 ->
  toZ (SFsub prec emax a b) = Some (x - y).
Proof.
  intros Ha Hb H. apply toZ_spec in Ha. destruct Ha as [G L]. apply toZ_spec. split.
  - apply sub_ge; assumption.
  - apply sub_le; assumption.
Qed.

Lemma cond_Zopp_xorb (s s' : bool) (a b : Z) :
  cond_Zopp (xorb s s') (a * b) = cond_Zopp s a * cond_Zopp s' b.
Proof. destruct s, s'; cbn; lia. Qed.

Lemma mul_int (a b : number) (x y : Z) :
  toZ a = Some x -> toZ b = Some y -> - 2 ^ 53 < x * y < 2 ^ 53 ->
  toZ (SFmul prec emax a b) = Some (x * y).
Proof.
  intros Ha Hb H.
  destruct a as [sa|sa| |sa ma ea]; try discriminate Ha;
    destruct b as [sb|sb| |sb mb eb]; try discriminate Hb; cbn [SFmul].
  - inversion Ha; inversion Hb; reflexivity.
  - inversion Ha. reflexivity.
  - inversion Hb. cbn [toZ]. f_equal. lia.
  - set (k := Z.min ea 0 + Z.min eb 0).
    pose proof (toZ_scaled sa ma ea (Z.min ea 0) x Ha ltac:(lia) ltac:(lia)) as Ea.
    pose proof (toZ_scaled sb mb eb (Z.min eb 0) y Hb ltac:(lia) ltac:(lia)) as Eb.
    assert (E : cond_Zopp (xorb sa sb) (Zpos (ma * mb)) * 2 ^ (ea + eb - k)
                = x * y * 2 ^ (- k)).
    { rewrite Pos2Z.inj_mul, cond_Zopp_xorb. subst k.
      replace (ea + eb - (Z.min ea 0 + Z.min eb 0))
        with ((ea - Z.min ea 0) + (eb - Z.min eb 0)) by lia.
      replace (- (Z.min ea 0 + Z.min eb 0)) with (- Z.min ea 0 + - Z.min eb 0) by lia.
      rewrite !pow2_split by lia.
      transitivity ((cond_Zopp sa (Zpos ma) * 2 ^ (ea - Z.min ea 0))
                    * (cond_Zopp sb (Zpos mb) * 2 ^ (eb - Z.min eb 0))); [ring|].
      rewrite Ea, Eb. ring. }
    apply toZ_spec. split.
    + apply round_signed_ge; try lia; [left; reflexivity | | intros _ R; discriminate R].
      apply (floor_scaled _ _ k); [lia | lia |]. rewrite E. lia.
    + apply round_signed_le; try lia; [left; reflexivity | | intros _ R; discriminate R].
      apply (ceil_scaled _ _ k); [lia | lia |]. rewrite E. lia.
Qed.

(** *** [ToIntegerOrInfinity] and [slice] *)

Lemma ToInteger_int (x : number) (v : Z) :
  toZ x = Some v -> ToIntegerOrInfinity x = Integer v.
Proof.
  intro H. destruct x as [s|s| |s m e]; try discriminate H.
  - inversion H. reflexivity.
  - apply toZ_spec in H. destruct H as [G L]. cbn [geN leN ToIntegerOrInfinity] in *.
    f_equal. destruct s; cbn [cond_Zopp] in *.
    + change (Z.neg m) with (- Zpos m) in *. rewrite floorPow_opp in G.
      rewrite ceilPow_opp in L. pose proof (floor_le_ceil (Zpos m) e). lia.
    + pose proof (floor_le_ceil (Zpos m) e). lia.
Qed.

Lemma relativeIndex_range (r : integerOrInfinity) (len : Z) :
  0 <= len -> 0 <= relativeIndex r len <= len.
Proof.
  intro H. destruct r as [|z|]; cbn [relativeIndex]; try lia.
  destruct (z <? 0) eqn:E; [apply Z.ltb_lt in E | apply Z.ltb_ge in E]; lia.
Qed.

Lemma relativeIndex_ge (x : number) (N len : Z) :
  0 <= N -> 0 <= len -> geN N x ->
  Z.min N len <= relativeIndex (ToIntegerOrInfinity x) len.
Proof.
  intros HN Hl G. destruct x as [s|s| |s m e]; cbn [geN] in G; [| subst s | destruct G |].
  - cbn. lia.
  - cbn. lia.
  - cbn [ToIntegerOrInfinity relativeIndex].
    assert (T : N <= cond_Zopp s (floorPow (Zpos m) e)).
    { destruct s; cbn [cond_Zopp] in *.
      - change (Z.neg m) with (- Zpos m) in G. rewrite floorPow_opp in G.
        pose proof (floor_le_ceil (Zpos m) e). lia.
      - exact G. }
    destruct (_ <? 0) eqn:E; [apply Z.ltb_lt in E | apply Z.ltb_ge in E]; lia.
Qed.

(** ** The rows the list view renders *)

(** The model on known values: a third, the quotient of 299.5 by the row
    height, the range of rows at the offsets 299.5 and 299 under a viewport of
    601 pixels, and the floor and the ceiling of a small negative number. *)
Example list_view_known :
  SFdiv prec emax (ofZ 1) (ofZ 3) = S754_finite false 6004799503160661 (-54)
  /\ SFdiv prec emax scrollTop_299_5 rowHeight
     = S754_finite false 5620117034989431 (-49)
  /\ toZ (startIndex scrollTop_299_5) = Some 4
  /\ toZ (endIndex (ofZ 1000) scrollTop_299_5 (ofZ 601)) = Some 36
  /\ toZ (startIndex (ofZ 299)) = Some 4
  /\ toZ (endIndex (ofZ 1000) (ofZ 299) (ofZ 601)) = Some 35
  /\ MathFloor (SFdiv prec emax (SFopp (ofZ 7)) rowHeight) = SFopp (ofZ 1)
  /\ MathCeil (SFdiv prec emax (SFopp (ofZ 7)) rowHeight) = S754_zero true.
Proof.
  split; [|split; [|split; [|split; [|split; [|split; [|split]]]]]];
    vm_compute; reflexivity.
Qed.

Lemma mapWithIndex_nth {A B} (f : A -> Z -> B) (l : list A) (i : Z) (j : nat) :
  nth_error (mapWithIndex f l i) j
  = match nth_error l j with
    | Some a => Some (f a (i + Z.of_nat j))
    | None => None
    end.
Proof.
  revert i j; induction l as [|a l IH]; intros i j.
  - destruct j; reflexivity.
  - destruct j as [|j]; cbn [mapWithIndex nth_error].
    + rewrite Z.add_0_r. reflexivity.
    + rewrite IH. destruct (nth_error l j); [|reflexivity].
      do 2 f_equal. lia.
Qed.

Lemma mapWithIndex_length {A B} (f : A -> Z -> B) (l : list A) (i : Z) :
  List.length (mapWithIndex f l i) = List.length l.
Proof.
  revert i; induction l as [|a l IH]; intro i; simpl; [reflexivity|].
  rewrite IH. reflexivity.
Qed.

Lemma ceil_floor_succ (m e : Z) : ceilPow m e <= floorPow m e + 1.
Proof.
  unfold ceilPow, floorPow. destruct (Z.leb_spec 0 e); [lia|].
  pose proof (pow2_pos (- e) ltac:(lia)). Z.div_mod_to_equations. nia.
Qed.

Lemma finite_bounds (x : number) :
  isFinite x = true ->
  geN (numFloor x) x /\ leN x (numCeil x)
  /\ numFloor x <= numCeil x <= numFloor x + 1.
Proof.
  intro F. split; [|split].
  - apply geN_mantissa; [exact F | unfold numFloor; lia].
  - apply leN_mantissa; [exact F | unfold numCeil; lia].
  - unfold numFloor, numCeil.
    pose proof (floor_le_ceil (mantissa x) (exponent x)).
    pose proof (ceil_floor_succ (mantissa x) (exponent x)). lia.
Qed.

Lemma geN_weaken (x : number) (N N' : Z) : N' <= N -> geN N x -> geN N' x.
Proof. destruct x; cbn [geN]; intros; try lia; assumption. Qed.

Lemma leN_weaken (x : number) (N N' : Z) : N <= N' -> leN x N -> leN x N'.
Proof. destruct x; cbn [leN]; intros; try lia; assumption. Qed.

Lemma toZ_geN (x : number) (v N : Z) : toZ x = Some v -> geN N x -> N <= v.
Proof.
  intros H G. apply toZ_spec in H. destruct H as [_ L].
  destruct x as [s|s| |s m e]; cbn [geN leN] in *; try lia; try congruence.
  pose proof (floor_le_ceil (cond_Zopp s (Zpos m)) e). lia.
Qed.

Lemma toZ_5 : toZ (ofZ 5) = Some 5.
Proof. vm_compute. reflexivity. Qed.

Lemma ofZ_0 : ofZ 0 = S754_zero false.
Proof. reflexivity. Qed.

(** [Math.floor(x / rowHeight)] between integer bounds on [x]. *)
Lemma floorRows_int (x : number) (Q : Z) :
  - 2 ^ 51 <= Q <= 2 ^ 51 -> geN (30 * Q) x -> leN x (30 * (Q + 1)) ->
  exists F, toZ (MathFloor (SFdiv prec emax x rowHeight)) = Some F /\ Q <= F <= Q + 1.
Proof.
  intros HQ G L.
  change (2 ^ 51) with 2251799813685248 in HQ.
  apply (MathFloor_int _ Q (Q + 1)).
  - change (2 ^ 53) with 9007199254740992. lia.
  - change (2 ^ 53) with 9007199254740992. lia.
  - apply div30_ge; [change (2 ^ 52) with 4503599627370496; lia | exact G].
  - apply div30_le; [change (2 ^ 52) with 4503599627370496; lia | exact L].
Qed.

Lemma ceilRows_int (x : number) (Q : Z) :
  - 2 ^ 51 <= Q <= 2 ^ 51 -> geN (30 * Q) x -> leN x (30 * (Q + 1)) ->
  exists C, toZ (MathCeil (SFdiv prec emax x rowHeight)) = Some C /\ Q <= C <= Q + 1.
Proof.
  intros HQ G L.
  change (2 ^ 51) with 2251799813685248 in HQ.
  apply (MathCeil_int _ Q (Q + 1)).
  - change (2 ^ 53) with 9007199254740992. lia.
  - change (2 ^ 53) with 9007199254740992. lia.
  - apply div30_ge; [change (2 ^ 52) with 4503599627370496; lia | exact G].
  - apply div30_le; [change (2 ^ 52) with 4503599627370496; lia | exact L].
Qed.

(** The first rendered index, for a scroll offset that is not huge. *)
Lemma startIndex_small (scrollTop : number) :
  isFinite scrollTop = true -> numFloor scrollTop <= 30 * 2 ^ 51 ->
  exists F,
    numFloor scrollTop / 30 <= F <= numFloor scrollTop / 30 + 1
    /\ toZ (startIndex scrollTop) = Some (Z.max 0 (F - 5)).
Proof.
  intros Fs Hs. destruct (finite_bounds scrollTop Fs) as (G & L & B).
  set (fs := numFloor scrollTop) in *.
  change (2 ^ 51) with 2251799813685248 in Hs.
  pose proof (Z.div_mod fs 30 ltac:(lia)) as DM.
  pose proof (Z.mod_pos_bound fs 30 ltac:(lia)) as MB.
  unfold startIndex. rewrite ofZ_0.
  destruct (Z.le_gt_cases (- (30 * 2251799813685248)) fs) as [Lo|Lo].
  - destruct (floorRows_int scrollTop (fs / 30)) as (F & HF & BF).
    + change (2 ^ 51) with 2251799813685248. lia.
    + apply (geN_weaken _ fs); [lia | exact G].
    + apply (leN_weaken _ (numCeil scrollTop)); [lia | exact L].
    + exists F. split; [exact BF|].
      assert (Hg : toZ (SFsub prec emax (MathFloor (SFdiv prec emax scrollTop rowHeight))
                          (ofZ 5)) = Some (F - 5)).
      { apply sub_int; [exact HF | exact toZ_5 |].
        change (2 ^ 53) with 9007199254740992. lia. }
      destruct (Z.le_gt_cases 1 (F - 5)) as [P|P].
      * rewrite MathMax_zero_pos.
        -- rewrite Hg. f_equal. lia.
        -- apply toZ_spec in Hg. apply (geN_weaken _ (F - 5)); [exact P | apply Hg].
      * rewrite MathMax_zero_nonpos.
        -- cbn [toZ]. f_equal. lia.
        -- apply toZ_spec in Hg. apply (leN_weaken _ (F - 5)); [lia | apply Hg].
  - exists (fs / 30). split; [lia|].
    rewrite MathMax_zero_nonpos; [cbn [toZ]; f_equal; lia|].
    apply (leN_weaken _ (- 2251799813685247 - 5)); [lia|].
    apply sub_le; [exact toZ_5 | change (2 ^ 53) with 9007199254740992; lia |].
    apply MathFloor_le; [change (2 ^ 53) with 9007199254740992; lia|].
    apply div30_le; [change (2 ^ 52) with 4503599627370496; lia|].
    apply (leN_weaken _ (numCeil scrollTop)); [lia | exact L].
Qed.

(** For a huge scroll offset the first index is huge too. *)
Lemma startIndex_large (scrollTop : number) :
  isFinite scrollTop = true -> 30 * 2 ^ 51 < numFloor scrollTop ->
  geN (2 ^ 51 - 5) (startIndex scrollTop).
Proof.
  intros Fs Hs. destruct (finite_bounds scrollTop Fs) as (G & _ & _).
  change (2 ^ 51) with 2251799813685248 in *.
  assert (Hg : geN (2251799813685248 - 5)
                 (SFsub prec emax (MathFloor (SFdiv prec emax scrollTop rowHeight)) (ofZ 5))).
  { apply sub_ge; [exact toZ_5 | change (2 ^ 53) with 9007199254740992; lia |].
    apply MathFloor_ge; [change (2 ^ 53) with 9007199254740992; lia|].
    apply div30_ge; [change (2 ^ 52) with 4503599627370496; lia|].
    apply (geN_weaken _ (numFloor scrollTop)); [lia | exact G]. }
  unfold startIndex. rewrite ofZ_0, MathMax_zero_pos; [exact Hg|].
  apply (geN_weaken _ (2251799813685248 - 5)); [lia | exact Hg].
Qed.

(** The end of the rendered range, for a viewport that does not end far
    off. *)
Lemma endIndex_small (T : Z) (scrollTop : number) (viewportHeight : Z) :
  isFinite scrollTop = true -> 0 <= viewportHeight < 2 ^ 31 -> 0 <= T < 2 ^ 32 ->
  - 2 ^ 52 <= numFloor scrollTop + viewportHeight <= 2 ^ 52 ->
  exists C,
    (numFloor scrollTop + viewportHeight) / 30 <= C
    <= (numFloor scrollTop + viewportHeight) / 30 + 1
    /\ toZ (endIndex (ofZ T) scrollTop (ofZ viewportHeight)) = Some (Z.min T (C + 5)).
Proof.
  intros Fs Hv HT Hs. destruct (finite_bounds scrollTop Fs) as (G & L & B).
  set (fs := numFloor scrollTop) in *.
  change (2 ^ 52) with 4503599627370496 in Hs.
  change (2 ^ 31) with 2147483648 in Hv. change (2 ^ 32) with 4294967296 in HT.
  pose proof (Z.div_mod (fs + viewportHeight) 30 ltac:(lia)) as DM.
  pose proof (Z.mod_pos_bound (fs + viewportHeight) 30 ltac:(lia)) as MB.
  assert (Hv' : toZ (ofZ viewportHeight) = Some viewportHeight)
    by (apply toZ_ofZ; change (2 ^ 53) with 9007199254740992; lia).
  assert (HT' : toZ (ofZ T) = Some T)
    by (apply toZ_ofZ; change (2 ^ 53) with 9007199254740992; lia).
  destruct (ceilRows_int (SFadd prec emax scrollTop (ofZ viewportHeight))
              ((fs + viewportHeight) / 30)) as (C & HC & BC).
  - change (2 ^ 51) with 2251799813685248. lia.
  - apply (geN_weaken _ (fs + viewportHeight)); [lia|].
    apply add_ge; [exact Hv' | change (2 ^ 53) with 9007199254740992; lia | exact G].
  - apply (leN_weaken _ (numCeil scrollTop + viewportHeight)); [lia|].
    apply add_le; [exact Hv' | change (2 ^ 53) with 9007199254740992; lia | exact L].
  - exists C. split; [exact BC|].
    assert (Hc : toZ (SFadd prec emax
                        (MathCeil (SFdiv prec emax
                                     (SFadd prec emax scrollTop (ofZ viewportHeight))
                                     rowHeight)) (ofZ 5)) = Some (C + 5)).
    { apply add_int; [exact HC | exact toZ_5 |].
      change (2 ^ 53) with 9007199254740992. lia. }
    unfold endIndex. destruct (Z.le_gt_cases T (C + 5)) as [P|P].
    + rewrite (MathMin_ge _ _ T HT').
      * f_equal. lia.
      * apply toZ_spec in Hc. apply (geN_weaken _ (C + 5)); [exact P | apply Hc].
    + rewrite (MathMin_lt _ _ T HT').
      * rewrite Hc. f_equal. lia.
      * apply toZ_spec in Hc. apply (leN_weaken _ (C + 5)); [lia | apply Hc].
Qed.

Lemma MathMin_le_l (a c : number) (T b : Z) :
  toZ a = Some T -> toZ (MathMin a c) = Some b -> b <= T.
Proof.
  intros Ha Hb.
  assert (Nc : isNaN c = false).
  { destruct c; try reflexivity. unfold MathMin in Hb.
    rewrite orb_true_r in Hb. discriminate Hb. }
  unfold MathMin in Hb. rewrite (toZ_not_nan a T Ha), Nc in Hb. cbn [orb] in Hb.
  assert (Hr : toZ (if numLtb c a then c else a) = Some b \/ (b = 0 /\ T = 0)).
  { destruct a as [[|]|sa| |sa ma ea]; try (left; exact Hb).
    destruct c as [[|]|sc| |sc mc ec]; left; exact Hb. }
  destruct Hr as [Hr|[-> ->]]; [|lia].
  destruct (numLtb c a) eqn:E.
  - destruct (Z.le_gt_cases b T) as [?|G]; [assumption|exfalso].
    apply toZ_spec in Hr.
    rewrite (numLtb_false a c T Ha) in E; [discriminate E|].
    apply (geN_weaken _ b); [lia | apply Hr].
  - rewrite Ha in Hr. inversion Hr. lia.
Qed.

Lemma slice_nth {A} (l : list A) (start end_ : number) (j : nat) (a : A) :
  nth_error (slice l start end_) j = Some a ->
  let len := Z.of_nat (List.length l) in
  let k := relativeIndex (ToIntegerOrInfinity start) len in
  k + Z.of_nat j < relativeIndex (ToIntegerOrInfinity end_) len
  /\ nth_error l (Z.to_nat k + j) = Some a.
Proof.
  intros H len k. unfold slice in H. fold len in H. fold k in H.
  rewrite nth_error_firstn, nth_error_skipn in H.
  destruct (Nat.ltb_spec j (Z.to_nat (relativeIndex (ToIntegerOrInfinity end_) len - k)));
    [|discriminate H].
  pose proof (relativeIndex_range (ToIntegerOrInfinity start) len ltac:(lia)).
  fold k in H1. split; [lia | exact H].
Qed.

Lemma slice_nth_in {A} (l : list A) (start end_ : number) (i : Z) :
  let len := Z.of_nat (List.length l) in
  let k := relativeIndex (ToIntegerOrInfinity start) len in
  k <= i < relativeIndex (ToIntegerOrInfinity end_) len ->
  nth_error (slice l start end_) (Z.to_nat (i - k)) = nth_error l (Z.to_nat i).
Proof.
  intros len k H. unfold slice. fold len. fold k.
  rewrite nth_error_firstn, nth_error_skipn.
  pose proof (relativeIndex_range (ToIntegerOrInfinity start) len ltac:(lia)).
  fold k in H0.
  destruct (Nat.ltb_spec (Z.to_nat (i - k))
              (Z.to_nat (relativeIndex (ToIntegerOrInfinity end_) len - k))); [|lia].
  f_equal. lia.
Qed.

Lemma slice_length {A} (l : list A) (start end_ : number) :
  let len := Z.of_nat (List.length l) in
  List.length (slice l start end_)
  = Z.to_nat (relativeIndex (ToIntegerOrInfinity end_) len
              - relativeIndex (ToIntegerOrInfinity start) len).
Proof.
  intro len. unfold slice. fold len.
  pose proof (relativeIndex_range (ToIntegerOrInfinity start) len ltac:(lia)).
  pose proof (relativeIndex_range (ToIntegerOrInfinity end_) len ltac:(lia)).
  rewrite length_firstn, length_skipn. subst len. lia.
Qed.

Lemma visibleRows_nth (data : SequenceData) (scrollTop viewportHeight : number) (j : nat) :
  nth_error (visibleRows data scrollTop viewportHeight) j
  = match nth_error (slice (dataPoints data) (startIndex scrollTop)
                       (endIndex (ofZ (Z.of_nat (List.length (dataPoints data))))
                                 scrollTop viewportHeight)) j with
    | Some p =>
        Some {| key := SFadd prec emax (startIndex scrollTop) (ofZ (Z.of_nat j));
                top := SFmul prec emax
                         (SFadd prec emax (startIndex scrollTop) (ofZ (Z.of_nat j)))
                         rowHeight;
                height := rowHeight; cell := p |}
    | None => None
    end.
Proof.
  unfold visibleRows. rewrite mapWithIndex_nth.
  destruct (nth_error _ j); reflexivity.
Qed.

Lemma toZ_rowHeight : toZ rowHeight = Some 30.
Proof. vm_compute. reflexivity. Qed.

(** Where the slice starts: at the first index itself, when a row is
    there at all. *)
Lemma start_of_rows (len : Z) (scrollTop : number) :
  isFinite scrollTop = true -> 0 <= len < 2 ^ 32 ->
  relativeIndex (ToIntegerOrInfinity (startIndex scrollTop)) len < len ->
  exists k, toZ (startIndex scrollTop) = Some k /\ 0 <= k
            /\ relativeIndex (ToIntegerOrInfinity (startIndex scrollTop)) len = k.
Proof.
  intros Fs Hl H. change (2 ^ 32) with 4294967296 in Hl.
  destruct (Z.le_gt_cases (numFloor scrollTop) (30 * 2 ^ 51)) as [Sm|La].
  - destruct (startIndex_small scrollTop Fs Sm) as (F & _ & HF).
    exists (Z.max 0 (F - 5)). rewrite (ToInteger_int _ _ HF) in *.
    cbn [relativeIndex] in *.
    destruct (Z.ltb_spec (Z.max 0 (F - 5)) 0); [lia|].
    repeat split; [exact HF | lia | lia].
  - pose proof (startIndex_large scrollTop Fs La) as G.
    pose proof (relativeIndex_ge _ (2 ^ 51 - 5) len ltac:(cbn; lia) ltac:(lia) G) as R.
    change (2 ^ 51) with 2251799813685248 in R. lia.
Qed.

Lemma startIndex_nonneg (scrollTop : number) (a : Z) :
  isFinite scrollTop = true -> toZ (startIndex scrollTop) = Some a -> 0 <= a.
Proof.
  intros Fs Ha.
  destruct (Z.le_gt_cases (numFloor scrollTop) (30 * 2 ^ 51)) as [Sm|La].
  - destruct (startIndex_small scrollTop Fs Sm) as (F & _ & HF).
    rewrite HF in Ha. inversion Ha. lia.
  - pose proof (toZ_geN _ _ _ Ha (startIndex_large scrollTop Fs La)) as G.
    change (2 ^ 51) with 2251799813685248 in G. lia.
Qed.

(** X15: for a finite scroll offset, whole or not, and an array of fewer
    than 2^32 points, every row that the list view renders shows the point
    of its own index: the first index is a whole number [k], the key of the
    row at place [j] is the whole number [k + j], an index of the sequence,
    its cell is the point at that index, it sits at the offset index times
    row height with the row height as its height, and so lies inside the
    scrolled area, whose height is the number of rows times the row height.
    The keys of the rendered rows are consecutive, so no two rows share a
    key or overlap. *)
Theorem rendered_rows_are_in_place (data : SequenceData)
        (scrollTop viewportHeight : number) (j : nat) (row : renderedRow) :
  isFinite scrollTop = true ->
  Z.of_nat (List.length (dataPoints data)) < 2 ^ 32 ->
  nth_error (visibleRows data scrollTop viewportHeight) j = Some row ->
  exists k,
    toZ (startIndex scrollTop) = Some k
    /\ toZ (key row) = Some (k + Z.of_nat j)
    /\ 0 <= k + Z.of_nat j < Z.of_nat (List.length (dataPoints data))
    /\ nth_error (dataPoints data) (Z.to_nat (k + Z.of_nat j)) = Some (cell row)
    /\ toZ (top row) = Some ((k + Z.of_nat j) * 30)
    /\ toZ (height row) = Some 30
    /\ toZ (totalHeight (ofZ (Z.of_nat (List.length (dataPoints data)))))
       = Some (Z.of_nat (List.length (dataPoints data)) * 30).
Proof.
  intros Fs Hl. rewrite visibleRows_nth.
  destruct (nth_error (slice _ _ _) j) as [p|] eqn:E; [|discriminate].
  intro H. inversion H; subst row; clear H. cbn [key top height cell].
  apply slice_nth in E. cbv zeta in E. destruct E as [Lt E].
  set (len := Z.of_nat (List.length (dataPoints data))) in *.
  change (2 ^ 32) with 4294967296 in Hl.
  pose proof (relativeIndex_range
                (ToIntegerOrInfinity (endIndex (ofZ len) scrollTop viewportHeight))
                len ltac:(lia)) as Rf.
  destruct (start_of_rows len scrollTop Fs ltac:(change (2 ^ 32) with 4294967296; lia)
              ltac:(lia)) as (k & Hk & K0 & Rk).
  rewrite Rk in Lt, E.
  assert (Hkey : toZ (SFadd prec emax (startIndex scrollTop) (ofZ (Z.of_nat j)))
                 = Some (k + Z.of_nat j)).
  { apply add_int; [exact Hk | | change (2 ^ 53) with 9007199254740992; lia].
    apply toZ_ofZ. change (2 ^ 53) with 9007199254740992. lia. }
  exists k.
  split; [exact Hk|]. split; [exact Hkey|]. split; [lia|].
  split; [rewrite <- E; f_equal; lia|].
  split; [|split; [exact toZ_rowHeight|]].
  - apply mul_int; [exact Hkey | exact toZ_rowHeight |].
    change (2 ^ 53) with 9007199254740992. lia.
  - unfold totalHeight. apply mul_int; [| exact toZ_rowHeight | change (2 ^ 53) with 9007199254740992; lia].
    apply toZ_ofZ. change (2 ^ 53) with 9007199254740992. lia.
Qed.

Lemma rendered_rows_are_in_place_witness :
  exists row k,
    nth_error (visibleRows {| timeAxisName := js "Index"; valueAxisName := js "Value";
                    dataPoints := [(XIndex 0, ofZ 10); (XIndex 1, ofZ 20)] |}
                 scrollTop_40_5 (ofZ 600)) 1 = Some row
    /\ toZ (startIndex scrollTop_40_5) = Some k
    /\ toZ (key row) = Some (k + 1)
    /\ toZ (top row) = Some ((k + 1) * 30).
Proof.
  destruct (nth_error (visibleRows {| timeAxisName := js "Index"; valueAxisName := js "Value";
                    dataPoints := [(XIndex 0, ofZ 10); (XIndex 1, ofZ 20)] |}
                         scrollTop_40_5 (ofZ 600)) 1) as [row|] eqn:E;
    [|vm_compute in E; discriminate E].
  destruct (rendered_rows_are_in_place
              {| timeAxisName := js "Index"; valueAxisName := js "Value";
                 dataPoints := [(XIndex 0, ofZ 10); (XIndex 1, ofZ 20)] |}
              scrollTop_40_5 (ofZ 600) 1 row eq_refl eq_refl E)
    as (k & H1 & H2 & _ & _ & H5 & _).
  exists row, k. split; [reflexivity|]. split; [exact H1|]. split; [exact H2 | exact H5].
Defined.

(** X16: for a finite scroll offset, whole or not, and a viewport height
    that is a whole number of pixels below 2^31, every row of the sequence
    that overlaps the viewport is rendered: if the strip of row [i], from
    [i] times the row height to one row height further, meets the strip of
    the viewport, from the scroll offset to the viewport height further,
    then a rendered row has key [i].  (With an integer [N], [N < x] is
    [N < numCeil x] and [x < N] is [numFloor x < N].)  And when the first
    and the last index are the whole numbers [a] and [b], with [b] not
    negative, the rendered keys are exactly the indices from [a] up to,
    not including, [b]. *)
Theorem rows_in_view_are_rendered (data : SequenceData) (scrollTop : number)
        (viewportHeight i : Z) :
  let len := Z.of_nat (List.length (dataPoints data)) in
  isFinite scrollTop = true -> 0 <= viewportHeight < 2 ^ 31 -> len < 2 ^ 32 ->
  (0 <= i < len ->
   i * 30 - viewportHeight < numCeil scrollTop ->
   numFloor scrollTop < (i + 1) * 30 ->
   exists row, In row (visibleRows data scrollTop (ofZ viewportHeight))
               /\ toZ (key row) = Some i)
  /\ (forall a b,
        toZ (startIndex scrollTop) = Some a ->
        toZ (endIndex (ofZ len) scrollTop (ofZ viewportHeight)) = Some b ->
        0 <= b ->
        ((exists row, In row (visibleRows data scrollTop (ofZ viewportHeight))
                      /\ toZ (key row) = Some i)
         <-> a <= i < b)).
Proof.
  intros len Fs Hv Hl.
  change (2 ^ 31) with 2147483648 in Hv. change (2 ^ 32) with 4294967296 in Hl.
  assert (HT : toZ (ofZ len) = Some len)
    by (apply toZ_ofZ; change (2 ^ 53) with 9007199254740992; lia).
  assert (render : forall a b,
             toZ (startIndex scrollTop) = Some a ->
             toZ (endIndex (ofZ len) scrollTop (ofZ viewportHeight)) = Some b ->
             a <= i < b ->
             exists row, In row (visibleRows data scrollTop (ofZ viewportHeight))
                         /\ toZ (key row) = Some i).
  { intros a b Ha Hb [Lo Hi].
    pose proof (startIndex_nonneg scrollTop a Fs Ha) as A0.
    pose proof (MathMin_le_l _ _ len b HT Hb) as Bl.
    assert (Hlen : (Z.to_nat i < List.length (dataPoints data))%nat) by lia.
    destruct (nth_error (dataPoints data) (Z.to_nat i)) as [p|] eqn:Ep;
      [|apply nth_error_None in Ep; lia].
    assert (Ra : relativeIndex (ToIntegerOrInfinity (startIndex scrollTop)) len = a).
    { rewrite (ToInteger_int _ _ Ha). cbn [relativeIndex].
      destruct (Z.ltb_spec a 0); lia. }
    assert (Rb : relativeIndex
                   (ToIntegerOrInfinity (endIndex (ofZ len) scrollTop (ofZ viewportHeight)))
                   len = b).
    { rewrite (ToInteger_int _ _ Hb). cbn [relativeIndex].
      destruct (Z.ltb_spec b 0); lia. }
    eexists. split.
    - apply (nth_error_In _ (Z.to_nat (i - a))).
      rewrite visibleRows_nth. fold len.
      pose proof (slice_nth_in (dataPoints data) (startIndex scrollTop)
                    (endIndex (ofZ len) scrollTop (ofZ viewportHeight)) i) as Sn.
      cbv zeta in Sn. fold len in Sn. rewrite Ra, Rb in Sn.
      rewrite (Sn ltac:(lia)), Ep. reflexivity.
    - cbn [key]. replace i with (a + Z.of_nat (Z.to_nat (i - a))) at 2 by lia.
      apply add_int; [exact Ha | | change (2 ^ 53) with 9007199254740992; lia].
      apply toZ_ofZ. change (2 ^ 53) with 9007199254740992. lia. }
  split.
  - intros Hi Htop Hbot.
    destruct (finite_bounds scrollTop Fs) as (_ & _ & B).
    set (fs := numFloor scrollTop) in *.
    pose proof (Z.div_mod fs 30 ltac:(lia)) as DM.
    pose proof (Z.mod_pos_bound fs 30 ltac:(lia)) as MB.
    pose proof (Z.div_mod (fs + viewportHeight) 30 ltac:(lia)) as DM'.
    pose proof (Z.mod_pos_bound (fs + viewportHeight) 30 ltac:(lia)) as MB'.
    destruct (startIndex_small scrollTop Fs) as (F & BF & HF).
    { fold fs. change (2 ^ 51) with 2251799813685248. lia. }
    destruct (endIndex_small len scrollTop viewportHeight Fs) as (C & BC & HC).
    { change (2 ^ 31) with 2147483648. lia. }
    { change (2 ^ 32) with 4294967296. lia. }
    { fold fs. change (2 ^ 52) with 4503599627370496. lia. }
    fold fs in BF, BC.
    apply (render _ _ HF HC). lia.
  - intros a b Ha Hb B0. split; [|apply (render a b Ha Hb)].
    intros (row & Hin & Hkey). apply In_nth_error in Hin. destruct Hin as [j Hj].
    rewrite visibleRows_nth in Hj. fold len in Hj.
    destruct (nth_error (slice _ _ _) j) as [p|] eqn:E; [|discriminate Hj].
    inversion Hj; subst row; clear Hj. cbn [key] in Hkey.
    apply slice_nth in E. cbv zeta in E. fold len in E. destruct E as [Lt _].
    pose proof (startIndex_nonneg scrollTop a Fs Ha) as A0.
    rewrite (ToInteger_int _ _ Ha), (ToInteger_int _ _ Hb) in Lt.
    cbn [relativeIndex] in Lt.
    destruct (Z.ltb_spec a 0); [lia|]. destruct (Z.ltb_spec b 0); [lia|].
    rewrite (add_int _ _ a (Z.of_nat j) Ha) in Hkey.
    + inversion Hkey. lia.
    + apply toZ_ofZ. change (2 ^ 53) with 9007199254740992. lia.
    + change (2 ^ 53) with 9007199254740992. lia.
Qed.

Lemma rows_in_view_are_rendered_witness :
  exists row,
    In row (visibleRows {| timeAxisName := js "Index"; valueAxisName := js "Value";
                    dataPoints := [(XIndex 0, ofZ 10); (XIndex 1, ofZ 20)] |}
              scrollTop_40_5 (ofZ 600))
    /\ toZ (key row) = Some 1.
Proof.
  pose proof (rows_in_view_are_rendered
                {| timeAxisName := js "Index"; valueAxisName := js "Value";
                    dataPoints := [(XIndex 0, ofZ 10); (XIndex 1, ofZ 20)] |}
                scrollTop_40_5 600 1) as H.
  cbv zeta in H.
  destruct (H eq_refl ltac:(split; [discriminate | reflexivity]) eq_refl) as [H1 _].
  apply H1; [split; [discriminate | reflexivity] | reflexivity | reflexivity].
Defined.

(** X17: the list view renders a bounded number of rows whatever the
    length of the sequence: for a finite scroll offset that is not
    negative, whole or not, and a viewport height that is a whole number of
    pixels, at most the viewport height over the row height, plus
    twelve. *)
Theorem rendered_rows_are_few (data : SequenceData) (scrollTop : number)
        (viewportHeight : Z) :
  isFinite scrollTop = true -> 0 <= numFloor scrollTop ->
  0 <= viewportHeight < 2 ^ 31 ->
  Z.of_nat (List.length (dataPoints data)) < 2 ^ 32 ->
  Z.of_nat (List.length (visibleRows data scrollTop (ofZ viewportHeight)))
  <= viewportHeight / 30 + 12.
Proof.
  intros Fs Hs Hv Hl. unfold visibleRows. rewrite mapWithIndex_length, slice_length.
  set (len := Z.of_nat (List.length (dataPoints data))) in *.
  change (2 ^ 31) with 2147483648 in Hv. change (2 ^ 32) with 4294967296 in Hl.
  set (fs := numFloor scrollTop) in *.
  pose proof (Z.div_mod fs 30 ltac:(lia)) as DM.
  pose proof (Z.mod_pos_bound fs 30 ltac:(lia)) as MB.
  pose proof (Z.div_mod (fs + viewportHeight) 30 ltac:(lia)) as DM'.
  pose proof (Z.mod_pos_bound (fs + viewportHeight) 30 ltac:(lia)) as MB'.
  pose proof (Z.div_mod viewportHeight 30 ltac:(lia)) as DMv.
  pose proof (Z.mod_pos_bound viewportHeight 30 ltac:(lia)) as MBv.
  pose proof (relativeIndex_range
                (ToIntegerOrInfinity (endIndex (ofZ len) scrollTop (ofZ viewportHeight)))
                len ltac:(lia)) as Rf.
  pose proof (relativeIndex_range (ToIntegerOrInfinity (startIndex scrollTop))
                len ltac:(lia)) as Rs.
  destruct (Z.le_gt_cases fs (2 ^ 51)) as [Sm|La].
  - change (2 ^ 51) with 2251799813685248 in Sm.
    destruct (startIndex_small scrollTop Fs) as (F & BF & HF).
    { fold fs. change (2 ^ 51) with 2251799813685248. lia. }
    destruct (endIndex_small len scrollTop viewportHeight Fs) as (C & BC & HC).
    { change (2 ^ 31) with 2147483648. lia. }
    { change (2 ^ 32) with 4294967296. lia. }
    { fold fs. change (2 ^ 52) with 4503599627370496. lia. }
    fold fs in BF, BC.
    rewrite (ToInteger_int _ _ HF), (ToInteger_int _ _ HC) in *.
    cbn [relativeIndex] in *.
    destruct (Z.ltb_spec (Z.max 0 (F - 5)) 0); [lia|].
    destruct (Z.ltb_spec (Z.min len (C + 5)) 0); lia.
  - change (2 ^ 51) with 2251799813685248 in La.
    assert (G : geN (2 ^ 46) (startIndex scrollTop)).
    { destruct (Z.le_gt_cases fs (30 * 2 ^ 51)) as [Sm|La'].
      - destruct (startIndex_small scrollTop Fs Sm) as (F & BF & HF).
        fold fs in BF. apply toZ_spec in HF.
        apply (geN_weaken _ (Z.max 0 (F - 5))); [|apply HF].
        change (2 ^ 46) with 70368744177664. lia.
      - apply (geN_weaken _ (2 ^ 51 - 5)); [cbn; lia|].
        apply startIndex_large; assumption. }
    pose proof (relativeIndex_ge _ (2 ^ 46) len ltac:(cbn; lia) ltac:(lia) G) as R.
    change (2 ^ 46) with 70368744177664 in R. lia.
Qed.

Lemma rendered_rows_are_few_witness :
  Z.of_nat (List.length
              (visibleRows {| timeAxisName := js "Index"; valueAxisName := js "Value";
                    dataPoints := [(XIndex 0, ofZ 10); (XIndex 1, ofZ 20)] |}
                 scrollTop_40_5 (ofZ 600)))
  <= 600 / 30 + 12.
Proof.
  apply rendered_rows_are_few;
    [reflexivity | discriminate | split; [discriminate | reflexivity] | reflexivity].
Defined.

(** ** A date shown and read again *)

Example toISOString_known :
  toISOString 1704096000000 = js "2024-01-01T08:00:00.000Z"
  /\ toISOString (-1) = js "1969-12-31T23:59:59.999Z"
  /\ toISOString 951825600123 = js "2000-02-29T12:00:00.123Z"
  /\ toISOString 8640000000000000 = js "+275760-09-13T00:00:00.000Z"
  /\ toISOString (-62198755200000) = js "-000001-01-01T00:00:00.000Z".
Proof. split; [|split; [|split; [|split]]]; vm_compute; reflexivity. Qed.

Lemma DayFromYear_after_1970 (k : Z) :
  0 <= k -> 365 * k <= DayFromYear (1970 + k) <= 366 * k.
Proof.
  intro H. unfold DayFromYear.
  replace (1970 + k - 1970) with k by lia.
  replace (1970 + k - 1969) with (k + 1) by lia.
  replace (1970 + k - 1901) with (k + 69) by lia.
  replace (1970 + k - 1601) with (k + 369) by lia.
  Z.div_mod_to_equations. lia.
Qed.

Lemma DayFromYear_before_1970 (k : Z) :
  k <= 0 -> 366 * k <= DayFromYear (1970 + k) <= 365 * k.
Proof.
  intro H. unfold DayFromYear.
  replace (1970 + k - 1970) with k by lia.
  replace (1970 + k - 1969) with (k + 1) by lia.
  replace (1970 + k - 1901) with (k + 69) by lia.
  replace (1970 + k - 1601) with (k + 369) by lia.
  Z.div_mod_to_equations. lia.
Qed.

Lemma yearSearch_spec (fuel : nat) (y day : Z) :
  DayFromYear y <= day -> day < DayFromYear (y + Z.of_nat fuel) ->
  DayFromYear (yearSearch fuel y day) <= day
  < DayFromYear (yearSearch fuel y day + 1).
Proof.
  revert y; induction fuel as [|f IH]; intros y Lo Hi.
  - rewrite Z.add_0_r in Hi. lia.
  - cbn [yearSearch]. destruct (Z.ltb_spec day (DayFromYear (y + 1))) as [L|G].
    + lia.
    + apply IH; [exact G|].
      replace (y + 1 + Z.of_nat f) with (y + Z.of_nat (S f)) by lia. exact Hi.
Qed.

(** [YearFromTime] is the year ECMA-262 defines, on every time value. *)
Lemma YearFromTime_spec (t : Z) :
  Z.abs t <= 8640000000000000 ->
  DayFromYear (YearFromTime t) <= Day t < DayFromYear (YearFromTime t + 1).
Proof.
  intro H. unfold YearFromTime.
  assert (D : -100000000 <= Day t <= 100000000).
  { unfold Day, msPerDay. Z.div_mod_to_equations. lia. }
  set (day := Day t) in *.
  assert (Q : (0 <= day -> Z.min (day / 365) (day / 366) = day / 366)
              /\ (day < 0 -> Z.min (day / 365) (day / 366) = day / 365)).
  { split; intro; Z.div_mod_to_equations; lia. }
  apply yearSearch_spec.
  - destruct (Z.le_gt_cases 0 day) as [P|N].
    + rewrite (proj1 Q P).
      pose proof (DayFromYear_after_1970 (day / 366) ltac:(Z.div_mod_to_equations; lia)).
      Z.div_mod_to_equations. lia.
    + rewrite (proj2 Q N).
      pose proof (DayFromYear_before_1970 (day / 365) ltac:(Z.div_mod_to_equations; lia)).
      Z.div_mod_to_equations. lia.
  - change (Z.of_nat 1000) with 1000.
    destruct (Z.le_gt_cases 0 day) as [P|N].
    + rewrite (proj1 Q P).
      replace (1970 + day / 366 + 1000) with (1970 + (day / 366 + 1000)) by lia.
      pose proof (DayFromYear_after_1970 (day / 366 + 1000)
                    ltac:(Z.div_mod_to_equations; lia)).
      Z.div_mod_to_equations. lia.
    + rewrite (proj2 Q N).
      replace (1970 + day / 365 + 1000) with (1970 + (day / 365 + 1000)) by lia.
      destruct (Z.le_gt_cases 0 (day / 365 + 1000)) as [P'|N'].
      * pose proof (DayFromYear_after_1970 (day / 365 + 1000) P'). lia.
      * pose proof (DayFromYear_before_1970 (day / 365 + 1000) ltac:(lia)).
        Z.div_mod_to_equations. lia.
Qed.

Lemma InLeapYear_days (y : Z) : DaysInYear y = 365 + InLeapYear y.
Proof.
  unfold InLeapYear, DaysInYear.
  destruct (negb (y mod 4 =? 0)); [reflexivity|].
  destruct (negb (y mod 100 =? 0)); [reflexivity|].
  destruct (negb (y mod 400 =? 0)); reflexivity.
Qed.

Lemma InLeapYear_range (y : Z) : 0 <= InLeapYear y <= 1.
Proof. unfold InLeapYear. destruct (DaysInYear y =? 366); lia. Qed.

Lemma DayWithinYear_range (t : Z) :
  Z.abs t <= 8640000000000000 ->
  0 <= DayWithinYear t < 365 + InLeapYear (YearFromTime t).
Proof.
  intro H. pose proof (YearFromTime_spec t H) as S.
  rewrite DayFromYear_succ, InLeapYear_days in S. unfold DayWithinYear. lia.
Qed.

Lemma MonthFromTime_range (t : Z) : 0 <= MonthFromTime t <= 11.
Proof.
  unfold MonthFromTime.
  repeat match goal with
    | |- context [if ?b then _ else _] => destruct b
    end; lia.
Qed.

Lemma DateFromTime_range (t : Z) :
  Z.abs t <= 8640000000000000 -> 1 <= DateFromTime t <= 31.
Proof.
  intro H. pose proof (DayWithinYear_range t H) as R.
  pose proof (InLeapYear_range (YearFromTime t)) as L.
  unfold DateFromTime, MonthFromTime, monthStart.
  set (d := DayWithinYear t) in *. set (l := InLeapYear (YearFromTime t)) in *.
  repeat match goal with
    | |- context [if ?a <? ?b then _ else _] => destruct (Z.ltb_spec a b)
    end; lia.
Qed.

Lemma DayFromYear_mono (y1 y2 : Z) : y1 <= y2 -> DayFromYear y1 <= DayFromYear y2.
Proof.
  intro H. unfold DayFromYear.
  assert ((y1 - 1969) / 4 <= (y2 - 1969) / 4) by (apply Z.div_le_mono; lia).
  assert ((y1 - 1601) / 400 <= (y2 - 1601) / 400) by (apply Z.div_le_mono; lia).
  assert ((y2 - 1901) / 100 - (y1 - 1901) / 100 <= (y2 - y1) / 100 + 1).
  { replace (y2 - 1901) with ((y1 - 1901) + (y2 - y1)) by lia.
    Z.div_mod_to_equations. lia. }
  assert ((y2 - y1) / 100 <= y2 - y1) by (Z.div_mod_to_equations; lia).
  destruct (Z.eq_dec y1 y2) as [->|N]; [lia|]. lia.
Qed.

(** The time values of the years 0100 to 9999. *)
Lemma YearFromTime_four_digits (t : Z) :
  -59011459200000 <= t <= 253402300799999 -> 100 <= YearFromTime t <= 9999.
Proof.
  intro H.
  assert (A : Z.abs t <= 8640000000000000) by lia.
  pose proof (YearFromTime_spec t A) as [Lo Hi].
  assert (D : DayFromYear 100 <= Day t < DayFromYear 10000).
  { change (DayFromYear 100) with (-683003). change (DayFromYear 10000) with 2932897.
    unfold Day, msPerDay. Z.div_mod_to_equations. lia. }
  split.
  - destruct (Z.le_gt_cases 100 (YearFromTime t)) as [L|G]; [exact L|].
    pose proof (DayFromYear_mono (YearFromTime t + 1) 100 ltac:(lia)). lia.
  - destruct (Z.le_gt_cases (YearFromTime t) 9999) as [L|G]; [exact L|].
    pose proof (DayFromYear_mono 10000 (YearFromTime t) ltac:(lia)). lia.
Qed.

Lemma digitsOf_length (w : nat) (n : Z) : List.length (digitsOf w n) = w.
Proof.
  revert n; induction w as [|w IH]; intro n; cbn [digitsOf]; [reflexivity|].
  rewrite length_app, IH. cbn [List.length]. lia.
Qed.

Lemma digitsOf_digits (w : nat) (n : Z) : allDigits (digitsOf w n).
Proof.
  revert n; induction w as [|w IH]; intro n; cbn [digitsOf]; [constructor|].
  apply Forall_app. split; [apply IH|]. constructor; [|constructor].
  unfold isDigit. pose proof (Z.mod_pos_bound n 10 ltac:(lia)).
  apply andb_true_iff. split; apply N.leb_le; lia.
Qed.

Lemma digitsOf_group (w : nat) (n : Z) : digitGroup w (digitsOf w n).
Proof. split; [apply digitsOf_digits | apply digitsOf_length]. Qed.

Lemma digitsOf_value (w : nat) (n : Z) :
  0 <= n < 10 ^ Z.of_nat w -> digitsValue (digitsOf w n) = n.
Proof.
  revert n; induction w as [|w IH]; intros n H.
  - cbn in H. cbn. lia.
  - cbn [digitsOf]. unfold digitsValue. rewrite fold_left_app. cbn [fold_left].
    change (fold_left _ (digitsOf w (n / 10)) 0)
      with (digitsValue (digitsOf w (n / 10))).
    rewrite IH.
    + pose proof (Z.mod_pos_bound n 10 ltac:(lia)).
      rewrite Z2N.id by lia. Z.div_mod_to_equations. lia.
    + rewrite Nat2Z.inj_succ, Z.pow_succ_r in H by lia.
      Z.div_mod_to_equations. lia.
Qed.

Lemma digitsN_of_group (n : nat) (ds r : jsstring) :
  digitGroup n ds -> digitsN n (ds ++ r) = Some (ds, r).
Proof.
  intros [A L]. revert n L; induction A as [|c ds Hc A IH]; intros n L.
  - cbn in L. subst n. reflexivity.
  - cbn in L. subst n. cbn [digitsN app]. rewrite Hc, (IH _ eq_refl). reflexivity.
Qed.

Lemma digitsUpTo_of_group (n : nat) (ds r : jsstring) :
  digitGroup n ds -> digitsUpTo n (ds ++ r) = (ds, r).
Proof.
  intros [A L]. revert n L; induction A as [|c ds Hc A IH]; intros n L.
  - cbn in L. subst n. reflexivity.
  - cbn in L. subst n. cbn [digitsUpTo app]. rewrite Hc, (IH _ eq_refl). reflexivity.
Qed.

(** The match of [ISO_RE] on a string of the shape [toISOString] writes for
    a four-digit year. *)
Lemma ISO_RE_exec_full (Y Mo D h mi se ms : jsstring) :
  digitGroup 4 Y -> digitGroup 2 Mo -> digitGroup 2 D -> digitGroup 2 h ->
  digitGroup 2 mi -> digitGroup 2 se -> digitGroup 3 ms ->
  ISO_RE_exec (Y ++ MINUS :: Mo ++ MINUS :: D ++ 84%N :: h ++ COLON :: mi
                 ++ COLON :: se ++ DOT :: ms ++ [90%N])
  = Some {| g_Y := Y; g_Mo := Mo; g_D := D; g_h := Some h; g_mi := Some mi;
            g_se := Some se; g_ms := Some ms; g_tz := Some [90%N] |}.
Proof.
  intros HY HMo HD Hh Hmi Hse Hms. unfold ISO_RE_exec.
  rewrite (digitsN_of_group 4 Y _ HY). cbn [expect]. change (N.eqb MINUS MINUS) with true.
  cbv iota. rewrite (digitsN_of_group 2 Mo _ HMo). cbn [expect].
  change (N.eqb MINUS MINUS) with true. cbv iota.
  rewrite (digitsN_of_group 2 D _ HD).
  change (N.eqb 84%N 84%N || isWhiteSpace 84%N) with true. cbv iota.
  rewrite (digitsN_of_group 2 h _ Hh). cbn [expect]. change (N.eqb COLON COLON) with true.
  cbv iota. rewrite (digitsN_of_group 2 mi _ Hmi).
  unfold matchSeconds. cbn [expect]. change (N.eqb COLON COLON) with true. cbv iota.
  rewrite (digitsN_of_group 2 se _ Hse). cbn [expect]. change (N.eqb DOT DOT) with true.
  cbv iota. rewrite (digitsUpTo_of_group 3 ms _ Hms).
  destruct ms as [|c ms]; [destruct Hms as [_ L]; discriminate L|].
  reflexivity.
Qed.

Lemma time_within_day (t : Z) :
  MakeTime (HourFromTime t) (MinFromTime t) (SecFromTime t) (msFromTime t)
  = TimeWithinDay t.
Proof.
  unfold MakeTime, HourFromTime, MinFromTime, SecFromTime, msFromTime,
    TimeWithinDay, msPerDay.
  Z.div_mod_to_equations. lia.
Qed.

Lemma day_of_fields (t : Z) :
  MakeDay (YearFromTime t) (MonthFromTime t) (DateFromTime t) = Day t.
Proof.
  pose proof (MonthFromTime_range t) as R. unfold MakeDay.
  rewrite (Z.div_small (MonthFromTime t) 12), (Z.mod_small (MonthFromTime t) 12) by lia.
  rewrite Z.add_0_r. unfold DateFromTime, DayWithinYear. lia.
Qed.

(** The fields [toISOString] writes rebuild the time value. *)
Lemma fields_rebuild (t : Z) :
  MakeDate (MakeDay (YearFromTime t) (MonthFromTime t) (DateFromTime t))
           (MakeTime (HourFromTime t) (MinFromTime t) (SecFromTime t)
                     (msFromTime t)) = t.
Proof.
  rewrite day_of_fields, time_within_day.
  unfold MakeDate, Day, TimeWithinDay, msPerDay. Z.div_mod_to_equations. lia.
Qed.

(** X18: the list view shows a date as [x.toISOString()].  For every
    instant of the years 0100 to 9999 the parser reads that string back as the
    very same instant: what the view shows for a date denotes the date. *)
Theorem shown_date_reads_back (t : Z) :
  -59011459200000 <= t <= 253402300799999 ->
  parseIsoToDate (toISOString t) = Some t.
Proof.
  intro H.
  pose proof (YearFromTime_four_digits t H) as Hy.
  assert (A : Z.abs t <= 8640000000000000) by lia.
  pose proof (MonthFromTime_range t) as Hm.
  pose proof (DateFromTime_range t A) as Hd.
  assert (Hh : 0 <= HourFromTime t < 24) by (apply Z.mod_pos_bound; lia).
  assert (Hmi : 0 <= MinFromTime t < 60) by (apply Z.mod_pos_bound; lia).
  assert (Hs : 0 <= SecFromTime t < 60) by (apply Z.mod_pos_bound; lia).
  assert (Hms : 0 <= msFromTime t < 1000) by (apply Z.mod_pos_bound; lia).
  unfold toISOString, parseIsoToDate.
  replace ((0 <=? YearFromTime t) && (YearFromTime t <=? 9999)) with true
    by (symmetry; apply andb_true_iff; split; apply Z.leb_le; lia).
  cbv zeta.
  rewrite (ISO_RE_exec_full _ _ _ _ _ _ _ (digitsOf_group 4 _) (digitsOf_group 2 _)
             (digitsOf_group 2 _) (digitsOf_group 2 _) (digitsOf_group 2 _)
             (digitsOf_group 2 _) (digitsOf_group 3 _)).
  cbn [g_Y g_Mo g_D g_h g_mi g_se g_ms g_tz groupValue].
  change (eqb [90%N] [90%N]) with true. cbv iota.
  unfold padEnd0. rewrite digitsOf_length, Nat.sub_diag. cbn [repeat].
  rewrite app_nil_r.
  rewrite (digitsOf_value 4 (YearFromTime t)),
    (digitsOf_value 2 (MonthFromTime t + 1)), (digitsOf_value 2 (DateFromTime t)),
    (digitsOf_value 2 (HourFromTime t)), (digitsOf_value 2 (MinFromTime t)),
    (digitsOf_value 2 (SecFromTime t)), (digitsOf_value 3 (msFromTime t));
    try (change (10 ^ Z.of_nat 4) with 10000; change (10 ^ Z.of_nat 3) with 1000;
         change (10 ^ Z.of_nat 2) with 100; lia).
  replace (MonthFromTime t + 1 - 1) with (MonthFromTime t) by lia.
  unfold DateUTC.
  replace ((0 <=? YearFromTime t) && (YearFromTime t <=? 99)) with false
    by (symmetry; apply andb_false_iff; right; apply Z.leb_gt; lia).
  rewrite fields_rebuild.
  assert (C : TimeClip t = Some t).
  { unfold TimeClip. destruct (Z.leb_spec (Z.abs t) 8640000000000000); [reflexivity | lia]. }
  rewrite C. exact C.
Qed.

Lemma shown_date_reads_back_witness :
  -59011459200000 <= 951825600123 <= 253402300799999
  /\ parseIsoToDate (toISOString 951825600123) = Some 951825600123.
Proof. split; [lia | apply (shown_date_reads_back 951825600123); lia]. Defined.
